(** * aggroNATION: ingestion, ranking and serialization helpers

    A shallow embedding of the TypeScript sources that the ranking and
    ingestion properties talk about:

    - the HuggingFace hub utilities ([transformHuggingFaceModel]),
    - [models/AIModel] (the [pre('save')] hook),
    - [models/GitHubRepository] ([calculateFinalScore]),
    - [models/XAccount] ([markSyncSuccess], [markSyncError]),
    - [lib/pagination] ([buildPagination]),
    - [lib/serialize] ([serializeDoc]),
    - [utils/rss-parser] ([processFeedItems], [processAllFeeds]).

    Conventions.  A JavaScript [number] is modelled by a rational ([Q]);
    [NaN] and the infinities are outside the model, and equality of numbers
    is [Qeq].  Arithmetic is exact, except where the result goes through
    [Math.round] on a sum of products (the repository's final score): there
    every operation is rounded to binary64 as the engine does it
    ([Js.double]).  A Mongoose document is a record of the fields the
    modelled code reads or writes; a method that mutates [this] returns the
    new record.  Where a method calls [save], the validators of the schema
    on the paths of the record run before the pre-save hook, as Mongoose
    runs them.  A collection is the list of its documents in insertion
    order. *)

From Stdlib Require Import NArith ZArith QArith Qround Qminmax Qpower Lia Lqa.
From Stdlib Require Import Bool List String Ascii.
From Stdlib Require Import Reals Lra Qreals.
Import ListNotations.

Set Warnings "-register-all".
Local Open Scope Q_scope.

(** ** JavaScript arithmetic used by the sources *)

Module Js.

(** [Math.min(a, b)] and [Math.max(a, b)]. *)
Definition Math_min (a b : Q) : Q := Qmin a b.
Definition Math_max (a b : Q) : Q := Qmax a b.

(** [Math.ceil(x)]. *)
Definition Math_ceil (x : Q) : Q := inject_Z (Qceiling x).

(** [Math.round(x)]: the integer nearest to [x], halves going up. *)
Definition Math_round (x : Q) : Q := inject_Z (Qfloor (x + 0.5)).

(** [a < b] and [a > b] as the boolean the operators return. *)
Definition ltb (a b : Q) : bool := negb (Qle_bool b a).
Definition gtb (a b : Q) : bool := ltb b a.
Definition geb (a b : Q) : bool := Qle_bool b a.

(** [x || 0] on a number: a falsy number is [0] (or [NaN]). *)
Definition or_zero (x : Q) : Q := if Qeq_bool x 0 then 0 else x.

(** *** binary64

    [double x] is the binary64 number nearest to [x], ties going to the even
    significand: a number in the binade [2^e <= |x| < 2^(e+1)] is rounded to
    a multiple of [2^(e-52)], and to a multiple of [2^-1074] below the
    smallest normal number.  (Above the largest finite number the engine
    gives an infinity; the model does not.) *)
Definition pow2 (e : Z) : Q := 2 ^ e.

(** The exponent [e] with [2^e <= x < 2^(e+1)], for a positive [x]. *)
Definition ilog2 (x : Q) : Z :=
  if Qle_bool 1 x then Z.log2 (Qfloor x)
  else (- Z.log2_up (Qceiling (/ x)))%Z.

Definition roundHalfEven (m : Q) : Z :=
  let f := Qfloor m in
  match Qcompare (m - inject_Z f) (1 # 2) with
  | Lt => f
  | Gt => (f + 1)%Z
  | Eq => if Z.even f then f else (f + 1)%Z
  end.

(** The exponent of the spacing of the binary64 numbers around [x]. *)
Definition quantum (x : Q) : Z := Z.max (ilog2 x - 52) (-1074).

Definition nearest (x : Q) : Q :=
  if Qle_bool x 0 then 0
  else inject_Z (roundHalfEven (x / pow2 (quantum x))) * pow2 (quantum x).

Definition double (x : Q) : Q :=
  if Qle_bool 0 x then nearest x else - nearest (- x).

(** [a * b] and [a + b] on two binary64 numbers. *)
Definition mul (a b : Q) : Q := double (a * b).
Definition add (a b : Q) : Q := double (a + b).

(** [s.startsWith('@')] and [s.substring(1)]. *)
Definition startsWith_at (s : string) : bool :=
  match s with
  | String c _ => Ascii.eqb c "@"%char
  | EmptyString => false
  end.

Definition substring1 (s : string) : string :=
  match s with
  | String _ rest => rest
  | EmptyString => EmptyString
  end.

End Js.

(** ** JavaScript strings: [trim]

    The setter that Mongoose installs for [trim: true] and the content
    extraction of the feed parser both call [String.prototype.trim]. *)

Module JsString.

(** Strings are taken as their UTF-8 bytes. *)

Definition byte (c : ascii) : nat := nat_of_ascii c.

(** The white space and line terminators that [trim()] removes: the ASCII
    ones, and U+00A0, U+1680, U+2000 to U+200A, U+2028, U+2029, U+202F,
    U+205F, U+3000 and U+FEFF in their encoded form. *)
Definition white1 (c : ascii) : bool :=
  let n := byte c in ((9 <=? n) && (n <=? 13) || (n =? 32))%nat.

Definition white2 (c1 c2 : ascii) : bool :=
  ((byte c1 =? 194) && (byte c2 =? 160))%nat.

Definition white3 (c1 c2 c3 : ascii) : bool :=
  let '(a, b, c) := (byte c1, byte c2, byte c3) in
  ((a =? 225) && (b =? 154) && (c =? 128)
   || (a =? 226) && (b =? 128)
      && ((128 <=? c) && (c <=? 138) || (c =? 168) || (c =? 169) || (c =? 175))
   || (a =? 226) && (b =? 129) && (c =? 159)
   || (a =? 227) && (b =? 128) && (c =? 128)
   || (a =? 239) && (b =? 187) && (c =? 191))%nat.

(** [s.trimStart()]. *)
Fixpoint trimStart (s : string) : string :=
  match s with
  | EmptyString => EmptyString
  | String c1 r1 =>
      if white1 c1 then trimStart r1
      else
        match r1 with
        | EmptyString => s
        | String c2 r2 =>
            if white2 c1 c2 then trimStart r2
            else
              match r2 with
              | EmptyString => s
              | String c3 r3 => if white3 c1 c2 c3 then trimStart r3 else s
              end
        end
  end.

Fixpoint reverseOnto (s acc : string) : string :=
  match s with
  | EmptyString => acc
  | String c r => reverseOnto r (String c acc)
  end.

Definition reverse (s : string) : string := reverseOnto s EmptyString.

(** [trimStart] on the reversed string: the encoded forms read backwards. *)
Fixpoint trimReversed (s : string) : string :=
  match s with
  | EmptyString => EmptyString
  | String c1 r1 =>
      if white1 c1 then trimReversed r1
      else
        match r1 with
        | EmptyString => s
        | String c2 r2 =>
            if white2 c2 c1 then trimReversed r2
            else
              match r2 with
              | EmptyString => s
              | String c3 r3 => if white3 c3 c2 c1 then trimReversed r3 else s
              end
        end
  end.

(** [s.trimEnd()] and [s.trim()]. *)
Definition trimEnd (s : string) : string := reverse (trimReversed (reverse s)).
Definition trim (s : string) : string := trimEnd (trimStart s).

(** [s.length]: the number of UTF-16 code units, read off the encoded
    form: one for a character of one, two or three bytes, two for a
    character of four bytes. *)
Definition units (c : ascii) : nat :=
  let n := byte c in
  if (n <? 128)%nat then 1%nat
  else if (n <? 192)%nat then 0%nat
  else if (n <? 240)%nat then 1%nat
  else 2%nat.

Fixpoint length (s : string) : nat :=
  match s with
  | EmptyString => 0%nat
  | String c rest => (units c + length rest)%nat
  end.

End JsString.

(** ** The HuggingFace hub utilities: the adapter's score *)

Module HuggingFace.

(** The fields of the API's [HuggingFaceModel] that the score reads. *)
Record HuggingFaceModel : Type := mkHF {
  id : string;
  author : string;
  downloads : Q;
  likes : Q;
  trending : bool
}.

Definition maxDownloads : Q := 10000000.

Definition downloadScore (hfModel : HuggingFaceModel) : Q :=
  Js.Math_min ((downloads hfModel / maxDownloads) * 70) 70.

Definition likeScore (hfModel : HuggingFaceModel) : Q :=
  Js.Math_min ((likes hfModel / 1000) * 20) 20.

Definition trendingBonus (hfModel : HuggingFaceModel) : Q :=
  if trending hfModel then 10 else 0.

(** The part of [transformHuggingFaceModel]'s result that carries the
    metrics and the score. *)
Record Transformed : Type := mkTransformed {
  huggingFaceId : string;
  t_author : string;
  t_downloads : Q;
  t_likes : Q;
  t_trending : bool;
  huggingFaceScore : Q
}.

Definition transformHuggingFaceModel (hfModel : HuggingFaceModel) : Transformed :=
  let huggingFaceScore :=
    downloadScore hfModel + likeScore hfModel + trendingBonus hfModel in
  {| huggingFaceId := id hfModel;
     t_author := author hfModel;
     t_downloads := downloads hfModel;
     t_likes := likes hfModel;
     t_trending := trending hfModel;
     huggingFaceScore := huggingFaceScore |}.

(** The hub item of the documented scenario. *)
Definition scenarioModel : HuggingFaceModel :=
  {| id := "org/model"; author := "org";
     downloads := 1000000; likes := 500; trending := true |}.

End HuggingFace.

(** ** models/AIModel: the pre-save hook *)

Module AIModel.

Record IAIModel : Type := mkAIModel {
  huggingFaceId : string;
  downloads : Q;
  likes : Q;
  trending : bool;
  huggingFaceScore : Q;
  userVotes : Q;
  userRating : Q;
  userScore : Q;
  finalScore : Q
}.

(** [AIModelSchema.pre('save', ...)]: both scores are assigned from the
    current fields each time the document is saved. *)
Definition pre_save (this : IAIModel) : IAIModel :=
  let userScore' :=
    if Js.gtb (userVotes this) 0 then
      let ratingScore := (userRating this / 5) * 80 in
      let popularityBonus := Js.Math_min ((userVotes this / 100) * 20) 20 in
      ratingScore + popularityBonus
    else 0 in
  {| huggingFaceId := huggingFaceId this;
     downloads := downloads this;
     likes := likes this;
     trending := trending this;
     huggingFaceScore := huggingFaceScore this;
     userVotes := userVotes this;
     userRating := userRating this;
     userScore := userScore';
     finalScore := (huggingFaceScore this * 0.85) + (userScore' * 0.15) |}.

(** The validators of the schema on the paths of the record: [required] on
    the identifier, [min] and [max] on the numbers.  The other paths of
    the document are taken to be valid. *)
Definition between (lo hi x : Q) : bool := Qle_bool lo x && Qle_bool x hi.

Definition validate (this : IAIModel) : bool :=
  negb (String.eqb (huggingFaceId this) EmptyString)
  && Qle_bool 0 (downloads this)
  && Qle_bool 0 (likes this)
  && between 0 100 (huggingFaceScore this)
  && Qle_bool 0 (userVotes this)
  && between 0 5 (userRating this)
  && between 0 100 (userScore this)
  && between 0 100 (finalScore this).

(** [this.save()]: Mongoose validates the document as it stands, before the
    hook; when a validator fails the promise rejects, the hook does not run
    and nothing is written ([None]); otherwise the hook runs and the
    document is written ([Some]). *)
Definition save (this : IAIModel) : option IAIModel :=
  if validate this then Some (pre_save this) else None.

(** The assignments of [updateUserRating(newVoteCount, newAvgRating)]. *)
Definition withUserRating (newVoteCount newAvgRating : Q) (this : IAIModel)
  : IAIModel :=
  {| huggingFaceId := huggingFaceId this;
     downloads := downloads this;
     likes := likes this;
     trending := trending this;
     huggingFaceScore := huggingFaceScore this;
     userVotes := newVoteCount;
     userRating := newAvgRating;
     userScore := userScore this;
     finalScore := finalScore this |}.

(** [updateUserRating(newVoteCount, newAvgRating)]: the document that is
    written, [None] when the [save] rejects. *)
Definition updateUserRating (newVoteCount newAvgRating : Q) (this : IAIModel)
  : option IAIModel :=
  save (withUserRating newVoteCount newAvgRating this).

(** The assignments of [syncFromHuggingFace(hfData)]: [x || 0] on the three
    numbers, [x || false] on the flag. *)
Definition withHuggingFace (hfData : HuggingFace.Transformed) (this : IAIModel)
  : IAIModel :=
  {| huggingFaceId := huggingFaceId this;
     downloads := Js.or_zero (HuggingFace.t_downloads hfData);
     likes := Js.or_zero (HuggingFace.t_likes hfData);
     trending := HuggingFace.t_trending hfData;
     huggingFaceScore := Js.or_zero (HuggingFace.huggingFaceScore hfData);
     userVotes := userVotes this;
     userRating := userRating this;
     userScore := userScore this;
     finalScore := finalScore this |}.

(** [syncFromHuggingFace(hfData)]: the document that is written, [None]
    when the [save] rejects. *)
Definition syncFromHuggingFace (hfData : HuggingFace.Transformed) (this : IAIModel)
  : option IAIModel :=
  save (withHuggingFace hfData this).

End AIModel.

(** ** models/GitHubRepository: the final score *)

Module GitHubRepository.

(** [calculateFinalScore] reads two numbers: the value returned by
    [this.calculateTrendingScore()] and [this.userScore].  The trending
    score is built from [Math.log10] and the wall clock, so its value
    [githubScore] is an input here; it is always [Math.min(Math.round(_), 100)],
    an integer at most 100.

    [Math.round] turns a difference in the last binary digit of the blend
    into a difference of 1, so the two products and the sum are rounded to
    binary64 here, and the two weights are the binary64 numbers that the
    literals [0.85] and [0.15] denote. *)
Definition githubWeight : Q := Js.double 0.85.
Definition userWeight : Q := Js.double 0.15.

Definition calculateFinalScore (githubScore thisUserScore : Q) : Q :=
  let userScore := Js.or_zero thisUserScore in
  Js.Math_round
    (Js.add (Js.mul githubScore githubWeight) (Js.mul userScore userWeight)).

(** The score fields of a repository document. *)
Record Scores : Type := mkScores {
  trendingScore : Q;
  userScore : Q;
  finalScore : Q
}.

(** The score assignments of the pre-save hook.  The hook calls
    [calculateTrendingScore()] for [trendingScore], and
    [calculateFinalScore()] calls it again: [first] and [second] are the two
    values returned (they are equal unless the clock moves the activity term
    across a rounding step in between). *)
Definition pre_save (first second : Q) (this : Scores) : Scores :=
  {| trendingScore := first;
     userScore := userScore this;
     finalScore := calculateFinalScore second (userScore this) |}.

End GitHubRepository.

(** ** models/XAccount: sync health of a source *)

Module XAccount.

Record IXAccount : Type := mkXAccount {
  handle : string;
  isEnabled : bool;
  lastSyncAt : option Z;          (* milliseconds since the epoch *)
  syncErrorCount : Z;
  lastSyncError : option string
}.

(** [XAccountSchema.pre('save', ...)]: a leading [@] is removed. *)
Definition pre_save (this : IXAccount) : IXAccount :=
  if Js.startsWith_at (handle this) then
    {| handle := Js.substring1 (handle this);
       isEnabled := isEnabled this;
       lastSyncAt := lastSyncAt this;
       syncErrorCount := syncErrorCount this;
       lastSyncError := lastSyncError this |}
  else this.

(** [/^[a-zA-Z0-9_]+$/], the [match] validator of [handle]. *)
Definition isHandleChar (c : ascii) : bool :=
  let n := nat_of_ascii c in
  ((48 <=? n) && (n <=? 57) || (65 <=? n) && (n <=? 90)
   || (97 <=? n) && (n <=? 122) || (n =? 95))%nat.

Fixpoint allHandleChars (s : string) : bool :=
  match s with
  | EmptyString => true
  | String c rest => isHandleChar c && allHandleChars rest
  end.

(** The validators of the schema on the paths of the record: [required]
    and [match] on the handle, [min] on the counter, [maxlength] on the
    error text.  The other paths of the document are taken to be valid. *)
Definition validate (this : IXAccount) : bool :=
  negb (String.eqb (handle this) EmptyString)
  && allHandleChars (handle this)
  && (0 <=? syncErrorCount this)%Z
  && match lastSyncError this with
     | Some e => (JsString.length e <=? 1000)%nat
     | None => true
     end.

(** [this.save()], as it leaves the document in memory: Mongoose validates
    first; when a validator fails the promise rejects, the hook does not run
    and the collection keeps the previous version, while the assignments
    the method has made stay on [this]; otherwise the hook runs and the
    document is written. *)
Definition save (this : IXAccount) : IXAccount :=
  if validate this then pre_save this else this.

(** [markSyncSuccess()], at clock reading [now]. *)
Definition markSyncSuccess (now : Z) (this : IXAccount) : IXAccount :=
  save
    {| handle := handle this;
       isEnabled := isEnabled this;
       lastSyncAt := Some now;
       syncErrorCount := 0;
       lastSyncError := None |}.

(** [markSyncError(error)]. *)
Definition markSyncError (error : string) (this : IXAccount) : IXAccount :=
  let syncErrorCount' := (syncErrorCount this + 1)%Z in
  save
    {| handle := handle this;
       (* Auto-disable after 5 consecutive failures *)
       isEnabled := if (syncErrorCount' >=? 5)%Z then false else isEnabled this;
       lastSyncAt := lastSyncAt this;
       syncErrorCount := syncErrorCount';
       lastSyncError := Some error |}.

(** [needsSync()], at clock reading [now]. *)
Definition needsSync (now : Z) (this : IXAccount) : bool :=
  if negb (isEnabled this) then false
  else match lastSyncAt this with
       | None => true
       | Some t => (t <? now - 60 * 60 * 1000)%Z
       end.

(** [createXAccount({handle})]: the factory's defaults. *)
Definition createXAccount (h : string) : IXAccount :=
  {| handle := h; isEnabled := true; lastSyncAt := None;
     syncErrorCount := 0; lastSyncError := None |}.

(** How a finished sync run of the account is recorded. *)
Inductive SyncRun : Type :=
| Succeeded (now : Z)
| Failed (error : string).

Definition recordRun (this : IXAccount) (r : SyncRun) : IXAccount :=
  match r with
  | Succeeded now => markSyncSuccess now this
  | Failed error => markSyncError error this
  end.

Definition recordRuns (this : IXAccount) (rs : list SyncRun) : IXAccount :=
  fold_left recordRun rs this.

Definition isFailed (r : SyncRun) : bool :=
  match r with Failed _ => true | Succeeded _ => false end.

End XAccount.

(** ** lib/pagination *)

Module Pagination.

Record PaginationMeta : Type := mkMeta {
  currentPage : Q;
  totalPages : Q;
  totalCount : Q;
  limit : Q;
  hasNext : bool;
  hasPrev : bool
}.

(** [buildPagination({ page, limit, totalCount })].  The quotient
    [totalCount / limit] is exact; with [limit = 0] JavaScript yields an
    infinity or [NaN], which the model does not cover. *)
Definition buildPagination (page limit totalCount : Q) : PaginationMeta :=
  let totalPages := Js.Math_max 1 (Js.Math_ceil (totalCount / limit)) in
  let currentPage := Js.Math_min (Js.Math_max 1 page) totalPages in
  {| currentPage := currentPage;
     totalPages := totalPages;
     totalCount := totalCount;
     limit := limit;
     hasNext := Js.ltb currentPage totalPages;
     hasPrev := Js.gtb currentPage 1 |}.

End Pagination.

(** ** lib/serialize *)

Module Serialize.

(** The JavaScript values the serializer is run on.  A value is a finite
    tree: an object that is reachable twice is two equal subtrees, and a
    cyclic structure is not a value of this type.

    - [VFunction r]: a function; [r] is the string a call without arguments
      returns, [None] when the call throws or returns something else.
    - [VDate iso]: a [Date]; [iso] is [toISOString()], [None] for an
      invalid date.
    - [VObjectId n]: a driver [ObjectId] instance ([_bsontype] is
      ['ObjectId']); [n] is its 12-byte value.
    - [VObject entries]: a plain object with its own enumerable properties
      in [Object.entries] order. *)
Inductive value : Type :=
| VNull
| VUndefined
| VString (s : string)
| VNumber (n : Q)
| VBoolean (b : bool)
| VFunction (returns : option string)
| VDate (iso : option string)
| VObjectId (n : N)
| VArray (items : list value)
| VObject (entries : list (string * value)).

Record SerializeOptions : Type := mkOptions {
  stripUndefined : bool;
  omitKeys : list string
}.

Definition DEFAULT_OPTIONS : SerializeOptions :=
  {| stripUndefined := true; omitKeys := ["__v"; "$__"]%string |}.

(** *** Strings *)

Definition isHexDigit (c : ascii) : bool :=
  let n := nat_of_ascii c in
  ((48 <=? n) && (n <=? 57) || (97 <=? n) && (n <=? 102)
   || (65 <=? n) && (n <=? 70))%nat.

Fixpoint allHex (s : string) : bool :=
  match s with
  | EmptyString => true
  | String c rest => isHexDigit c && allHex rest
  end.

(** [/^[a-f\d]{24}$/i.test(s)]. *)
Definition isOidString (s : string) : bool :=
  (String.length s =? 24)%nat && allHex s.

Definition hexDigit (d : N) : ascii :=
  ascii_of_N (if (d <? 10)%N then 48 + d else 87 + d)%N.

Fixpoint hexOf (digits : nat) (n : N) (acc : string) : string :=
  match digits with
  | O => acc
  | S k => hexOf k (n / 16)%N (String (hexDigit (n mod 16)%N) acc)
  end.

(** [toHexString()] of an [ObjectId]: 24 lower-case hexadecimal digits. *)
Definition toHexString (n : N) : string := hexOf 24 n EmptyString.

(** *** Property access on a plain object *)

Fixpoint getProp (entries : list (string * value)) (key : string) : option value :=
  match entries with
  | [] => None
  | (k, v) :: rest => if String.eqb k key then Some v else getProp rest key
  end.

(** [obj[key] = v] on own properties: the value of a key that is present is
    replaced in place, another key is added at the end. *)
Fixpoint assign (entries : list (string * value)) (key : string) (v : value)
  : list (string * value) :=
  match entries with
  | [] => [(key, v)]
  | (k, w) :: rest =>
      if String.eqb k key then (k, v) :: rest else (k, w) :: assign rest key v
  end.

(** [obj[key] = v] on an object made by the literal [{}]: the key
    [__proto__] reaches the setter of [Object.prototype], which adds no own
    property (it installs [v] as the prototype when [v] is an object or
    [null], and ignores any other [v]); the prototype is not part of a
    [value]. *)
Definition setProp (entries : list (string * value)) (key : string) (v : value)
  : list (string * value) :=
  if String.eqb key "__proto__" then entries else assign entries key v.

Definition includes (keys : list string) (key : string) : bool :=
  existsb (String.eqb key) keys.

(** *** [toString()]

    [toStringJs v] is the string [v.toString()] evaluates to.  The caller
    only tests the result against [isOidString], so the result is [None]
    both when the call throws and when the text cannot consist of 24
    hexadecimal digits: a number prints with at most 21 digits or else with
    a sign, a point or a signed exponent; a boolean, a date and a function
    print with other letters or blanks; an array of two or more elements
    prints a comma. *)
Fixpoint toStringJs (v : value) : option string :=
  match v with
  | VNull | VUndefined => None
  | VString s => Some s
  | VNumber _ | VBoolean _ | VFunction _ | VDate _ => None
  | VObjectId n => Some (toHexString n)
  | VArray [] => Some EmptyString
  | VArray [x] =>
      match x with
      | VNull | VUndefined => Some EmptyString
      | _ => toStringJs x
      end
  | VArray _ => None
  | VObject entries =>
      match getProp entries "toString" with
      | None => Some "[object Object]"%string
      | Some (VFunction r) => r
      | Some _ => None
      end
  end.

(** *** [isObjectId] and [coerceObjectIdString] on a non-primitive value *)

Definition hasOidProp (v : value) : option string :=
  match v with
  | VObject entries =>
      match getProp entries "$oid" with
      | Some (VString s) => Some s
      | _ => None
      end
  | _ => None
  end.

Definition isObjectId (v : value) : bool :=
  match v with
  | VObjectId _ => true
  | VObject entries =>
      match getProp entries "_bsontype" with
      | Some (VString t) => String.eqb t "ObjectId" || String.eqb t "ObjectID"
      | _ => false
      end
      || match getProp entries "toHexString" with
         | Some (VFunction _) => true
         | _ => false
         end
      || match hasOidProp v with Some _ => true | None => false end
  | _ => false
  end.

Definition test (s : string) : option string :=
  if isOidString s then Some s else None.

Definition coerceObjectIdString (v : value) : option string :=
  match v with
  | VString s => test s
  | _ =>
      match hasOidProp v with
      | Some s => test s
      | None =>
          if isObjectId v then
            let s :=
              match v with
              | VObjectId n => Some (toHexString n)
              | VObject entries =>
                  match getProp entries "toHexString" with
                  | Some (VFunction r) => r
                  | _ => toStringJs v
                  end
              | _ => None
              end in
            match s with Some s => test s | None => None end
          else
            match toStringJs v with Some s => test s | None => None end
      end
  end.

Definition isUndefined (v : value) : bool :=
  match v with VUndefined => true | _ => false end.

(** *** The serializer

    [seen] holds the plain objects on the path from the root to the value
    being visited (each is removed again after its entries); on a tree it
    never contains the value being visited, so [seen.has(value)] is
    false. *)

(** The loop over an array, [serialize] being the recursive call. *)
Definition eachItem (serialize : value -> value) : list value -> list value :=
  fix each (l : list value) : list value :=
    match l with
    | [] => []
    | item :: rest =>
        let serializedItem := serialize item in
        if isUndefined serializedItem then each rest
        else serializedItem :: each rest
    end.

(** The loop over [Object.entries(value)], filling [obj]. *)
Definition eachEntry (options : SerializeOptions) (serialize : value -> value)
  : list (string * value) -> list (string * value) -> list (string * value) :=
  fix each (l : list (string * value)) (obj : list (string * value))
    : list (string * value) :=
    match l with
    | [] => obj
    | (key, val) :: rest =>
        if includes (omitKeys options) key then each rest obj
        else
          let serializedVal := serialize val in
          if negb (isUndefined serializedVal) || negb (stripUndefined options)
          then each rest (setProp obj key serializedVal)
          else each rest obj
    end.

Fixpoint serializeValue (options : SerializeOptions) (v : value) : value :=
  match v with
  | VNull => VNull
  | VString _ | VNumber _ | VBoolean _ => v
  | VUndefined => VUndefined
  | VFunction _ => VUndefined
  | VDate None => VNull
  | VDate (Some iso) => VString iso
  | VObjectId _ | VArray _ | VObject _ =>
      match coerceObjectIdString v with
      | Some oid => VString oid
      | None =>
          match v with
          | VArray items => VArray (eachItem (serializeValue options) items)
          | VObject entries =>
              VObject (eachEntry options (serializeValue options) entries [])
          | _ => VNull
          end
      end
  end.

(** [serializeDoc(doc, options)]: [serializeValue(...) ?? null]. *)
Definition serializeDocWith (options : SerializeOptions) (doc : value) : value :=
  match serializeValue options doc with
  | VUndefined => VNull
  | r => r
  end.

(** [serializeDoc(doc)], with the default options. *)
Definition serializeDoc (doc : value) : value :=
  serializeDocWith DEFAULT_OPTIONS doc.

Definition serializeDocs (docs : list value) : list value :=
  map serializeDoc docs.

(** *** Serialized data that a further pass leaves alone

    [settled v]: [v] is made of [null], strings, numbers, booleans, arrays
    and objects; no array or object in it is taken for an identifier by
    [coerceObjectIdString]; no object has one of the default omitted keys,
    the key [__proto__] or the same key twice. *)
Fixpoint distinct (keys : list string) : bool :=
  match keys with
  | [] => true
  | k :: rest => negb (includes rest k) && distinct rest
  end.

Fixpoint settled (v : value) : bool :=
  match v with
  | VNull | VString _ | VNumber _ | VBoolean _ => true
  | VUndefined | VFunction _ | VDate _ | VObjectId _ => false
  | VArray items =>
      match coerceObjectIdString v with
      | Some _ => false
      | None => forallb settled items
      end
  | VObject entries =>
      match coerceObjectIdString v with
      | Some _ => false
      | None =>
          distinct (map fst entries)
          && forallb (fun kv : string * value =>
                        let '(key, val) := kv in
                        negb (includes (omitKeys DEFAULT_OPTIONS) key)
                        && negb (String.eqb key "__proto__")
                        && settled val)
                     entries
      end
  end.

Definition sampleHex : string := "0123456789abcdef01234567".

(** A lean document as a query returns it. *)
Definition sampleDoc : value :=
  VObject
    [("_id"%string, VObjectId 1311768467463790320%N);
     ("__v"%string, VNumber 0);
     ("name"%string, VString "gpt");
     ("createdAt"%string, VDate (Some "2025-09-26T00:00:00.000Z"%string));
     ("lastFetched"%string, VDate None);
     ("tags"%string, VArray [VString "a"; VUndefined; VFunction None]);
     ("meta"%string,
      VObject [("x"%string, VUndefined);
               ("ref"%string, VObject [("$oid"%string, VString sampleHex)])])].

(** A document that wraps an identifier twice in the [{$oid: ...}] shape. *)
Definition nestedOid : value :=
  VObject [("$oid"%string, VObject [("$oid"%string, VString sampleHex)])].

End Serialize.

(** ** models/Feed and models/Article *)

Module Feed.

(** [feedUrl] is read by [determineContentType]; it is not a path of
    [FeedSchema], so a document loaded from the collection has none. *)
Record IFeed : Type := mkFeed {
  _id : string;
  title : string;
  url : string;
  category : string;
  isActive : bool;
  feedUrl : option string
}.

End Feed.

Module Article.

Inductive ContentType : Type := article | video.

(** A [Date]: [new Date(text)] or the clock reading of [new Date()]. *)
Inductive JsDate : Type :=
| DateOf (text : string)
| DateAt (ms : Z).

(** The paths [processFeedItems] assigns, and the engagement paths with
    their schema defaults. *)
Record IArticle : Type := mkArticle {
  title : string;
  description : option string;
  content : option string;
  url : string;
  originalUrl : string;
  contentType : ContentType;
  feedId : string;
  feedTitle : string;
  category : string;
  author : option string;
  publishedAt : JsDate;
  imageUrl : option string;
  likes : Q;
  dislikes : Q;
  views : Q;
  ranking : Q;
  isActive : bool
}.

End Article.

(** ** utils/rss-parser *)

Module RssParser.

Record Enclosure : Type := mkEnclosure {
  enc_url : string;
  enc_type : string
}.

Record ParsedFeedItem : Type := mkItem {
  title : string;
  description : option string;
  content : option string;
  link : string;
  pubDate : option string;
  author : option string;
  guid : option string;
  contentSnippet : option string;
  enclosure : option Enclosure
}.

Record ParsedFeed : Type := mkParsedFeed {
  feed_title : string;
  feed_description : option string;
  feed_link : option string;
  items : list ParsedFeedItem
}.

(** What a run takes from outside the process. *)
Record Env : Type := mkEnv {
  (** [new Date()] in the run of [processFeedItems] for a feed, at the turn
      of the loop for the item at the given position (from 0) *)
  now : Feed.IFeed -> nat -> Z;
  (** the [src] attribute captured by the [img]-tag pattern of
      [extractImageUrl] in a text, when the pattern matches *)
  imgMatch : string -> option string;
  (** [article.save()] rejects (validation or the database) *)
  saveRaises : Article.IArticle -> bool;
  (** [parseFeed(feedUrl)]; [None] is the [null] of a failed fetch or parse *)
  parseFeed : string -> option ParsedFeed
}.

Definition Store : Type := list Article.IArticle.

Record Counts : Type := mkCounts {
  saved : nat;
  skipped : nat;
  errors : nat
}.

(** [hay.includes(needle)]. *)
Definition includes (hay needle : string) : bool :=
  match String.index 0 needle hay with
  | Some _ => true
  | None => false
  end.

(** A string operand of [||] or [?:]: absent and empty are falsy. *)
Definition truthy (o : option string) : option string :=
  match o with
  | Some EmptyString => None
  | other => other
  end.

(** [extractImageUrl(item)].  The item has no [mediaThumbnail], [image] or
    [videoId] property, so those three tests fall through. *)
Definition extractImageUrl (env : Env) (item : ParsedFeedItem) : option string :=
  let fromEnclosure :=
    match enclosure item with
    | Some e => if includes (enc_type e) "image" then Some (enc_url e) else None
    | None => None
    end in
  match fromEnclosure with
  | Some u => Some u
  | None =>
      let text :=
        match truthy (content item) with
        | Some c => c
        | None =>
            match truthy (description item) with
            | Some d => d
            | None => EmptyString
            end
        end in
      imgMatch env text
  end.

(** [determineContentType(feed, item)]; the item has no [videoId] or
    [channelId]. *)
Definition determineContentType (feed : Feed.IFeed) (item : ParsedFeedItem)
  : Article.ContentType :=
  if match Feed.feedUrl feed with
     | Some u => includes u "youtube.com"
     | None => false
     end
  then Article.video
  else if includes (link item) "youtube.com" || includes (link item) "youtu.be"
  then Article.video
  else Article.article.

(** The filter of [Article.findOne({ $or: [...] })].  Mongoose casts the
    filter by the schema: [title] has [trim: true], so the title of the
    item is trimmed before it is compared; [url] and [originalUrl] have no
    setter. *)
Definition existingQuery (feedDoc : Feed.IFeed) (item : ParsedFeedItem)
           (a : Article.IArticle) : bool :=
  String.eqb (Article.url a) (link item)
  || String.eqb (Article.originalUrl a) (link item)
  || (String.eqb (Article.title a) (JsString.trim (title item))
      && String.eqb (Article.feedId a) (Feed._id feedDoc)).

(** [findOne(filter)]: the first document of the collection that passes. *)
Definition findOne (filter : Article.IArticle -> bool) (store : Store)
  : option Article.IArticle :=
  find filter store.

(** The setter of a path with [trim: true], on a value that may be absent. *)
Definition trimmed (o : option string) : option string :=
  option_map JsString.trim o.

(** [new Article({ ... })] at the turn for position [k]: the schema trims
    [title], [description], [content], [feedTitle], [category], [author]
    and [imageUrl]. *)
Definition newArticle (env : Env) (feedDoc : Feed.IFeed) (k : nat)
           (item : ParsedFeedItem) : Article.IArticle :=
  {| Article.title := JsString.trim (title item);
     Article.description := trimmed (description item);
     Article.content := trimmed (content item);
     Article.url := link item;
     Article.originalUrl := link item;
     Article.contentType := determineContentType feedDoc item;
     Article.feedId := Feed._id feedDoc;
     Article.feedTitle := JsString.trim (Feed.title feedDoc);
     Article.category := JsString.trim (Feed.category feedDoc);
     Article.author := trimmed (author item);
     Article.publishedAt :=
       match truthy (pubDate item) with
       | Some text => Article.DateOf text
       | None => Article.DateAt (now env feedDoc k)
       end;
     Article.imageUrl := trimmed (extractImageUrl env item);
     Article.likes := 0;
     Article.dislikes := 0;
     Article.views := 0;
     Article.ranking := 0;
     Article.isActive := true |}.

(** One turn of the [for] loop of [processFeedItems], with its [try]; [k]
    is the position of [item] in the feed. *)
Definition processItem (env : Env) (feedDoc : Feed.IFeed) (k : nat)
           (st : Store * Counts) (item : ParsedFeedItem) : Store * Counts :=
  let '(store, c) := st in
  match findOne (existingQuery feedDoc item) store with
  | Some existingArticle =>
      (store, {| saved := saved c; skipped := S (skipped c); errors := errors c |})
  | None =>
      let article := newArticle env feedDoc k item in
      if saveRaises env article then
        (store, {| saved := saved c; skipped := skipped c; errors := S (errors c) |})
      else
        (store ++ [article],
         {| saved := S (saved c); skipped := skipped c; errors := errors c |})
  end.

(** The loop over the items from position [k] on. *)
Fixpoint processItems (env : Env) (feedDoc : Feed.IFeed) (k : nat)
         (l : list ParsedFeedItem) (st : Store * Counts) : Store * Counts :=
  match l with
  | [] => st
  | item :: rest =>
      processItems env feedDoc (S k) rest (processItem env feedDoc k st item)
  end.

(** [let saved = 0; let skipped = 0; let errors = 0;] *)
Definition zero : Counts := {| saved := 0; skipped := 0; errors := 0 |}.

Definition processFeedItems (env : Env) (feedDoc : Feed.IFeed)
           (parsedFeed : ParsedFeed) (store : Store) : Store * Counts :=
  processItems env feedDoc 0 (items parsedFeed) (store, zero).

(** The same feed with other items. *)
Definition withItems (parsedFeed : ParsedFeed) (l : list ParsedFeedItem) : ParsedFeed :=
  {| feed_title := feed_title parsedFeed;
     feed_description := feed_description parsedFeed;
     feed_link := feed_link parsedFeed;
     items := l |}.

(** Counters added field by field, as [processAllFeeds] adds a result to
    its totals. *)
Definition plus (a b : Counts) : Counts :=
  {| saved := saved a + saved b;
     skipped := skipped a + skipped b;
     errors := errors a + errors b |}.

(** *** [processAllFeeds]

    The database connection is taken to be up, so the [catch] of the
    per-feed [try] (status ['error']) is not entered; the write of the
    feed's last-fetch fields does not enter the returned value. *)
Inductive Status : Type := failed | success.

Record FeedResult : Type := mkFeedResult {
  feedId : string;
  feedTitle : string;
  status : Status;
  error : option string;
  counts : option Counts
}.

Record Totals : Type := mkTotals {
  totalProcessed : nat;
  totalSaved : nat;
  totalSkipped : nat;
  totalErrors : nat;
  feedResults : list FeedResult
}.

Definition processFeed (env : Env) (st : Store * Totals) (feed : Feed.IFeed)
  : Store * Totals :=
  let '(store, t) := st in
  match parseFeed env (Feed.url feed) with
  | None =>
      (store,
       {| totalProcessed := totalProcessed t;
          totalSaved := totalSaved t;
          totalSkipped := totalSkipped t;
          totalErrors := totalErrors t;
          feedResults :=
            feedResults t ++
            [{| feedId := Feed._id feed; feedTitle := Feed.title feed;
                status := failed; error := Some "Failed to parse feed"%string;
                counts := None |}] |})
  | Some parsedFeed =>
      let '(store', result) := processFeedItems env feed parsedFeed store in
      (store',
       {| totalProcessed := totalProcessed t;
          totalSaved := totalSaved t + saved result;
          totalSkipped := totalSkipped t + skipped result;
          totalErrors := totalErrors t + errors result;
          feedResults :=
            feedResults t ++
            [{| feedId := Feed._id feed; feedTitle := Feed.title feed;
                status := success; error := None;
                counts := Some result |}] |})
  end.

Definition processAllFeeds (env : Env) (allFeeds : list Feed.IFeed) (store : Store)
  : Store * Totals :=
  let feeds := filter Feed.isActive allFeeds in
  fold_left (processFeed env) feeds
            (store,
             {| totalProcessed := List.length feeds;
                totalSaved := 0; totalSkipped := 0; totalErrors := 0;
                feedResults := [] |}).

End RssParser.

(** ** The specification's wording, for comparison with the code

    These two definitions follow the text of the specification, not the
    sources: the documented external score of the hub scenario, and the
    Deduplicator's ordered identity rules. *)

Module Documented.

Local Open Scope R_scope.

Definition log10 (x : R) : R := ln x / ln 10.

(** [min(log10(1e6+1)/log10(1e7+1)*70,70) + min(500/1000*20,20) + 10]. *)
Definition externalScoreOfScenario : R :=
  Rmin (log10 (1000000 + 1) / log10 (10000000 + 1) * 70) 70
  + Rmin (500 / 1000 * 20) 20 + 10.

End Documented.

Module SpecDeduplicator.

(** The identity keys of a normalized item or of a stored record. *)
Record Identity : Type := mkIdentity {
  canonicalUrl : string;
  externalId : option string;
  sourceKind : Article.ContentType;
  title : string;
  author : option string
}.

Definition kindEqb (a b : Article.ContentType) : bool :=
  match a, b with
  | Article.article, Article.article => true
  | Article.video, Article.video => true
  | _, _ => false
  end.

Definition optEqb (a b : option string) : bool :=
  match a, b with
  | Some x, Some y => String.eqb x y
  | None, None => true
  | _, _ => false
  end.

(** Rule (1): canonical URL equality. *)
Definition rule1 (i r : Identity) : bool :=
  String.eqb (canonicalUrl i) (canonicalUrl r).

(** Rule (2): externalId and source-kind equality. *)
Definition rule2 (i r : Identity) : bool :=
  match externalId i, externalId r with
  | Some x, Some y => String.eqb x y && kindEqb (sourceKind i) (sourceKind r)
  | _, _ => false
  end.

(** Rule (3): the composite of title, author and source kind. *)
Definition rule3 (i r : Identity) : bool :=
  String.eqb (title i) (title r) && optEqb (author i) (author r)
  && kindEqb (sourceKind i) (sourceKind r).

Fixpoint firstIndex (p : Identity -> bool) (stored : list Identity) (k : nat)
  : option nat :=
  match stored with
  | [] => None
  | r :: rest => if p r then Some k else firstIndex p rest (S k)
  end.

(** [match(existingId)] or [new]: the first rule that matches wins. *)
Definition resolve (i : Identity) (stored : list Identity) : option nat :=
  match firstIndex (rule1 i) stored 0 with
  | Some k => Some k
  | None =>
      match firstIndex (rule2 i) stored 0 with
      | Some k => Some k
      | None => firstIndex (rule3 i) stored 0
      end
  end.

(** The identity keys a feed item carries. *)
Definition identityOf (feedDoc : Feed.IFeed) (item : RssParser.ParsedFeedItem)
  : Identity :=
  {| canonicalUrl := RssParser.link item;
     externalId := RssParser.guid item;
     sourceKind := RssParser.determineContentType feedDoc item;
     title := RssParser.title item;
     author := RssParser.author item |}.

End SpecDeduplicator.

(** ** Concrete runs *)

Module Scenario.

Import RssParser.

(** An AI-model document; [stale] fills the two derived score fields. *)
Definition sampleModel (hf votes rating stale : Q) : AIModel.IAIModel :=
  {| AIModel.huggingFaceId := "org/model";
     AIModel.downloads := 1000000; AIModel.likes := 500;
     AIModel.trending := true;
     AIModel.huggingFaceScore := hf;
     AIModel.userVotes := votes; AIModel.userRating := rating;
     AIModel.userScore := stale; AIModel.finalScore := stale |}.

Definition sourceA : Feed.IFeed :=
  {| Feed._id := "feedA"; Feed.title := "Source A";
     Feed.url := "https://a.example/rss"; Feed.category := "ai";
     Feed.isActive := true; Feed.feedUrl := None |}.

Definition entry (u t : string) (by_ : option string) : ParsedFeedItem :=
  {| title := t; description := None; content := Some EmptyString;
     link := u; pubDate := None; author := by_; guid := Some u;
     contentSnippet := None; enclosure := None |}.

Definition feedOf (l : list ParsedFeedItem) : ParsedFeed :=
  {| feed_title := "Source A"; feed_description := None;
     feed_link := None; items := l |}.

(** No image pattern matches and every save succeeds. *)
Definition quiet : Env :=
  {| now := fun _ _ => 1700000000000%Z;
     imgMatch := fun _ => None;
     saveRaises := fun _ => false;
     parseFeed := fun _ => None |}.

(** The save of the document with URL [u] rejects; [parseFeed] yields [l]. *)
Definition rejecting (u : string) (l : list ParsedFeedItem) : Env :=
  {| now := fun _ _ => 1700000000000%Z;
     imgMatch := fun _ => None;
     saveRaises := fun a => String.eqb (Article.url a) u;
     parseFeed := fun _ => Some (feedOf l) |}.

Definition firstSync : list ParsedFeedItem :=
  [entry "U1" "one" None; entry "U2" "two" None; entry "U3" "three" None].

Definition secondSync : list ParsedFeedItem :=
  [entry "U1" "one" None; entry "U2" "two, edited" None; entry "U4" "four" None].

Definition afterFirstSync : Store :=
  fst (processFeedItems quiet sourceA (feedOf firstSync) []).

Definition tenItems : list ParsedFeedItem :=
  [entry "U1" "t1" None; entry "U2" "t2" None; entry "U3" "t3" None;
   entry "U4" "t4" None; entry "U5" "t5" None; entry "U6" "t6" None;
   entry "U7" "t7" None; entry "U8" "t8" None; entry "U9" "t9" None;
   entry "U10" "t10" None].

(** Same title and feed, different URL, author and guid. *)
Definition byAlice : ParsedFeedItem := entry "https://a.example/1" "Weekly" (Some "alice"%string).
Definition byBob : ParsedFeedItem := entry "https://a.example/2" "Weekly" (Some "bob"%string).

(** Same guid, different URL and title. *)
Definition moved : ParsedFeedItem :=
  {| title := "Weekly (moved)"; description := None; content := Some EmptyString;
     link := "https://a.example/1-moved"; pubDate := None;
     author := Some "alice"%string; guid := Some "https://a.example/1"%string;
     contentSnippet := None; enclosure := None |}.

End Scenario.

(** ** The HuggingFace hub utilities: rate limit, response cache, request *)

Module HubClient.

(** [RATE_LIMIT]: [requests] and [window] stay as written; [current] and
    [resetTime] are assigned by [checkRateLimit].  Times are milliseconds. *)
Definition requests : Z := 100.
Definition window : Z := 60 * 1000.

Record RateLimit : Type := mkRateLimit {
  current : Z;
  resetTime : Z
}.

(** [checkRateLimit()], at clock reading [now]. *)
Definition checkRateLimit (now : Z) (rl : RateLimit) : bool * RateLimit :=
  let rl1 :=
    if (now >? resetTime rl)%Z
    then {| current := 0; resetTime := (now + window)%Z |}
    else rl in
  if (current rl1 >=? requests)%Z then (false, rl1)
  else (true, {| current := (current rl1 + 1)%Z; resetTime := resetTime rl1 |}).

(** A run of calls at the given clock readings: the answers, in order, and
    the limiter afterwards. *)
Fixpoint checkAll (times : list Z) (rl : RateLimit) : list bool * RateLimit :=
  match times with
  | [] => ([], rl)
  | now :: rest =>
      let '(ok, rl1) := checkRateLimit now rl in
      let '(oks, rl2) := checkAll rest rl1 in
      (ok :: oks, rl2)
  end.

(** *** The response cache: [Map<string, { data, expires }>] *)

Definition CACHE_TTL : Z := 30 * 60 * 1000.

Record Cached : Type := mkCached {
  data : Serialize.value;
  expires : Z
}.

Definition Cache : Type := list (string * Cached).

(** [cache.get(key)]. *)
Fixpoint get (cache : Cache) (key : string) : option Cached :=
  match cache with
  | [] => None
  | (k, c) :: rest => if String.eqb k key then Some c else get rest key
  end.

(** [cache.set(key, c)]: a key that is present keeps its place. *)
Fixpoint set (cache : Cache) (key : string) (c : Cached) : Cache :=
  match cache with
  | [] => [(key, c)]
  | (k, old) :: rest =>
      if String.eqb k key then (k, c) :: rest else (k, old) :: set rest key c
  end.

(** [cache.delete(key)]. *)
Fixpoint delete (cache : Cache) (key : string) : Cache :=
  match cache with
  | [] => []
  | (k, c) :: rest =>
      if String.eqb k key then rest else (k, c) :: delete rest key
  end.

(** A cache as [set] and [delete] build it: no key twice. *)
Definition wellFormed (cache : Cache) : Prop := NoDup (map fst cache).

(** [getCachedData(key)], at clock reading [now]; [VNull] is the [null]. *)
Definition getCachedData (now : Z) (key : string) (cache : Cache)
  : Serialize.value * Cache :=
  match get cache key with
  | Some cached =>
      if (expires cached >? now)%Z then (data cached, cache)
      else (Serialize.VNull, delete cache key)
  | None => (Serialize.VNull, cache)
  end.

(** [setCachedData(key, data)], at clock reading [now]. *)
Definition setCachedData (now : Z) (key : string) (d : Serialize.value)
           (cache : Cache) : Cache :=
  set cache key {| data := d; expires := (now + CACHE_TTL)%Z |}.

(** *** [makeHuggingFaceRequest] *)

(** The operand of [if (cached)]: what JavaScript takes for true. *)
Definition truthyValue (v : Serialize.value) : bool :=
  match v with
  | Serialize.VNull | Serialize.VUndefined => false
  | Serialize.VString s => negb (String.eqb s EmptyString)
  | Serialize.VNumber n => negb (Qeq_bool n 0)
  | Serialize.VBoolean b => b
  | _ => true
  end.

(** What [fetch] and [response.json()] come to. *)
Inductive Response : Type :=
| Ok (json : Serialize.value)
| NotOk (status : Z) (errorText : string)
| Rejected (reason : string).

(** The error a call throws. *)
Inductive Failure : Type :=
| RateLimitExceeded
| KeyNotConfigured
| ApiError (status : Z) (errorText : string)
| RequestFailed (reason : string).

Inductive Outcome : Type :=
| Returned (json : Serialize.value)
| Thrown (e : Failure).

(** What one call takes from outside: the API key of the process
    environment, the three readings of [Date.now()] (limiter, cache lookup,
    cache store) and the network's answer to the endpoint and the options. *)
Record Env : Type := mkEnv {
  apiKey : option string;
  atCheck : Z;
  atLookup : Z;
  atStore : Z;
  fetch : string -> string -> Response
}.

Definition State : Type := (RateLimit * Cache)%type.

(** The cache key: the endpoint, a colon, [JSON.stringify(options)]. *)
Definition cacheKeyOf (endpoint optionsJson : string) : string :=
  (endpoint ++ ":" ++ optionsJson)%string.

Definition makeHuggingFaceRequest (env : Env) (endpoint optionsJson : string)
           (st : State) : Outcome * State :=
  let '(rl, cache) := st in
  let '(ok, rl1) := checkRateLimit (atCheck env) rl in
  if negb ok then (Thrown RateLimitExceeded, (rl1, cache))
  else
    match RssParser.truthy (apiKey env) with
    | None => (Thrown KeyNotConfigured, (rl1, cache))
    | Some _ =>
        let cacheKey := cacheKeyOf endpoint optionsJson in
        let '(cached, cache1) := getCachedData (atLookup env) cacheKey cache in
        if truthyValue cached then (Returned cached, (rl1, cache1))
        else
          match fetch env endpoint optionsJson with
          | Ok json =>
              (Returned json, (rl1, setCachedData (atStore env) cacheKey json cache1))
          | NotOk status errorText =>
              (Thrown (ApiError status errorText), (rl1, cache1))
          | Rejected reason => (Thrown (RequestFailed reason), (rl1, cache1))
          end
    end.

(** *** [getModelStats] and [calculateModelSize] *)

Record HuggingFaceModelDetails : Type := mkDetails {
  d_id : string;
  d_downloads : Q;
  d_likes : Q
}.

Record ModelStats : Type := mkStats {
  s_downloads : Q;
  s_likes : Q;
  s_trending : bool;
  score : Q
}.

(** [getModelStats(modelId)], from what [getModelDetails(modelId)] came to:
    [None] when it threw. *)
Definition getModelStats (details : option HuggingFaceModelDetails) : ModelStats :=
  match details with
  | Some model =>
      let maxDownloads : Q := 10000000 in
      let downloadScore := Js.Math_min ((d_downloads model / maxDownloads) * 70) 70 in
      let likeScore := Js.Math_min ((d_likes model / 1000) * 20) 20 in
      let trendingBonus : Q := if Js.gtb (d_downloads model) 100000 then 10 else 0 in
      {| s_downloads := d_downloads model;
         s_likes := d_likes model;
         s_trending := Js.gtb trendingBonus 0;
         score := downloadScore + likeScore + trendingBonus |}
  | None =>
      {| s_downloads := 0; s_likes := 0; s_trending := false; score := 0 |}
  end.

Record Sibling : Type := mkSibling {
  filename : string;
  size : option Q
}.

(** [file.size || 0]. *)
Definition sizeOrZero (file : Sibling) : Q :=
  match size file with
  | Some n => Js.or_zero n
  | None => 0
  end.

(** [calculateModelSize(siblings)]. *)
Definition calculateModelSize (siblings : option (list Sibling)) : Q :=
  match siblings with
  | None | Some [] => 0
  | Some files => fold_left (fun total file => total + sizeOrZero file) files 0
  end.

End HubClient.

(** ** models/GitHubRepository: the trending score and the pre-save hook *)

Module GitHubTrending.

(** The paths of a repository document that the two score methods and the
    score part of the pre-save hook read or assign.  [pushedAt] is the
    [getTime()] of the date, when there is one. *)
Record IGitHubRepository : Type := mkRepository {
  stargazersCount : Q;
  forksCount : Q;
  openIssuesCount : Q;
  pushedAt : option Q;
  topics : list string;
  dailyStars : Q;
  userScore : Q;
  trendingScore : Q;
  finalScore : Q;
  trending : bool
}.

Definition aiTopics : list string :=
  ["ai"; "ml"; "machine-learning"; "deep-learning"; "neural-network";
   "computer-vision"; "nlp"; "data-science"; "tensorflow"; "pytorch"]%string.

(** [this.topics.filter(topic => aiTopics.some(aiTopic => topic.includes(aiTopic)))]. *)
Definition matchingTopics (this : IGitHubRepository) : list string :=
  filter (fun topic => existsb (fun aiTopic => RssParser.includes topic aiTopic) aiTopics)
         (topics this).

(** [calculateTrendingScore()].  [log10] stands for [Math.log10] and [now]
    for [Date.now()]. *)
Definition calculateTrendingScore (log10 : Q -> Q) (now : Q)
           (this : IGitHubRepository) : Q :=
  let starsWeight : Q := 0.4 in
  let forksWeight : Q := 0.2 in
  let issuesWeight : Q := 0.15 in
  let recentActivityWeight : Q := 0.15 in
  let topicsWeight : Q := 0.1 in
  let normalizedStars := Js.Math_min (log10 (stargazersCount this + 1) * 10) 40 in
  let normalizedForks := Js.Math_min (log10 (forksCount this + 1) * 5) 20 in
  let issuesScore := Js.Math_max (15 - (openIssuesCount this / 10)) 0 in
  let daysSinceLastPush :=
    match pushedAt this with
    | Some t => (now - t) / (1000 * 60 * 60 * 24)
    | None => 365
    end in
  let activityScore := Js.Math_max (15 - (daysSinceLastPush / 7)) 0 in
  let topicsScore :=
    inject_Z (Z.of_nat (List.length (matchingTopics this))) * 2 in
  let score :=
    (normalizedStars * starsWeight)
    + (normalizedForks * forksWeight)
    + (issuesScore * issuesWeight)
    + (activityScore * recentActivityWeight)
    + (topicsScore * topicsWeight) in
  Js.Math_min (Js.Math_round score) 100.

(** [calculateFinalScore()], with its own call of [calculateTrendingScore()]. *)
Definition calculateFinalScore (log10 : Q -> Q) (now : Q)
           (this : IGitHubRepository) : Q :=
  GitHubRepository.calculateFinalScore
    (calculateTrendingScore log10 now this) (userScore this).

(** The scores and the trending flag as the pre-save hook assigns them;
    [now1] and [now2] are the clock readings of the two score calls. *)
Definition pre_save (log10 : Q -> Q) (now1 now2 : Q)
           (this : IGitHubRepository) : IGitHubRepository :=
  let trendingScore' := calculateTrendingScore log10 now1 this in
  let finalScore' := calculateFinalScore log10 now2 this in
  {| stargazersCount := stargazersCount this;
     forksCount := forksCount this;
     openIssuesCount := openIssuesCount this;
     pushedAt := pushedAt this;
     topics := topics this;
     dailyStars := dailyStars this;
     userScore := userScore this;
     trendingScore := trendingScore';
     finalScore := finalScore';
     trending := Js.geb trendingScore' 70 || Js.geb (dailyStars this) 10 |}.

(** The whole number of decimal digits of [x] less one: a floor of
    [Math.log10] on numbers from 1 up, used to run the methods. *)
Fixpoint digitsBelow (fuel : nat) (z : Z) : Z :=
  match fuel with
  | O => 0
  | S k => if (z <? 10)%Z then 0 else (1 + digitsBelow k (z / 10))%Z
  end.

Definition log10Floor (x : Q) : Q :=
  inject_Z (digitsBelow (Z.to_nat (Qfloor x)) (Qfloor x)).

(** A repository with many stars, pushed a day ago, with three topics. *)
Definition sampleRepository : IGitHubRepository :=
  {| stargazersCount := 120000; forksCount := 9000; openIssuesCount := 40;
     pushedAt := Some 1699913600000;
     topics := ["machine-learning"; "pytorch"; "python"]%string;
     dailyStars := 3; userScore := 80;
     trendingScore := 0; finalScore := 0; trending := false |}.

End GitHubTrending.

(** ** Shapes of serialized data *)

Module SerializeShape.

Import Serialize.

(** [JSONValue]: [null], strings, numbers, booleans, arrays and objects of
    such, at every depth. *)
Fixpoint isJson (v : value) : bool :=
  match v with
  | VNull | VString _ | VNumber _ | VBoolean _ => true
  | VUndefined | VFunction _ | VDate _ | VObjectId _ => false
  | VArray items => forallb isJson items
  | VObject entries =>
      forallb (fun kv : string * value => let '(_, val) := kv in isJson val) entries
  end.

(** Some object inside [v], at any depth, has one of the [keys]. *)
Fixpoint hasKey (keys : list string) (v : value) : bool :=
  match v with
  | VArray items => existsb (hasKey keys) items
  | VObject entries =>
      existsb (fun kv : string * value =>
                 let '(key, val) := kv in includes keys key || hasKey keys val)
              entries
  | _ => false
  end.

End SerializeShape.

(** ** utils/rss-parser: content extraction and [parseFeed] *)

Module FeedParsing.

Import JsString.

(** Some [>] occurs in [s]. *)
Fixpoint hasClose (s : string) : bool :=
  match s with
  | EmptyString => false
  | String c r => Ascii.eqb c ">"%char || hasClose r
  end.

(** Some [<] occurs in [s]. *)
Fixpoint hasOpen (s : string) : bool :=
  match s with
  | EmptyString => false
  | String c r => Ascii.eqb c "<"%char || hasOpen r
  end.

(** The replacement of every match of the tag pattern by nothing, reading
    from left to right: a [<] that some [>] follows opens a match, which
    runs to the first [>]; [inTag] tells whether a match is open. *)
Fixpoint stripFrom (inTag : bool) (s : string) : string :=
  match s with
  | EmptyString => EmptyString
  | String c r =>
      if inTag then
        if Ascii.eqb c ">"%char then stripFrom false r else stripFrom true r
      else if Ascii.eqb c "<"%char && hasClose r then stripFrom true r
      else String c (stripFrom false r)
  end.

Definition stripTags (s : string) : string := stripFrom false s.

(** No [<] of [s] is followed, anywhere later, by a [>]: [s] cannot be cut
    as [a ++ "<" ++ b ++ ">" ++ c]. *)
Definition NoTag (s : string) : Prop :=
  forall a b c : string, s <> (a ++ "<" ++ b ++ ">" ++ c)%string.

Fixpoint tagFree (s : string) : bool :=
  match s with
  | EmptyString => true
  | String c r =>
      (if Ascii.eqb c "<"%char then negb (hasClose r) else true) && tagFree r
  end.

(** An item as the feed library hands it over; a property that is absent or
    not a string is [None]. *)
Record RawItem : Type := mkRawItem {
  title : option string;
  description : option string;
  content : option string;
  contentEncoded : option string;
  contentSnippet : option string;
  summary : option string;
  link : option string;
  pubDate : option string;
  isoDate : option string;
  author : option string;
  creator : option string;
  guid : option string
}.

Record RawFeed : Type := mkRawFeed {
  f_title : option string;
  f_description : option string;
  f_link : option string;
  f_items : list RawItem
}.

(** [extractContent(item)]. *)
Definition extractContent (item : RawItem) : string :=
  let contentSources :=
    [content item; contentEncoded item; contentSnippet item;
     description item; summary item] in
  match find (fun source => match RssParser.truthy source with
                            | Some _ => true
                            | None => false
                            end) contentSources with
  | Some (Some source) => trim (stripTags source)
  | _ => EmptyString
  end.

(** [a || b] on two optional strings. *)
Definition orElse (a b : option string) : option string :=
  match RssParser.truthy a with
  | Some s => Some s
  | None => b
  end.

Definition orDefault (a : option string) (b : string) : string :=
  match RssParser.truthy a with
  | Some s => s
  | None => b
  end.

(** The mapping of one item in [parseFeed]. *)
Definition parseItem (item : RawItem) : RssParser.ParsedFeedItem :=
  {| RssParser.title := orDefault (title item) "Untitled";
     RssParser.description := description item;
     RssParser.content := Some (extractContent item);
     RssParser.link := orDefault (link item) EmptyString;
     RssParser.pubDate := orElse (pubDate item) (isoDate item);
     RssParser.author := orElse (author item) (creator item);
     RssParser.guid := orElse (guid item) (link item);
     RssParser.contentSnippet := contentSnippet item;
     RssParser.enclosure := None |}.

(** [parseFeed(feedUrl)], from what [rssParser.parseURL(feedUrl)] came to:
    [None] when it threw. *)
Definition parseFeed (fetched : option RawFeed) : option RssParser.ParsedFeed :=
  match fetched with
  | Some feed =>
      Some {| RssParser.feed_title := orDefault (f_title feed) "Unknown Feed";
              RssParser.feed_description := f_description feed;
              RssParser.feed_link := f_link feed;
              RssParser.items := map parseItem (f_items feed) |}
  | None => None
  end.

(** An item whose only text is a description with markup. *)
Definition sampleRawItem : RawItem :=
  {| title := None; description := Some "  <p>Hello <b>world</b></p> a < b "%string;
     content := None; contentEncoded := None; contentSnippet := Some EmptyString;
     summary := None; link := Some "https://a.example/1"%string;
     pubDate := None; isoDate := Some "2025-09-26T00:00:00.000Z"%string;
     author := None; creator := Some "alice"%string; guid := None |}.

End FeedParsing.

(** ** Reading the results of [processAllFeeds] *)

Module FeedTotals.

Import RssParser.

(** The counters a feed's entry carries; an entry of a feed that could not
    be parsed carries none. *)
Definition countsOf (r : FeedResult) : Counts :=
  match counts r with
  | Some c => c
  | None => zero
  end.

Definition total (field : Counts -> nat) (results : list FeedResult) : nat :=
  list_sum (map (fun r => field (countsOf r)) results).

End FeedTotals.

(** ** The articles route *)

Module ArticlesRoute.

Import Pagination.

(** [page] and [limit] are results of [parseInt], integers (a text that is
    no number gives [NaN], which the model does not cover); [totalCount] is
    the integer [countDocuments] returns. *)
Definition skip (page limit : Z) : Z := (page - 1) * limit.

(** [Article.find(filter).sort(sortCriteria).skip(skip).limit(limit)], run
    on [matching], the documents that pass the filter in the order of the
    sort: the first [limit] documents after the first [skip].  It is the
    query's result for a page of at least 1 and a limit of at least 1
    (the database rejects a negative skip and reads a limit of 0 as no
    limit). *)
Definition pageOf {A : Type} (page limit : Z) (matching : list A) : list A :=
  firstn (Z.to_nat limit) (skipn (Z.to_nat (skip page limit)) matching).

(** The [pagination] object of the reply. *)
Definition pagination (page limit totalCount : Z) : PaginationMeta :=
  let totalPages := Js.Math_ceil (inject_Z totalCount / inject_Z limit) in
  {| currentPage := inject_Z page;
     totalPages := totalPages;
     totalCount := inject_Z totalCount;
     limit := inject_Z limit;
     hasNext := Js.ltb (inject_Z page) totalPages;
     hasPrev := Js.gtb (inject_Z page) 1 |}.

(** [GET]: the page of documents (each is mapped, one for one, to its
    printed form, which the model leaves out) and the pagination object;
    both queries see the same collection. *)
Definition GET {A : Type} (page limit : Z) (matching : list A)
  : list A * PaginationMeta :=
  (pageOf page limit matching,
   pagination page limit (Z.of_nat (List.length matching))).

End ArticlesRoute.

(** ** models/Article: engagement *)

Module ArticleMethods.

Import Article.

Definition withEngagement (likes' dislikes' views' ranking' : Q) (this : IArticle)
  : IArticle :=
  {| title := title this;
     description := description this;
     content := content this;
     url := url this;
     originalUrl := originalUrl this;
     contentType := contentType this;
     feedId := feedId this;
     feedTitle := feedTitle this;
     category := category this;
     author := author this;
     publishedAt := publishedAt this;
     imageUrl := imageUrl this;
     likes := likes';
     dislikes := dislikes';
     views := views';
     ranking := ranking';
     isActive := isActive this |}.

(** The virtual [engagementScore]. *)
Definition engagementScore (this : IArticle) : Q :=
  let likesWeight := likes this * 2 in
  let dislikesWeight := dislikes this * -1 in
  let viewsWeight := views this * 0.1 in
  likesWeight + dislikesWeight + viewsWeight.

(** The virtual [likeRatio]. *)
Definition likeRatio (this : IArticle) : Q :=
  let total := likes this + dislikes this in
  if Js.gtb total 0 then (likes this / total) * 100 else 0.

(** [incrementViews()]; the schema has no save hook, so [save] stores the
    document as it is. *)
Definition incrementViews (this : IArticle) : IArticle :=
  withEngagement (likes this) (dislikes this) (views this + 1) (ranking this) this.

Inductive EngagementType : Type := like | dislike.

(** [addEngagement(type)]. *)
Definition addEngagement (type : EngagementType) (this : IArticle) : IArticle :=
  let counted :=
    match type with
    | like => withEngagement (likes this + 1) (dislikes this) (views this)
                (ranking this) this
    | dislike => withEngagement (likes this) (dislikes this + 1) (views this)
                   (ranking this) this
    end in
  withEngagement (likes counted) (dislikes counted) (views counted)
    (engagementScore counted) counted.

(** [n] calls of [incrementViews()]. *)
Fixpoint viewed (n : nat) (this : IArticle) : IArticle :=
  match n with
  | O => this
  | S k => viewed k (incrementViews this)
  end.

End ArticleMethods.
(** * Properties *)

Ltac qlra := Lqa.lra.
Ltac rlra := Lra.lra.

(** ** JavaScript arithmetic *)

Section JsFacts.

Lemma ltb_lt (a b : Q) : Js.ltb a b = true <-> a < b.
Proof.
  unfold Js.ltb. rewrite negb_true_iff.
  split; intro H.
  - apply Qnot_le_lt. intro Hle. apply Qle_bool_iff in Hle. congruence.
  - destruct (Qle_bool b a) eqn:E; [|reflexivity].
    apply Qle_bool_iff in E. exfalso. exact (Qlt_not_le _ _ H E).
Qed.

Lemma gtb_gt (a b : Q) : Js.gtb a b = true <-> b < a.
Proof. unfold Js.gtb. apply ltb_lt. Qed.

Lemma or_zero_id (x : Q) : Js.or_zero x == x.
Proof.
  unfold Js.or_zero. destruct (Qeq_bool x 0) eqn:E; [|reflexivity].
  apply Qeq_bool_iff in E. symmetry. exact E.
Qed.

Lemma Math_round_mono (x y : Q) : x <= y -> Js.Math_round x <= Js.Math_round y.
Proof.
  intro H. unfold Js.Math_round. rewrite <- Zle_Qle.
  apply Qfloor_resp_le. qlra.
Qed.

Lemma Math_round_int (z : Z) : Js.Math_round (inject_Z z) == inject_Z z.
Proof.
  unfold Js.Math_round.
  assert (H1 : inject_Z (Qfloor (inject_Z z + 0.5)) <= inject_Z z + 0.5)
    by apply Qfloor_le.
  assert (H2 : inject_Z z + 0.5 < inject_Z (Qfloor (inject_Z z + 0.5) + 1))
    by apply Qlt_floor.
  rewrite inject_Z_plus in H2.
  assert (E : Qfloor (inject_Z z + 0.5) = z).
  { assert (A : (Qfloor (inject_Z z + 0.5) <= z)%Z).
    { apply Z.lt_succ_r. rewrite Zlt_Qlt. unfold Z.succ.
      rewrite inject_Z_plus. change (inject_Z 1) with 1. qlra. }
    assert (B : (z <= Qfloor (inject_Z z + 0.5))%Z).
    { apply Z.lt_succ_r. rewrite Zlt_Qlt. unfold Z.succ.
      rewrite inject_Z_plus. change (inject_Z 1) with 1 in *. qlra. }
    lia. }
  rewrite E. reflexivity.
Qed.

(** [Math.round] is within one half of its argument. *)
Lemma Math_round_near (x : Q) :
  x - 0.5 < Js.Math_round x /\ Js.Math_round x <= x + 0.5.
Proof.
  unfold Js.Math_round. split.
  - pose proof (Qlt_floor (x + 0.5)) as H.
    rewrite inject_Z_plus in H. change (inject_Z 1) with 1 in H. qlra.
  - apply Qfloor_le.
Qed.

Example Math_round_halves :
  Js.Math_round (5 # 2) == 3 /\ Js.Math_round (- (5 # 2)) == -2
  /\ Js.Math_round 0.85 == 1 /\ Js.Math_round 0.49 == 0.
Proof. repeat split. Qed.

End JsFacts.

(** ** binary64 rounding *)

Section DoubleFacts.

Import Js.

Lemma pow2_pos (e : Z) : 0 < pow2 e.
Proof. apply Qpower_0_lt. reflexivity. Qed.

Lemma pow2_add (a b : Z) : pow2 (a + b) == pow2 a * pow2 b.
Proof. apply Qpower_plus. discriminate. Qed.

Lemma pow2_le (a b : Z) : (a <= b)%Z -> pow2 a <= pow2 b.
Proof. intro H. apply Qpower_le_compat_l; [exact H | discriminate]. Qed.

Lemma pow2_lt_inv (a b : Z) : pow2 a < pow2 b -> (a < b)%Z.
Proof. intro H. eapply Qpower_lt_compat_l_inv; [exact H | reflexivity]. Qed.

Lemma pow2_int (e : Z) : (0 <= e)%Z -> pow2 e == inject_Z (2 ^ e).
Proof. intro H. symmetry. apply (Zpower_Qpower 2 e H). Qed.

(** [ilog2 x] is the exponent of the binade of a positive [x]. *)
Lemma ilog2_spec (x : Q) :
  0 < x -> pow2 (ilog2 x) <= x /\ x < pow2 (ilog2 x + 1).
Proof.
  intro Hx. unfold ilog2. destruct (Qle_bool 1 x) eqn:E.
  - apply Qle_bool_iff in E.
    assert (F1 : (1 <= Qfloor x)%Z).
    { rewrite <- (Qfloor_Z 1). apply Qfloor_resp_le. exact E. }
    destruct (Z.log2_spec (Qfloor x)) as [A B]; [lia|].
    pose proof (Z.log2_nonneg (Qfloor x)) as N.
    split.
    + rewrite pow2_int by exact N.
      eapply Qle_trans; [|apply Qfloor_le]. rewrite <- Zle_Qle. exact A.
    + rewrite pow2_int by lia.
      eapply Qlt_le_trans; [apply Qlt_floor|]. rewrite <- Zle_Qle.
      unfold Z.succ in B. lia.
  - assert (L : x < 1).
    { apply Qnot_le_lt. intro C. apply Qle_bool_iff in C. congruence. }
    assert (N0 : ~ x == 0) by (intro C; rewrite C in Hx; exact (Qlt_irrefl _ Hx)).
    assert (I : 1 < / x).
    { apply Qlt_shift_inv_l; [exact Hx|]. rewrite Qmult_1_l. exact L. }
    set (c := Qceiling (/ x)).
    assert (C2 : (1 < c)%Z).
    { rewrite Zlt_Qlt. eapply Qlt_le_trans; [exact I | apply Qle_ceiling]. }
    destruct (Z.log2_up_spec c C2) as [A B].
    pose proof (Z.log2_up_nonneg c) as N.
    assert (K1 : (1 <= Z.log2_up c)%Z).
    { destruct (Z_lt_le_dec (Z.log2_up c) 1) as [Y|Y]; [|exact Y].
      assert (Z.log2_up c = 0)%Z as Z0 by lia. rewrite Z0 in B. cbn in B. lia. }
    assert (Ix : 0 < / x) by (apply Qinv_lt_0_compat; exact Hx).
    assert (U : / x <= pow2 (Z.log2_up c)).
    { rewrite pow2_int by exact N.
      eapply Qle_trans; [apply Qle_ceiling|]. rewrite <- Zle_Qle. exact B. }
    assert (D : pow2 (Z.pred (Z.log2_up c)) < / x).
    { rewrite pow2_int by lia.
      eapply Qle_lt_trans; [|apply Qceiling_lt]. rewrite <- Zle_Qle. fold c. lia. }
    assert (Px := pow2_pos (Z.log2_up c)).
    assert (Pp := pow2_pos (Z.pred (Z.log2_up c))).
    assert (One : x * / x == 1) by (apply Qmult_inv_r; exact N0).
    split.
    + unfold pow2. rewrite Qpower_opp. fold (pow2 (Z.log2_up c)).
      apply Qle_shift_inv_r; [exact Px|].
      rewrite <- One. apply Qmult_le_l; assumption.
    + replace (- Z.log2_up c + 1)%Z with (- Z.pred (Z.log2_up c))%Z by lia.
      unfold pow2. rewrite Qpower_opp. fold (pow2 (Z.pred (Z.log2_up c))).
      apply Qlt_shift_inv_l; [exact Pp|].
      rewrite <- One. apply Qmult_lt_l; assumption.
Qed.

Lemma ilog2_comp (x y : Q) : x == y -> ilog2 x = ilog2 y.
Proof.
  intro E. unfold ilog2.
  assert (B : Qle_bool 1 x = Qle_bool 1 y).
  { destruct (Qle_bool 1 x) eqn:E1; destruct (Qle_bool 1 y) eqn:E2; try reflexivity.
    - apply Qle_bool_iff in E1. rewrite E in E1. apply Qle_bool_iff in E1. congruence.
    - apply Qle_bool_iff in E2. rewrite <- E in E2. apply Qle_bool_iff in E2.
      congruence. }
  rewrite B. destruct (Qle_bool 1 y).
  - f_equal. apply Qfloor_comp. exact E.
  - f_equal. f_equal. apply Qceiling_comp. rewrite E. reflexivity.
Qed.

Lemma ilog2_mono (x y : Q) : 0 < x -> x <= y -> (ilog2 x <= ilog2 y)%Z.
Proof.
  intros Hx Hxy.
  assert (Hy : 0 < y) by (eapply Qlt_le_trans; eassumption).
  destruct (ilog2_spec x Hx) as [A _]. destruct (ilog2_spec y Hy) as [_ B].
  assert (L : pow2 (ilog2 x) < pow2 (ilog2 y + 1)).
  { eapply Qle_lt_trans; [exact A|]. eapply Qle_lt_trans; eassumption. }
  apply pow2_lt_inv in L. lia.
Qed.

Lemma roundHalfEven_cases (m : Q) :
  (roundHalfEven m = Qfloor m /\ m - inject_Z (Qfloor m) <= 1 # 2)
  \/ (roundHalfEven m = (Qfloor m + 1)%Z /\ 1 # 2 <= m - inject_Z (Qfloor m)).
Proof.
  unfold roundHalfEven.
  destruct (Qcompare (m - inject_Z (Qfloor m)) (1 # 2)) eqn:C.
  - apply Qeq_alt in C.
    destruct (Z.even (Qfloor m)); [left | right]; (split; [reflexivity|]);
      rewrite C; apply Qle_refl.
  - apply Qlt_alt in C. left. split; [reflexivity | apply Qlt_le_weak; exact C].
  - apply Qgt_alt in C. right. split; [reflexivity | apply Qlt_le_weak; exact C].
Qed.

Lemma roundHalfEven_comp (m n : Q) : m == n -> roundHalfEven m = roundHalfEven n.
Proof.
  intro E. unfold roundHalfEven.
  rewrite (Qfloor_comp m n E).
  assert (C : Qcompare (m - inject_Z (Qfloor n)) (1 # 2)
              = Qcompare (n - inject_Z (Qfloor n)) (1 # 2))
    by (rewrite E; reflexivity).
  rewrite C. reflexivity.
Qed.

Lemma roundHalfEven_int (n : Z) : roundHalfEven (inject_Z n) = n.
Proof.
  unfold roundHalfEven. rewrite Qfloor_Z.
  assert (C : Qcompare (inject_Z n - inject_Z n) (1 # 2) = Lt).
  { apply Qlt_alt. setoid_replace (inject_Z n - inject_Z n) with 0 by ring.
    reflexivity. }
  rewrite C. reflexivity.
Qed.

Lemma roundHalfEven_mono (m n : Q) : m <= n -> (roundHalfEven m <= roundHalfEven n)%Z.
Proof.
  intro H. pose proof (Qfloor_resp_le m n H) as F.
  destruct (Z.eq_dec (Qfloor m) (Qfloor n)) as [E|N].
  - unfold roundHalfEven. rewrite E.
    destruct (Qcompare (m - inject_Z (Qfloor n)) (1 # 2)) eqn:C1;
      destruct (Qcompare (n - inject_Z (Qfloor n)) (1 # 2)) eqn:C2;
      try (destruct (Z.even (Qfloor n)); lia); try lia; exfalso;
      repeat match goal with
             | C : Qcompare _ _ = Eq |- _ => apply Qeq_alt in C
             | C : Qcompare _ _ = Lt |- _ => apply Qlt_alt in C
             | C : Qcompare _ _ = Gt |- _ => apply Qgt_alt in C
             end;
      generalize dependent (inject_Z (Qfloor n)); intros; qlra.
  - destruct (roundHalfEven_cases m) as [[-> _]|[-> _]];
      destruct (roundHalfEven_cases n) as [[-> _]|[-> _]]; lia.
Qed.

Lemma roundHalfEven_near (m : Q) :
  m - (1 # 2) <= inject_Z (roundHalfEven m) <= m + (1 # 2).
Proof.
  pose proof (Qfloor_le m) as A. pose proof (Qlt_floor m) as B.
  rewrite inject_Z_plus in B. change (inject_Z 1) with 1 in B.
  destruct (roundHalfEven_cases m) as [[-> H]|[-> H]].
  - generalize dependent (inject_Z (Qfloor m)); intros; split; qlra.
  - rewrite inject_Z_plus. change (inject_Z 1) with 1.
    generalize dependent (inject_Z (Qfloor m)); intros; split; qlra.
Qed.

Lemma quantum_comp (x y : Q) : x == y -> quantum x = quantum y.
Proof. intro E. unfold quantum. rewrite (ilog2_comp x y E). reflexivity. Qed.

Lemma nearest_comp (x y : Q) : x == y -> nearest x == nearest y.
Proof.
  intro E. unfold nearest.
  assert (B : Qle_bool x 0 = Qle_bool y 0).
  { destruct (Qle_bool x 0) eqn:E1; destruct (Qle_bool y 0) eqn:E2; try reflexivity.
    - apply Qle_bool_iff in E1. rewrite E in E1. apply Qle_bool_iff in E1. congruence.
    - apply Qle_bool_iff in E2. rewrite <- E in E2. apply Qle_bool_iff in E2.
      congruence. }
  rewrite B. destruct (Qle_bool y 0); [reflexivity|].
  rewrite (quantum_comp x y E).
  rewrite (roundHalfEven_comp (x / pow2 (quantum y)) (y / pow2 (quantum y)))
    by (rewrite E; reflexivity).
  reflexivity.
Qed.

Lemma double_comp (x y : Q) : x == y -> double x == double y.
Proof.
  intro E. unfold double.
  assert (B : Qle_bool 0 x = Qle_bool 0 y).
  { destruct (Qle_bool 0 x) eqn:E1; destruct (Qle_bool 0 y) eqn:E2; try reflexivity.
    - apply Qle_bool_iff in E1. rewrite E in E1. apply Qle_bool_iff in E1. congruence.
    - apply Qle_bool_iff in E2. rewrite <- E in E2. apply Qle_bool_iff in E2.
      congruence. }
  rewrite B. destruct (Qle_bool 0 y).
  - apply nearest_comp. exact E.
  - rewrite (nearest_comp (- x) (- y)) by (rewrite E; reflexivity). reflexivity.
Qed.

Lemma nearest_nonneg (x : Q) : 0 <= nearest x.
Proof.
  unfold nearest. destruct (Qle_bool x 0) eqn:E; [apply Qle_refl|].
  assert (Hx : 0 < x).
  { apply Qnot_le_lt. intro C. apply Qle_bool_iff in C. congruence. }
  pose proof (pow2_pos (quantum x)) as P.
  apply Qmult_le_0_compat; [|apply Qlt_le_weak; exact P].
  change 0 with (inject_Z 0). rewrite <- Zle_Qle.
  rewrite <- (roundHalfEven_int 0). apply roundHalfEven_mono.
  change (inject_Z 0) with 0. apply Qle_shift_div_l; [exact P|]. qlra.
Qed.

(** What [nearest] returns for a positive number at its own quantum. *)
Lemma nearest_pos (x : Q) :
  0 < x ->
  nearest x == inject_Z (roundHalfEven (x / pow2 (quantum x))) * pow2 (quantum x).
Proof.
  intro Hx. unfold nearest. destruct (Qle_bool x 0) eqn:E; [|reflexivity].
  apply Qle_bool_iff in E. exfalso. qlra.
Qed.

(** A power of two at or above the quantum bounds the rounded values on
    both sides. *)
Lemma grid_le (x : Q) (q e : Z) :
  (q <= e)%Z -> x <= pow2 e ->
  inject_Z (roundHalfEven (x / pow2 q)) * pow2 q <= pow2 e.
Proof.
  intros Hq Hx. pose proof (pow2_pos q) as P.
  assert (E : pow2 e == inject_Z (2 ^ (e - q)) * pow2 q).
  { rewrite <- pow2_int by lia. rewrite <- pow2_add. apply Qpower_comp; [reflexivity|].
    lia. }
  rewrite E. apply Qmult_le_compat_r; [|apply Qlt_le_weak; exact P].
  rewrite <- Zle_Qle. rewrite <- (roundHalfEven_int (2 ^ (e - q))).
  apply roundHalfEven_mono. apply Qle_shift_div_r; [exact P|].
  rewrite <- E. exact Hx.
Qed.

Lemma grid_ge (y : Q) (q e : Z) :
  (q <= e)%Z -> pow2 e <= y ->
  pow2 e <= inject_Z (roundHalfEven (y / pow2 q)) * pow2 q.
Proof.
  intros Hq Hy. pose proof (pow2_pos q) as P.
  assert (E : pow2 e == inject_Z (2 ^ (e - q)) * pow2 q).
  { rewrite <- pow2_int by lia. rewrite <- pow2_add. apply Qpower_comp; [reflexivity|].
    lia. }
  rewrite E at 1. apply Qmult_le_compat_r; [|apply Qlt_le_weak; exact P].
  rewrite <- Zle_Qle. rewrite <- (roundHalfEven_int (2 ^ (e - q))) at 1.
  apply roundHalfEven_mono. apply Qle_shift_div_l; [exact P|].
  rewrite <- E. exact Hy.
Qed.

Lemma nearest_mono (x y : Q) : x <= y -> nearest x <= nearest y.
Proof.
  intro H.
  destruct (Qlt_le_dec 0 x) as [Hx|Hx].
  2:{ unfold nearest at 1. apply Qle_bool_iff in Hx. rewrite Hx.
      apply nearest_nonneg. }
  assert (Hy : 0 < y) by (eapply Qlt_le_trans; eassumption).
  rewrite (nearest_pos x Hx), (nearest_pos y Hy).
  pose proof (ilog2_mono x y Hx H) as M.
  destruct (ilog2_spec x Hx) as [_ Bx]. destruct (ilog2_spec y Hy) as [Ay _].
  destruct (Z.eq_dec (quantum x) (quantum y)) as [E|N].
  - rewrite E. pose proof (pow2_pos (quantum y)) as P.
    apply Qmult_le_compat_r; [|apply Qlt_le_weak; exact P].
    rewrite <- Zle_Qle. apply roundHalfEven_mono.
    apply Qmult_le_compat_r; [exact H|].
    apply Qlt_le_weak. apply Qinv_lt_0_compat. exact P.
  - assert (Q1 : (quantum x < quantum y)%Z) by (unfold quantum in *; lia).
    assert (Q2 : quantum y = (ilog2 y - 52)%Z) by (unfold quantum in *; lia).
    assert (Q3 : (ilog2 x + 1 <= ilog2 y)%Z) by (unfold quantum in *; lia).
    apply Qle_trans with (pow2 (ilog2 y)).
    + apply grid_le; [unfold quantum in *; lia|].
      apply Qlt_le_weak. eapply Qlt_le_trans; [exact Bx|]. apply pow2_le. exact Q3.
    + apply grid_ge; [lia | exact Ay].
Qed.

Lemma double_mono (x y : Q) : x <= y -> double x <= double y.
Proof.
  intro H. unfold double.
  destruct (Qle_bool 0 x) eqn:Ex; destruct (Qle_bool 0 y) eqn:Ey.
  - apply nearest_mono. exact H.
  - apply Qle_bool_iff in Ex.
    assert (C : 0 <= y) by (eapply Qle_trans; eassumption).
    apply Qle_bool_iff in C. congruence.
  - pose proof (nearest_nonneg (- x)). pose proof (nearest_nonneg y). qlra.
  - assert (M : nearest (- y) <= nearest (- x)) by (apply nearest_mono; qlra).
    qlra.
Qed.

Lemma double_nonneg (x : Q) : 0 <= x -> 0 <= double x.
Proof.
  intro H. unfold double. apply Qle_bool_iff in H. rewrite H.
  apply nearest_nonneg.
Qed.

(** Rounding moves a number by at most half its quantum. *)
Lemma nearest_near (x : Q) :
  0 < x ->
  x - pow2 (quantum x) * (1 # 2) <= nearest x <= x + pow2 (quantum x) * (1 # 2).
Proof.
  intro Hx. rewrite (nearest_pos x Hx).
  pose proof (pow2_pos (quantum x)) as P.
  destruct (roundHalfEven_near (x / pow2 (quantum x))) as [A B].
  assert (E : x == x / pow2 (quantum x) * pow2 (quantum x)).
  { field. intro C. rewrite C in P. exact (Qlt_irrefl _ P). }
  set (m := x / pow2 (quantum x)) in *. set (p := pow2 (quantum x)) in *.
  set (r := inject_Z (roundHalfEven m)) in *.
  assert (A' : (m - (1 # 2)) * p <= r * p)
    by (apply Qmult_le_compat_r; [exact A | apply Qlt_le_weak; exact P]).
  assert (B' : r * p <= (m + (1 # 2)) * p)
    by (apply Qmult_le_compat_r; [exact B | apply Qlt_le_weak; exact P]).
  clearbody m p r. split; qlra.
Qed.

(** Up to 128 the quantum is at most [2^-45]. *)
Lemma double_near_128 (x : Q) :
  0 <= x <= 128 ->
  x - pow2 (-46) <= double x <= x + pow2 (-46).
Proof.
  intros [H0 H1]. unfold double.
  apply Qle_bool_iff in H0. rewrite H0. apply Qle_bool_iff in H0.
  assert (P46 : 0 < pow2 (-46)) by apply pow2_pos.
  destruct (Qlt_le_dec 0 x) as [Hx|Hx].
  2:{ unfold nearest. apply Qle_bool_iff in Hx. rewrite Hx.
      apply Qle_bool_iff in Hx. split; qlra. }
  destruct (nearest_near x Hx) as [A B].
  assert (Qm : (quantum x <= -45)%Z).
  { destruct (ilog2_spec x Hx) as [L _].
    assert (L2 : pow2 (ilog2 x) < pow2 8).
    { eapply Qle_lt_trans; [exact L|]. eapply Qle_lt_trans; [exact H1|].
      reflexivity. }
    apply pow2_lt_inv in L2. unfold quantum. lia. }
  assert (Hp : pow2 (quantum x) * (1 # 2) <= pow2 (-46)).
  { apply pow2_le in Qm.
    assert (E : pow2 (-46) == pow2 (-45) * (1 # 2)) by reflexivity.
    rewrite E. qlra. }
  split; qlra.
Qed.

End DoubleFacts.

(** ** The hub adapter's score *)

Section HubScore.

Import HuggingFace.

Lemma downloads_scaled (d : Q) : d / maxDownloads * 70 == d * (7 # 1000000).
Proof. unfold maxDownloads. field. Qed.

Lemma likes_scaled (l : Q) : l / 1000 * 20 == l * (1 # 50).
Proof. field. Qed.

Lemma downloadScore_linear (hf : HuggingFaceModel) :
  downloads hf <= maxDownloads ->
  downloadScore hf == downloads hf * (7 # 1000000).
Proof.
  intro H. unfold downloadScore, Js.Math_min.
  rewrite downloads_scaled. unfold maxDownloads in H.
  apply Q.min_l. qlra.
Qed.

Lemma downloadScore_capped (hf : HuggingFaceModel) :
  maxDownloads <= downloads hf -> downloadScore hf == 70.
Proof.
  intro H. unfold downloadScore, Js.Math_min.
  rewrite downloads_scaled. unfold maxDownloads in H.
  apply Q.min_r. qlra.
Qed.

Lemma downloadScore_range (hf : HuggingFaceModel) :
  0 <= downloads hf -> 0 <= downloadScore hf <= 70.
Proof.
  intro H. unfold downloadScore, Js.Math_min. rewrite downloads_scaled. split.
  - apply Q.min_glb; qlra.
  - apply Q.le_min_r.
Qed.

Lemma likeScore_range (hf : HuggingFaceModel) :
  0 <= likes hf -> 0 <= likeScore hf <= 20.
Proof.
  intro H. unfold likeScore, Js.Math_min. rewrite likes_scaled. split.
  - apply Q.min_glb; qlra.
  - apply Q.le_min_r.
Qed.

Lemma trendingBonus_range (hf : HuggingFaceModel) : 0 <= trendingBonus hf <= 10.
Proof. unfold trendingBonus. destruct (trending hf); split; qlra. Qed.

(** The documented value of the scenario exceeds 45: the logarithm ratio
    is above one half, since [1e7 + 1 < (1e6 + 1)^2]. *)
Lemma documented_score_large : (45 < Documented.externalScoreOfScenario)%R.
Proof.
  unfold Documented.externalScoreOfScenario, Documented.log10.
  assert (L10 : (0 < ln 10)%R).
  { rewrite <- ln_1. apply ln_increasing; rlra. }
  assert (La : (0 < ln (1000000 + 1))%R).
  { rewrite <- ln_1. apply ln_increasing; rlra. }
  assert (Lb : (ln (10000000 + 1) < 2 * ln (1000000 + 1))%R).
  { replace (2 * ln (1000000 + 1))%R
      with (ln ((1000000 + 1) * (1000000 + 1)))%R
      by (rewrite ln_mult; rlra).
    apply ln_increasing; rlra. }
  assert (Lc : (0 < ln (10000000 + 1))%R).
  { rewrite <- ln_1. apply ln_increasing; rlra. }
  set (a := ln (1000000 + 1)) in *.
  set (b := ln (10000000 + 1)) in *.
  assert (E : (a / ln 10 / (b / ln 10) = a / b)%R) by (field; rlra).
  rewrite E.
  assert (Hr : (1 / 2 < a / b)%R).
  { apply Rmult_lt_reg_r with (r := b); [exact Lc|].
    replace (a / b * b)%R with a by (field; rlra). rlra. }
  assert (H1 : (35 < Rmin (a / b * 70) 70)%R).
  { apply Rmin_glb_lt; rlra. }
  assert (H2 : (Rmin (500 / 1000 * 20) 20 = 500 / 1000 * 20)%R).
  { apply Rmin_left. rlra. }
  rewrite H2. rlra.
Qed.

End HubScore.

Section HubScoreClaims.

Import HuggingFace.

(** C1, as stated, fails: in the documented scenario the adapter's score
    is not the value of the documented logarithmic formula.  The adapter
    returns 27; the formula's value is above 45. *)
Lemma hub_score_not_logarithmic :
  Q2R (huggingFaceScore (transformHuggingFaceModel scenarioModel))
  <> Documented.externalScoreOfScenario.
Proof.
  assert (E : huggingFaceScore (transformHuggingFaceModel scenarioModel) == 27)
    by reflexivity.
  rewrite (Qeq_eqR _ _ E).
  pose proof documented_score_large as H.
  intro C. rewrite <- C in H.
  unfold Q2R in H. simpl in H. rlra.
Qed.

(** C1, amended: the adapter scales the download count linearly against
    the 10,000,000 reference and caps the share at 70, adds the like count
    scaled linearly against 1,000 and capped at 20, and adds 10 when the
    item is trending; the scenario (1,000,000 downloads, 500 likes,
    trending) scores 7 + 10 + 10 = 27, and with non-negative metrics the
    score stays within [0,100]. *)
Theorem hub_score_linear_capped :
  huggingFaceScore (transformHuggingFaceModel scenarioModel) == 27
  /\ forall hf : HuggingFaceModel,
      huggingFaceScore (transformHuggingFaceModel hf)
      == Js.Math_min (downloads hf / 10000000 * 70) 70
         + Js.Math_min (likes hf / 1000 * 20) 20
         + (if trending hf then 10 else 0)
      /\ (downloads hf <= 10000000 ->
          downloadScore hf == downloads hf * (7 # 1000000))
      /\ (10000000 <= downloads hf -> downloadScore hf == 70)
      /\ (0 <= downloads hf -> 0 <= likes hf ->
          0 <= huggingFaceScore (transformHuggingFaceModel hf) <= 100).
Proof.
  split; [reflexivity|].
  intro hf. split; [reflexivity|].
  split; [apply downloadScore_linear|].
  split; [apply downloadScore_capped|].
  intros Hd Hl. cbn [transformHuggingFaceModel huggingFaceScore].
  pose proof (downloadScore_range hf Hd).
  pose proof (likeScore_range hf Hl).
  pose proof (trendingBonus_range hf).
  split; qlra.
Qed.

Lemma hub_score_linear_capped_witness :
  downloadScore scenarioModel == 1000000 * (7 # 1000000)
  /\ 0 <= huggingFaceScore (transformHuggingFaceModel scenarioModel) <= 100.
Proof.
  destruct hub_score_linear_capped as [_ H].
  destruct (H scenarioModel) as (_ & Hlin & _ & Hrange).
  split.
  - apply Hlin. vm_compute. discriminate.
  - apply Hrange; vm_compute; discriminate.
Defined.

End HubScoreClaims.

(** ** The blended final score *)

Section FinalScore.

Lemma rating_scaled (r : Q) : r / 5 * 80 == r * 16.
Proof. field. Qed.

Lemma votes_scaled (v : Q) : v / 100 * 20 == v * (1 # 5).
Proof. field. Qed.

(** The hook's user score is a percentage when the rating is on the
    five-star scale. *)
Lemma pre_save_userScore_range (m : AIModel.IAIModel) :
  0 <= AIModel.userRating m <= 5 ->
  0 <= AIModel.userScore (AIModel.pre_save m) <= 100.
Proof.
  intros [H0 H5]. cbn [AIModel.pre_save AIModel.userScore].
  destruct (Js.gtb (AIModel.userVotes m) 0) eqn:E; [|split; qlra].
  apply gtb_gt in E.
  unfold Js.Math_min. rewrite rating_scaled, votes_scaled.
  assert (A : 0 <= Qmin (AIModel.userVotes m * (1 # 5)) 20)
    by (apply Q.min_glb; qlra).
  pose proof (Q.le_min_r (AIModel.userVotes m * (1 # 5)) 20) as B.
  split; qlra.
Qed.

Lemma pre_save_finalScore (m : AIModel.IAIModel) :
  AIModel.finalScore (AIModel.pre_save m)
  == AIModel.huggingFaceScore (AIModel.pre_save m) * 0.85
     + AIModel.userScore (AIModel.pre_save m) * 0.15.
Proof. reflexivity. Qed.

(** The two weights, as the binary64 numbers they are. *)
Lemma weights_double :
  GitHubRepository.githubWeight == 7656119366529843 # 9007199254740992
  /\ GitHubRepository.userWeight == 5404319552844595 # 36028797018963968.
Proof. split; vm_compute; reflexivity. Qed.

Lemma Math_round_comp (x y : Q) : x == y -> Js.Math_round x == Js.Math_round y.
Proof.
  intro E. unfold Js.Math_round. apply inject_Z_injective. apply Qfloor_comp.
  rewrite E. reflexivity.
Qed.

(** The blend as the engine computes it. *)
Lemma calculateFinalScore_round (g u : Q) :
  GitHubRepository.calculateFinalScore g u
  == Js.Math_round
       (Js.add (Js.mul g GitHubRepository.githubWeight)
               (Js.mul u GitHubRepository.userWeight)).
Proof.
  unfold GitHubRepository.calculateFinalScore.
  apply Math_round_comp. unfold Js.add, Js.mul. apply double_comp.
  assert (E : Js.double (Js.or_zero u * GitHubRepository.userWeight)
              == Js.double (u * GitHubRepository.userWeight)).
  { apply double_comp. rewrite (or_zero_id u). reflexivity. }
  rewrite E. reflexivity.
Qed.

Lemma blend_mono (g1 g2 u1 u2 : Q) :
  g1 <= g2 -> u1 <= u2 ->
  Js.add (Js.mul g1 GitHubRepository.githubWeight)
         (Js.mul u1 GitHubRepository.userWeight)
  <= Js.add (Js.mul g2 GitHubRepository.githubWeight)
            (Js.mul u2 GitHubRepository.userWeight).
Proof.
  intros Hg Hu. destruct weights_double as [W1 W2].
  unfold Js.add, Js.mul. apply double_mono.
  assert (A : Js.double (g1 * GitHubRepository.githubWeight)
              <= Js.double (g2 * GitHubRepository.githubWeight))
    by (apply double_mono; rewrite W1; qlra).
  assert (B : Js.double (u1 * GitHubRepository.userWeight)
              <= Js.double (u2 * GitHubRepository.userWeight))
    by (apply double_mono; rewrite W2; qlra).
  qlra.
Qed.

Lemma calculateFinalScore_mono (g1 g2 u1 u2 : Q) :
  g1 <= g2 -> u1 <= u2 ->
  GitHubRepository.calculateFinalScore g1 u1
  <= GitHubRepository.calculateFinalScore g2 u2.
Proof.
  intros Hg Hu. rewrite !calculateFinalScore_round.
  apply Math_round_mono. apply blend_mono; assumption.
Qed.

(** For scores in [0,100] the blend of the engine is within [2^-44] of the
    exact blend. *)
Lemma blend_near (g u : Q) :
  0 <= g <= 100 -> 0 <= u <= 100 ->
  g * 0.85 + u * 0.15 - Js.pow2 (-44)
  <= Js.add (Js.mul g GitHubRepository.githubWeight)
            (Js.mul u GitHubRepository.userWeight)
  <= g * 0.85 + u * 0.15 + Js.pow2 (-44).
Proof.
  intros Hg Hu. destruct weights_double as [W1 W2].
  assert (P46 : Js.pow2 (-46) == 1 # 70368744177664) by reflexivity.
  assert (P44 : Js.pow2 (-44) == 1 # 17592186044416) by reflexivity.
  unfold Js.add, Js.mul.
  assert (A : g * GitHubRepository.githubWeight - Js.pow2 (-46)
              <= Js.double (g * GitHubRepository.githubWeight)
              <= g * GitHubRepository.githubWeight + Js.pow2 (-46))
    by (apply double_near_128; rewrite W1; split; qlra).
  assert (B : u * GitHubRepository.userWeight - Js.pow2 (-46)
              <= Js.double (u * GitHubRepository.userWeight)
              <= u * GitHubRepository.userWeight + Js.pow2 (-46))
    by (apply double_near_128; rewrite W2; split; qlra).
  assert (A0 : 0 <= Js.double (g * GitHubRepository.githubWeight))
    by (apply double_nonneg; rewrite W1; qlra).
  assert (B0 : 0 <= Js.double (u * GitHubRepository.userWeight))
    by (apply double_nonneg; rewrite W2; qlra).
  set (a := Js.double (g * GitHubRepository.githubWeight)) in *.
  set (b := Js.double (u * GitHubRepository.userWeight)) in *.
  rewrite W1 in A. rewrite W2 in B. rewrite P46 in A, B.
  assert (C : a + b - Js.pow2 (-46) <= Js.double (a + b) <= a + b + Js.pow2 (-46))
    by (apply double_near_128; split; qlra).
  rewrite P46 in C. rewrite P44.
  clearbody a b. split; qlra.
Qed.

End FinalScore.

Section FinalScoreClaims.

(** C4, as stated, fails for repository items: with a trending score of 1
    and no user score the persisted final score is 1, not 0.85. *)
Lemma repository_final_score_rounded :
  let r := GitHubRepository.pre_save 1 1
             {| GitHubRepository.trendingScore := 0;
                GitHubRepository.userScore := 0;
                GitHubRepository.finalScore := 0 |} in
  ~ GitHubRepository.finalScore r
    == GitHubRepository.trendingScore r * 0.85
       + GitHubRepository.userScore r * 0.15.
Proof. vm_compute. discriminate. Qed.

(** C4, amended: each save of an AI-model item that passes validation
    assigns finalScore = huggingFaceScore * 0.85 + userScore * 0.15, from
    the external score as it stands and the user score the same hook has
    just recomputed from the votes and the rating, whatever was stored
    before; so do [updateUserRating] and [syncFromHuggingFace] when their
    save passes validation, and when it does not nothing is written.  The
    pre-save hook of a repository item assigns [Math.round] of the same
    blend as the engine computes it in binary64 from the trending score
    computed at that moment and the user score; for scores in [0,100] that
    is within 0.5 + 2^-44 of the exact blend, and it need not be the nearest
    integer of the exact blend: at trending score 1 and user score 31 the
    exact blend is 5.5 and the stored score is 5. *)
Theorem final_score_is_weighted_blend :
  (forall m : AIModel.IAIModel,
      AIModel.finalScore (AIModel.pre_save m)
      == AIModel.huggingFaceScore (AIModel.pre_save m) * 0.85
         + AIModel.userScore (AIModel.pre_save m) * 0.15
      /\ AIModel.huggingFaceScore (AIModel.pre_save m) = AIModel.huggingFaceScore m)
  /\ (forall m1 m2 : AIModel.IAIModel,
      AIModel.huggingFaceScore m1 = AIModel.huggingFaceScore m2 ->
      AIModel.userVotes m1 = AIModel.userVotes m2 ->
      AIModel.userRating m1 = AIModel.userRating m2 ->
      AIModel.finalScore (AIModel.pre_save m1)
      = AIModel.finalScore (AIModel.pre_save m2))
  /\ (forall (votes avg : Q) (m : AIModel.IAIModel),
      match AIModel.updateUserRating votes avg m with
      | Some m' =>
          AIModel.validate (AIModel.withUserRating votes avg m) = true
          /\ AIModel.finalScore m'
             == AIModel.huggingFaceScore m * 0.85 + AIModel.userScore m' * 0.15
      | None => AIModel.validate (AIModel.withUserRating votes avg m) = false
      end)
  /\ (forall (hfData : HuggingFace.Transformed) (m : AIModel.IAIModel),
      match AIModel.syncFromHuggingFace hfData m with
      | Some m' =>
          AIModel.validate (AIModel.withHuggingFace hfData m) = true
          /\ AIModel.finalScore m'
             == HuggingFace.huggingFaceScore hfData * 0.85
                + AIModel.userScore m' * 0.15
      | None => AIModel.validate (AIModel.withHuggingFace hfData m) = false
      end)
  /\ (forall (g : Q) (s : GitHubRepository.Scores),
      let r := GitHubRepository.pre_save g g s in
      let blend := GitHubRepository.trendingScore r * 0.85
                   + GitHubRepository.userScore r * 0.15 in
      GitHubRepository.finalScore r
      == Js.Math_round
           (Js.add (Js.mul (GitHubRepository.trendingScore r)
                           GitHubRepository.githubWeight)
                   (Js.mul (GitHubRepository.userScore r)
                           GitHubRepository.userWeight))
      /\ (0 <= g <= 100 -> 0 <= GitHubRepository.userScore s <= 100 ->
          blend - 0.5 - Js.pow2 (-44) < GitHubRepository.finalScore r
          /\ GitHubRepository.finalScore r <= blend + 0.5 + Js.pow2 (-44)))
  /\ (forall (g g' : Q) (s : GitHubRepository.Scores),
      GitHubRepository.finalScore (GitHubRepository.pre_save g g' s)
      == Js.Math_round
           (Js.add (Js.mul g' GitHubRepository.githubWeight)
                   (Js.mul (GitHubRepository.userScore s)
                           GitHubRepository.userWeight)))
  /\ (GitHubRepository.calculateFinalScore 1 31 == 5
      /\ 1 * 0.85 + 31 * 0.15 == 5.5
      /\ Js.Math_round 5.5 == 6).
Proof.
  split; [intro m; split; reflexivity|].
  split.
  { intros m1 m2 Hs Hv Hr.
    cbn [AIModel.pre_save AIModel.finalScore]. rewrite Hs, Hv, Hr. reflexivity. }
  split.
  { intros votes avg m. unfold AIModel.updateUserRating, AIModel.save.
    destruct (AIModel.validate (AIModel.withUserRating votes avg m));
      [split; reflexivity | reflexivity]. }
  split.
  { intros hfData m. unfold AIModel.syncFromHuggingFace, AIModel.save.
    destruct (AIModel.validate (AIModel.withHuggingFace hfData m));
      [|reflexivity].
    split; [reflexivity|].
    rewrite pre_save_finalScore.
    assert (E : AIModel.huggingFaceScore
                  (AIModel.pre_save (AIModel.withHuggingFace hfData m))
                == HuggingFace.huggingFaceScore hfData) by apply or_zero_id.
    rewrite E. reflexivity. }
  split.
  { intros g s. cbn zeta.
    cbn [GitHubRepository.pre_save GitHubRepository.finalScore
         GitHubRepository.trendingScore GitHubRepository.userScore].
    pose proof (calculateFinalScore_round g (GitHubRepository.userScore s)) as E.
    split; [exact E|].
    intros Hg Hu.
    destruct (blend_near g (GitHubRepository.userScore s) Hg Hu) as [A B].
    rewrite E.
    destruct (Math_round_near
                (Js.add (Js.mul g GitHubRepository.githubWeight)
                        (Js.mul (GitHubRepository.userScore s)
                                GitHubRepository.userWeight))) as [C D].
    split; qlra. }
  split; [intros g g' s; apply calculateFinalScore_round|].
  repeat split; vm_compute; reflexivity.
Qed.

Lemma final_score_is_weighted_blend_witness :
  AIModel.finalScore (AIModel.pre_save (Scenario.sampleModel 27 50 4 0))
  = AIModel.finalScore (AIModel.pre_save (Scenario.sampleModel 27 50 4 99)).
Proof.
  apply (proj1 (proj2 final_score_is_weighted_blend)); reflexivity.
Defined.

(** C5: with the external and the local score in [0,100] the final score
    is in [0,100], and it does not decrease when one of the two grows and
    the other is held; for the AI-model hook and for the repository's
    [calculateFinalScore] alike. *)
Theorem final_score_bounded_monotone :
  (forall m : AIModel.IAIModel,
      0 <= AIModel.huggingFaceScore m <= 100 ->
      0 <= AIModel.userScore (AIModel.pre_save m) <= 100 ->
      0 <= AIModel.finalScore (AIModel.pre_save m) <= 100)
  /\ (forall m1 m2 : AIModel.IAIModel,
      AIModel.huggingFaceScore m1 <= AIModel.huggingFaceScore m2 ->
      AIModel.userScore (AIModel.pre_save m1)
      == AIModel.userScore (AIModel.pre_save m2) ->
      AIModel.finalScore (AIModel.pre_save m1)
      <= AIModel.finalScore (AIModel.pre_save m2))
  /\ (forall m1 m2 : AIModel.IAIModel,
      AIModel.huggingFaceScore m1 == AIModel.huggingFaceScore m2 ->
      AIModel.userScore (AIModel.pre_save m1)
      <= AIModel.userScore (AIModel.pre_save m2) ->
      AIModel.finalScore (AIModel.pre_save m1)
      <= AIModel.finalScore (AIModel.pre_save m2))
  /\ (forall g u : Q,
      0 <= g <= 100 -> 0 <= u <= 100 ->
      0 <= GitHubRepository.calculateFinalScore g u <= 100)
  /\ (forall g1 g2 u : Q,
      g1 <= g2 ->
      GitHubRepository.calculateFinalScore g1 u
      <= GitHubRepository.calculateFinalScore g2 u)
  /\ (forall g u1 u2 : Q,
      u1 <= u2 ->
      GitHubRepository.calculateFinalScore g u1
      <= GitHubRepository.calculateFinalScore g u2).
Proof.
  split.
  { intros m He Hl. rewrite pre_save_finalScore.
    change (AIModel.huggingFaceScore (AIModel.pre_save m))
      with (AIModel.huggingFaceScore m).
    split; qlra. }
  split.
  { intros m1 m2 He Hl. rewrite !pre_save_finalScore.
    change (AIModel.huggingFaceScore (AIModel.pre_save m1))
      with (AIModel.huggingFaceScore m1).
    change (AIModel.huggingFaceScore (AIModel.pre_save m2))
      with (AIModel.huggingFaceScore m2).
    qlra. }
  split.
  { intros m1 m2 He Hl. rewrite !pre_save_finalScore.
    change (AIModel.huggingFaceScore (AIModel.pre_save m1))
      with (AIModel.huggingFaceScore m1).
    change (AIModel.huggingFaceScore (AIModel.pre_save m2))
      with (AIModel.huggingFaceScore m2).
    qlra. }
  split.
  { intros g u [Hg0 Hg1] [Hu0 Hu1].
    assert (E0 : GitHubRepository.calculateFinalScore 0 0 == 0)
      by (vm_compute; reflexivity).
    assert (E1 : GitHubRepository.calculateFinalScore 100 100 == 100)
      by (vm_compute; reflexivity).
    split.
    - rewrite <- E0. apply calculateFinalScore_mono; assumption.
    - rewrite <- E1. apply calculateFinalScore_mono; assumption. }
  split.
  { intros g1 g2 u H. apply calculateFinalScore_mono; [exact H | apply Qle_refl]. }
  intros g u1 u2 H. apply calculateFinalScore_mono; [apply Qle_refl | exact H].
Qed.

Lemma final_score_bounded_monotone_witness :
  0 <= AIModel.finalScore (AIModel.pre_save (Scenario.sampleModel 27 50 4 0)) <= 100
  /\ 0 <= GitHubRepository.calculateFinalScore 100 100 <= 100
  /\ GitHubRepository.calculateFinalScore 1 0
     <= GitHubRepository.calculateFinalScore 2 0.
Proof.
  destruct final_score_bounded_monotone as (Hb & _ & _ & Hg & Hm & _).
  split; [|split].
  - apply Hb; vm_compute; split; discriminate.
  - apply Hg; vm_compute; split; discriminate.
  - apply Hm. vm_compute. discriminate.
Defined.

End FinalScoreClaims.

(** ** Sync health of a source *)

Section SyncHealth.

Import XAccount.

Lemma save_keeps_health (a : IXAccount) :
  isEnabled (save a) = isEnabled a
  /\ syncErrorCount (save a) = syncErrorCount a
  /\ lastSyncError (save a) = lastSyncError a
  /\ lastSyncAt (save a) = lastSyncAt a.
Proof.
  unfold save, pre_save.
  destruct (validate a); [destruct (Js.startsWith_at (handle a))|]; repeat split.
Qed.

(** A handle that passes the [match] validator has no leading [@], so the
    hook, when it runs, finds nothing to remove: [save] leaves the document
    in memory as the method has assigned it. *)
Lemma save_in_memory (a : IXAccount) : save a = a.
Proof.
  unfold save. destruct (validate a) eqn:V; [|reflexivity].
  unfold pre_save. destruct (handle a) as [|c r] eqn:H; [reflexivity|].
  cbn [Js.startsWith_at]. destruct (Ascii.eqb c "@") eqn:E; [|reflexivity].
  apply Ascii.eqb_eq in E. subst c.
  unfold validate in V. rewrite H in V. cbn in V. discriminate.
Qed.

Lemma markSyncError_count (e : string) (a : IXAccount) :
  syncErrorCount (markSyncError e a) = (syncErrorCount a + 1)%Z.
Proof.
  unfold markSyncError.
  rewrite (proj1 (proj2 (save_keeps_health _))). reflexivity.
Qed.

Lemma markSyncError_enabled (e : string) (a : IXAccount) :
  isEnabled (markSyncError e a)
  = if (syncErrorCount a + 1 >=? 5)%Z then false else isEnabled a.
Proof.
  unfold markSyncError. rewrite (proj1 (save_keeps_health _)). reflexivity.
Qed.

Lemma markSyncSuccess_count (now : Z) (a : IXAccount) :
  syncErrorCount (markSyncSuccess now a) = 0%Z.
Proof.
  unfold markSyncSuccess.
  rewrite (proj1 (proj2 (save_keeps_health _))). reflexivity.
Qed.

(** The counter never becomes negative. *)
Lemma recordRuns_count_nonneg (rs : list SyncRun) (a : IXAccount) :
  (0 <= syncErrorCount a)%Z -> (0 <= syncErrorCount (recordRuns a rs))%Z.
Proof.
  revert a. induction rs as [|r rs IH]; intros a H; [exact H|].
  unfold recordRuns in *. cbn [fold_left]. apply IH.
  destruct r as [now|e]; cbn [recordRun].
  - rewrite markSyncSuccess_count. lia.
  - rewrite markSyncError_count. lia.
Qed.

(** A streak of failures: the counter grows by its length, and the account
    is disabled once the counter is 5 or more. *)
Lemma failure_streak (fails : list SyncRun) (a : IXAccount) :
  forallb isFailed fails = true ->
  syncErrorCount (recordRuns a fails)
  = (syncErrorCount a + Z.of_nat (List.length fails))%Z
  /\ (fails <> [] -> (5 <= syncErrorCount (recordRuns a fails))%Z ->
      isEnabled (recordRuns a fails) = false).
Proof.
  revert a. induction fails as [|r rs IH]; intros a Hall.
  - split; [cbn; lia | intro C; contradiction].
  - cbn [forallb] in Hall. apply andb_true_iff in Hall as [Hr Hrs].
    destruct r as [now|e]; [discriminate|].
    unfold recordRuns in *. cbn [fold_left recordRun].
    destruct (IH (markSyncError e a) Hrs) as [Hc Hd].
    split.
    + rewrite Hc, markSyncError_count. cbn [List.length]. lia.
    + intros _ H5. destruct rs as [|r' rs'].
      * cbn [fold_left] in *. rewrite markSyncError_enabled.
        rewrite markSyncError_count in H5.
        destruct (syncErrorCount a + 1 >=? 5)%Z eqn:E; [reflexivity|lia].
      * apply Hd; [discriminate | exact H5].
Qed.

Lemma recordRuns_app (a : IXAccount) (pre post : list SyncRun) :
  recordRuns a (pre ++ post) = recordRuns (recordRuns a pre) post.
Proof. unfold recordRuns. apply fold_left_app. Qed.

(** C7: a failed run adds one to the counter and records the error, and
    once the counter has reached 5 the account is disabled; so after any
    five or more consecutive failed runs the account is disabled; a
    succeeded run puts the counter back to 0 and clears the last error,
    leaving the enabled flag as it was. *)
Theorem sync_health_invariant (a : IXAccount) :
  (forall e : string,
      syncErrorCount (markSyncError e a) = (syncErrorCount a + 1)%Z
      /\ lastSyncError (markSyncError e a) = Some e
      /\ ((5 <= syncErrorCount (markSyncError e a))%Z ->
          isEnabled (markSyncError e a) = false))
  /\ (forall pre fails : list SyncRun,
      (0 <= syncErrorCount a)%Z ->
      forallb isFailed fails = true ->
      (5 <= List.length fails)%nat ->
      isEnabled (recordRuns a (pre ++ fails)) = false)
  /\ (forall now : Z,
      syncErrorCount (markSyncSuccess now a) = 0%Z
      /\ lastSyncError (markSyncSuccess now a) = None
      /\ isEnabled (markSyncSuccess now a) = isEnabled a).
Proof.
  split; [|split].
  - intro e. split; [apply markSyncError_count|]. split.
    + unfold markSyncError.
      rewrite (proj1 (proj2 (proj2 (save_keeps_health _)))). reflexivity.
    + rewrite markSyncError_count, markSyncError_enabled. intro H.
      destruct (syncErrorCount a + 1 >=? 5)%Z eqn:E; [reflexivity|lia].
  - intros pre fails H0 Hall Hlen. rewrite recordRuns_app.
    pose proof (recordRuns_count_nonneg pre a H0) as Hpre.
    destruct (failure_streak fails (recordRuns a pre) Hall) as [Hc Hd].
    apply Hd.
    + intro E. rewrite E in Hlen. cbn in Hlen. lia.
    + rewrite Hc. lia.
  - intro now. split; [apply markSyncSuccess_count|]. unfold markSyncSuccess.
    split.
    + rewrite (proj1 (proj2 (proj2 (save_keeps_health _)))). reflexivity.
    + rewrite (proj1 (save_keeps_health _)). reflexivity.
Qed.

Lemma sync_health_invariant_witness :
  isEnabled
    (recordRuns (createXAccount "@lab")
       ([Failed "timeout"; Succeeded 1700000000000]
        ++ [Failed "e1"; Failed "e2"; Failed "e3"; Failed "e4"; Failed "e5"]))
  = false.
Proof.
  apply (proj1 (proj2 (sync_health_invariant (createXAccount "@lab")))).
  - vm_compute. discriminate.
  - reflexivity.
  - cbn. lia.
Defined.

End SyncHealth.

(** ** Pagination *)

Section PaginationFacts.

Import Pagination.


Example buildPagination_pages :
  totalPages (buildPagination 0 10 25) == 3
  /\ currentPage (buildPagination 0 10 25) == 1
  /\ currentPage (buildPagination 7 10 25) == 3
  /\ totalPages (buildPagination 1 10 0) == 1
  /\ hasNext (buildPagination 0 10 25) = true
  /\ hasPrev (buildPagination 0 10 25) = false
  /\ hasNext (buildPagination 7 10 25) = false.
Proof. repeat split. Qed.



End PaginationFacts.

(** ** Serialization *)

Section SerializeFacts.

Import Serialize.

Lemma hexDigit_isHex (d : N) : (d < 16)%N -> isHexDigit (hexDigit d) = true.
Proof.
  intro H.
  assert (C : In d (map N.of_nat (seq 0 16))).
  { apply in_map_iff. exists (N.to_nat d). split; [apply N2Nat.id|].
    apply in_seq. lia. }
  cbn in C. repeat (destruct C as [C|C]; [subst d; reflexivity|]). contradiction.
Qed.

Lemma hexOf_shape (digits : nat) (n : N) (acc : string) :
  String.length (hexOf digits n acc) = (digits + String.length acc)%nat
  /\ allHex (hexOf digits n acc) = allHex acc.
Proof.
  revert n acc. induction digits as [|k IH]; intros n acc; [split; reflexivity|].
  cbn [hexOf]. destruct (IH (n / 16)%N (String (hexDigit (n mod 16)) acc)) as [L A].
  split.
  - rewrite L. cbn [String.length]. lia.
  - rewrite A. cbn [allHex]. rewrite hexDigit_isHex; [reflexivity|].
    apply N.mod_lt. discriminate.
Qed.

(** An [ObjectId] always prints as an identifier string, so the serializer
    turns every [ObjectId] into that string. *)
Lemma toHexString_isOidString (n : N) : isOidString (toHexString n) = true.
Proof.
  unfold isOidString, toHexString.
  destruct (hexOf_shape 24 n EmptyString) as [L A].
  rewrite L, A. reflexivity.
Qed.

Lemma serializeValue_ObjectId (options : SerializeOptions) (n : N) :
  serializeValue options (VObjectId n) = VString (toHexString n).
Proof.
  cbn [serializeValue coerceObjectIdString hasOidProp isObjectId].
  unfold test. rewrite toHexString_isOidString. reflexivity.
Qed.

(** Strings, numbers, booleans and [null] are fixed points. *)
Lemma serializeDoc_primitive (v : value) :
  match v with
  | VNull | VString _ | VNumber _ | VBoolean _ => serializeDoc v = v
  | _ => True
  end.
Proof. destruct v; try exact I; reflexivity. Qed.

(** C10 at the document [{ $oid: { $oid: hex } }]: the first pass turns
    the inner wrapper into the identifier string and keeps the outer
    object; the second pass turns that object into the string.  The two
    results differ, so re-serializing a serialized document does not give
    an equal document. *)
Theorem serializeDoc_second_pass_differs :
  serializeDoc nestedOid = VObject [("$oid"%string, VString sampleHex)]
  /\ serializeDoc (serializeDoc nestedOid) = VString sampleHex
  /\ serializeDoc (serializeDoc nestedOid) <> serializeDoc nestedOid.
Proof.
  assert (E1 : serializeDoc nestedOid = VObject [("$oid"%string, VString sampleHex)])
    by (vm_compute; reflexivity).
  assert (E2 : serializeDoc (serializeDoc nestedOid) = VString sampleHex)
    by (vm_compute; reflexivity).
  split; [exact E1|]. split; [exact E2|].
  rewrite E2, E1. discriminate.
Qed.

(** The same happens with an array that is left with one identifier string
    once its [undefined] entries are dropped: the second pass returns the
    string. *)
Lemma serializeDoc_array_second_pass :
  serializeDoc (VArray [VUndefined; VString sampleHex]) = VArray [VString sampleHex]
  /\ serializeDoc (VArray [VString sampleHex]) = VString sampleHex.
Proof. split; vm_compute; reflexivity. Qed.

End SerializeFacts.

(** ** Where a second serialization pass is the identity *)

Section ValueInduction.

Variable P : Serialize.value -> Prop.
Hypothesis PNull : P Serialize.VNull.
Hypothesis PUndefined : P Serialize.VUndefined.
Hypothesis PString : forall s, P (Serialize.VString s).
Hypothesis PNumber : forall n, P (Serialize.VNumber n).
Hypothesis PBoolean : forall b, P (Serialize.VBoolean b).
Hypothesis PFunction : forall r, P (Serialize.VFunction r).
Hypothesis PDate : forall iso, P (Serialize.VDate iso).
Hypothesis PObjectId : forall n, P (Serialize.VObjectId n).
Hypothesis PArray :
  forall items, Forall P items -> P (Serialize.VArray items).
Hypothesis PObject :
  forall entries,
    Forall (fun kv : string * Serialize.value => P (snd kv)) entries ->
    P (Serialize.VObject entries).

Fixpoint value_rect_nested (v : Serialize.value) : P v :=
  match v with
  | Serialize.VNull => PNull
  | Serialize.VUndefined => PUndefined
  | Serialize.VString s => PString s
  | Serialize.VNumber n => PNumber n
  | Serialize.VBoolean b => PBoolean b
  | Serialize.VFunction r => PFunction r
  | Serialize.VDate iso => PDate iso
  | Serialize.VObjectId n => PObjectId n
  | Serialize.VArray items =>
      PArray items
        ((fix all (l : list Serialize.value) : Forall P l :=
            match l with
            | [] => Forall_nil P
            | x :: rest => Forall_cons x (value_rect_nested x) (all rest)
            end) items)
  | Serialize.VObject entries =>
      PObject entries
        ((fix all (l : list (string * Serialize.value))
            : Forall (fun kv => P (snd kv)) l :=
            match l with
            | [] => Forall_nil _
            | kv :: rest =>
                Forall_cons kv (value_rect_nested (snd kv)) (all rest)
            end) entries)
  end.

End ValueInduction.

Section SettledValues.

Import Serialize.

Lemma settled_not_undefined (v : value) : settled v = true -> isUndefined v = false.
Proof. destruct v; cbn; intro H; try reflexivity; discriminate. Qed.

Lemma eachItem_fixed (f : value -> value) (items : list value) :
  Forall (fun x => settled x = true -> f x = x) items ->
  forallb settled items = true ->
  eachItem f items = items.
Proof.
  induction 1 as [|x rest Hx _ IH]; intro S; [reflexivity|].
  cbn [forallb] in S. apply andb_true_iff in S as [Sx Sr].
  cbn [eachItem]. rewrite (Hx Sx), (settled_not_undefined x Sx).
  fold (eachItem f). rewrite (IH Sr). reflexivity.
Qed.

Lemma includes_sym_false (keys : list string) (k a : string) :
  includes (a :: keys) k = false -> String.eqb a k = false /\ includes keys k = false.
Proof.
  unfold includes. cbn [existsb]. intro H. apply orb_false_iff in H as [H1 H2].
  rewrite String.eqb_sym. split; assumption.
Qed.

Lemma assign_fresh (obj : list (string * value)) (k : string) (v : value) :
  includes (map fst obj) k = false -> assign obj k v = obj ++ [(k, v)].
Proof.
  induction obj as [|[a w] rest IH]; intro H; [reflexivity|].
  cbn [map fst] in H. apply includes_sym_false in H as [H1 H2].
  cbn [assign]. rewrite H1, (IH H2). reflexivity.
Qed.

Lemma setProp_fresh (obj : list (string * value)) (k : string) (v : value) :
  String.eqb k "__proto__" = false ->
  includes (map fst obj) k = false -> setProp obj k v = obj ++ [(k, v)].
Proof. intros P H. unfold setProp. rewrite P. apply assign_fresh. exact H. Qed.

Lemma distinct_middle (before after : list string) (k : string) :
  distinct (before ++ k :: after) = true -> includes before k = false.
Proof.
  induction before as [|a rest IH]; intro H; [reflexivity|].
  cbn [app distinct] in H. apply andb_true_iff in H as [H1 H2].
  apply negb_true_iff in H1. unfold includes in *. cbn [existsb].
  rewrite (IH H2), orb_false_r.
  rewrite existsb_app in H1. cbn [existsb] in H1.
  apply orb_false_iff in H1 as [_ H1]. apply orb_false_iff in H1 as [H1 _].
  rewrite String.eqb_sym. exact H1.
Qed.

Lemma eachEntry_fixed (f : value -> value) (l obj : list (string * value)) :
  Forall (fun kv : string * value => settled (snd kv) = true -> f (snd kv) = snd kv) l ->
  forallb (fun kv : string * value =>
             let '(key, val) := kv in
             negb (includes (omitKeys DEFAULT_OPTIONS) key)
             && negb (String.eqb key "__proto__")
             && settled val) l = true ->
  distinct (map fst (obj ++ l)) = true ->
  eachEntry DEFAULT_OPTIONS f l obj = obj ++ l.
Proof.
  intro HF. revert obj. induction HF as [|[k v] rest Hkv _ IH]; intros obj S D.
  - cbn. symmetry. apply app_nil_r.
  - cbn [forallb] in S. apply andb_true_iff in S as [Sk Sr].
    apply andb_true_iff in Sk as [Ko Sv]. apply andb_true_iff in Ko as [Ko Kp].
    apply negb_true_iff in Ko. apply negb_true_iff in Kp.
    cbn [snd] in Hkv.
    cbn [eachEntry]. rewrite Ko, (Hkv Sv), (settled_not_undefined v Sv).
    cbn [negb orb]. fold (eachEntry DEFAULT_OPTIONS f).
    rewrite map_app in D. cbn [map fst] in D.
    rewrite (setProp_fresh obj k v Kp (distinct_middle _ _ _ D)).
    rewrite IH.
    + rewrite <- app_assoc. reflexivity.
    + exact Sr.
    + rewrite <- app_assoc, map_app. exact D.
Qed.

(** A settled value is a fixed point of the serializer. *)
Lemma serializeValue_settled (v : value) :
  settled v = true -> serializeValue DEFAULT_OPTIONS v = v.
Proof.
  induction v as [| |s|n|b|r|iso|n|items IH|entries IH] using value_rect_nested;
    intro S; try reflexivity; try discriminate.
  - cbn [settled] in S. cbn [serializeValue].
    destruct (coerceObjectIdString (VArray items)); [discriminate|].
    rewrite (eachItem_fixed _ items IH S). reflexivity.
  - cbn [settled] in S. cbn [serializeValue].
    destruct (coerceObjectIdString (VObject entries)); [discriminate|].
    apply andb_true_iff in S as [D S].
    rewrite (eachEntry_fixed _ entries [] IH S D). reflexivity.
Qed.

(** So [serializeDoc] is idempotent at every document whose serialized form
    is settled; the documents at which it is not are those whose serialized
    form still has a node that [coerceObjectIdString] accepts. *)
Lemma serializeDoc_idempotent_when_settled (doc : value) :
  settled (serializeDoc doc) = true ->
  serializeDoc (serializeDoc doc) = serializeDoc doc.
Proof.
  intro S. unfold serializeDoc at 1. unfold serializeDocWith.
  rewrite (serializeValue_settled _ S).
  destruct (serializeDoc doc); try reflexivity; discriminate.
Qed.

(** The sample document: identifiers and dates become strings, [__v], the
    function and the [undefined] entries go, and a second pass changes
    nothing. *)
Example serializeDoc_sampleDoc :
  serializeDoc sampleDoc
  = VObject
      [("_id"%string, VString "00000000123456789abcdef0");
       ("name"%string, VString "gpt");
       ("createdAt"%string, VString "2025-09-26T00:00:00.000Z");
       ("lastFetched"%string, VNull);
       ("tags"%string, VArray [VString "a"]);
       ("meta"%string, VObject [("ref"%string, VString sampleHex)])]
  /\ serializeDoc (serializeDoc sampleDoc) = serializeDoc sampleDoc.
Proof.
  split; [vm_compute; reflexivity|].
  apply serializeDoc_idempotent_when_settled. vm_compute. reflexivity.
Qed.

End SettledValues.

(** ** Ingestion of a feed *)

Section Ingestion.

Import RssParser.

Variable env : Env.
Variable feedDoc : Feed.IFeed.

Lemma findOne_None (p : Article.IArticle -> bool) (store : Store) :
  findOne p store = None <-> existsb p store = false.
Proof.
  unfold findOne. induction store as [|a rest IH]; cbn; [tauto|].
  destruct (p a); cbn; [split; discriminate | exact IH].
Qed.

Lemma findOne_Some (p : Article.IArticle -> bool) (store : Store) (a : Article.IArticle) :
  findOne p store = Some a -> In a store /\ p a = true.
Proof. apply find_some. Qed.

(** A saved article is found again by the query of the item it came from. *)
Lemma newArticle_known (e : Env) (k : nat) (item : ParsedFeedItem) :
  existingQuery feedDoc item (newArticle e feedDoc k item) = true.
Proof.
  unfold existingQuery, newArticle. cbn. rewrite String.eqb_refl. reflexivity.
Qed.

(** The three ways a turn of the loop ends. *)
Lemma processItem_cases (k : nat) (store : Store) (c : Counts) (item : ParsedFeedItem) :
  (existsb (existingQuery feedDoc item) store = true
   /\ processItem env feedDoc k (store, c) item
      = (store, {| saved := saved c; skipped := S (skipped c); errors := errors c |}))
  \/ (existsb (existingQuery feedDoc item) store = false
      /\ saveRaises env (newArticle env feedDoc k item) = true
      /\ processItem env feedDoc k (store, c) item
         = (store, {| saved := saved c; skipped := skipped c; errors := S (errors c) |}))
  \/ (existsb (existingQuery feedDoc item) store = false
      /\ saveRaises env (newArticle env feedDoc k item) = false
      /\ processItem env feedDoc k (store, c) item
         = (store ++ [newArticle env feedDoc k item],
            {| saved := S (saved c); skipped := skipped c; errors := errors c |})).
Proof.
  unfold processItem.
  destruct (findOne (existingQuery feedDoc item) store) as [a|] eqn:F.
  - left. split; [|reflexivity].
    destruct (existsb (existingQuery feedDoc item) store) eqn:K; [reflexivity|].
    apply findOne_None in K. congruence.
  - apply findOne_None in F. right.
    destruct (saveRaises env (newArticle env feedDoc k item)); [left|right]; auto.
Qed.

Lemma counts_ext (a b : Counts) :
  saved a = saved b -> skipped a = skipped b -> errors a = errors b -> a = b.
Proof. destruct a, b. cbn. intros -> -> ->. reflexivity. Qed.

(** The counters do not steer the loop: a turn from counters [c] is the
    turn from zero with [c] added, and so is a whole run. *)
Lemma processItem_counts (k : nat) (store : Store) (c : Counts) (item : ParsedFeedItem) :
  processItem env feedDoc k (store, c) item
  = (fst (processItem env feedDoc k (store, zero) item),
     plus c (snd (processItem env feedDoc k (store, zero) item))).
Proof.
  unfold processItem.
  destruct (findOne (existingQuery feedDoc item) store);
    [|destruct (saveRaises env (newArticle env feedDoc k item))];
    cbn [fst snd]; apply (f_equal (pair _)); apply counts_ext; cbn; lia.
Qed.

Lemma plus_assoc (a b c : Counts) : plus (plus a b) c = plus a (plus b c).
Proof. apply counts_ext; cbn; lia. Qed.

Lemma processItems_app (k : nat) (a b : list ParsedFeedItem) (st : Store * Counts) :
  processItems env feedDoc k (a ++ b) st
  = processItems env feedDoc (k + List.length a) b (processItems env feedDoc k a st).
Proof.
  revert k st. induction a as [|x rest IH]; intros k st.
  - cbn. rewrite Nat.add_0_r. reflexivity.
  - cbn [app processItems List.length]. rewrite IH. f_equal. lia.
Qed.

Lemma run_counts (k : nat) (l : list ParsedFeedItem) (store : Store) (c : Counts) :
  processItems env feedDoc k l (store, c)
  = (fst (processItems env feedDoc k l (store, zero)),
     plus c (snd (processItems env feedDoc k l (store, zero)))).
Proof.
  revert k store c. induction l as [|item rest IH]; intros k store c.
  - cbn. apply (f_equal (pair _)). apply counts_ext; cbn; lia.
  - cbn [processItems]. rewrite (processItem_counts k store c item).
    destruct (processItem env feedDoc k (store, zero) item) as [s1 c1].
    cbn [fst snd]. rewrite (IH (S k) s1 (plus c c1)), (IH (S k) s1 c1). cbn [fst snd].
    rewrite plus_assoc. reflexivity.
Qed.

(** Every item is counted exactly once. *)
Lemma run_accounting (k : nat) (l : list ParsedFeedItem) (store : Store) (c : Counts) :
  (saved (snd (processItems env feedDoc k l (store, c)))
   + skipped (snd (processItems env feedDoc k l (store, c)))
   + errors (snd (processItems env feedDoc k l (store, c)))
   = saved c + skipped c + errors c + List.length l)%nat.
Proof.
  revert k store c. induction l as [|item rest IH]; intros k store c.
  - cbn. lia.
  - cbn [processItems List.length].
    destruct (processItem_cases k store c item) as [[_ E]|[(_ & _ & E)|(_ & _ & E)]];
      rewrite E, IH; cbn; lia.
Qed.

(** The collection only grows, by appending. *)
Lemma run_extends (k : nat) (l : list ParsedFeedItem) (store : Store) (c : Counts) :
  exists added : Store,
    fst (processItems env feedDoc k l (store, c)) = store ++ added.
Proof.
  revert k store c. induction l as [|item rest IH]; intros k store c.
  - exists []. cbn. symmetry. apply app_nil_r.
  - cbn [processItems].
    destruct (processItem_cases k store c item) as [[_ E]|[(_ & _ & E)|(_ & _ & E)]];
      rewrite E.
    + apply IH.
    + apply IH.
    + destruct (IH (S k) (store ++ [newArticle env feedDoc k item])
                   {| saved := S (saved c); skipped := skipped c; errors := errors c |})
        as [added H].
      exists (newArticle env feedDoc k item :: added).
      rewrite <- app_assoc in H. exact H.
Qed.

Lemma run_keeps_known (k : nat) (l : list ParsedFeedItem) (store : Store) (c : Counts)
      (item : ParsedFeedItem) :
  existsb (existingQuery feedDoc item) store = true ->
  existsb (existingQuery feedDoc item)
          (fst (processItems env feedDoc k l (store, c))) = true.
Proof.
  intro K. destruct (run_extends k l store c) as [added ->].
  rewrite existsb_app, K. reflexivity.
Qed.




(** What a run stores: the collection before, then one article for each
    turn that saved, built at that turn. *)
Lemma run_appends (k : nat) (l : list ParsedFeedItem) (store : Store) (c : Counts) :
  exists added : Store,
    fst (processItems env feedDoc k l (store, c)) = store ++ added
    /\ (saved (snd (processItems env feedDoc k l (store, c)))
        = saved c + List.length added)%nat
    /\ Forall (fun a => exists (j : nat) (item : ParsedFeedItem),
                   nth_error l j = Some item
                   /\ a = newArticle env feedDoc (k + j) item
                   /\ saveRaises env a = false) added.
Proof.
  revert k store c. induction l as [|x rest IH]; intros k store c.
  - exists []. cbn. rewrite app_nil_r. repeat split; [lia | constructor].
  - cbn [processItems].
    assert (Shift : forall added : Store,
               Forall (fun a => exists (j : nat) (item : ParsedFeedItem),
                           nth_error rest j = Some item
                           /\ a = newArticle env feedDoc (S k + j) item
                           /\ saveRaises env a = false) added ->
               Forall (fun a => exists (j : nat) (item : ParsedFeedItem),
                           nth_error (x :: rest) j = Some item
                           /\ a = newArticle env feedDoc (k + j) item
                           /\ saveRaises env a = false) added).
    { intros added F. eapply Forall_impl; [|exact F].
      intros a (j & item & N & E & R). exists (S j), item.
      split; [exact N|]. split; [|exact R].
      rewrite E. f_equal. lia. }
    destruct (processItem_cases k store c x) as [[K E]|[(K & R & E)|(K & R & E)]];
      rewrite E.
    + destruct (IH (S k) store
                  {| saved := saved c; skipped := S (skipped c); errors := errors c |})
        as (added & A & B & C).
      exists added. split; [exact A|]. split; [exact B | apply Shift; exact C].
    + destruct (IH (S k) store
                  {| saved := saved c; skipped := skipped c; errors := S (errors c) |})
        as (added & A & B & C).
      exists added. split; [exact A|]. split; [exact B | apply Shift; exact C].
    + destruct (IH (S k) (store ++ [newArticle env feedDoc k x])
                  {| saved := S (saved c); skipped := skipped c; errors := errors c |})
        as (added & A & B & C).
      exists (newArticle env feedDoc k x :: added).
      split; [etransitivity; [exact A|]; rewrite <- app_assoc; reflexivity|].
      split; [etransitivity; [exact B|]; cbn [List.length saved]; lia|].
      constructor; [|apply Shift; exact C].
      exists 0%nat, x. split; [reflexivity|]. split; [|exact R].
      f_equal. lia.
Qed.

End Ingestion.

Section TwoRuns.

Import RssParser.

Variable env1 env2 : Env.
Variable feedDoc : Feed.IFeed.


End TwoRuns.

Section IngestionClaims.

Import RssParser.

Lemma existingQuery_true (feedDoc : Feed.IFeed) (item : ParsedFeedItem)
      (a : Article.IArticle) :
  existingQuery feedDoc item a = true
  <-> Article.url a = link item
      \/ Article.originalUrl a = link item
      \/ (Article.title a = JsString.trim (title item)
          /\ Article.feedId a = Feed._id feedDoc).
Proof.
  unfold existingQuery.
  rewrite !orb_true_iff, andb_true_iff, !String.eqb_eq. tauto.
Qed.

(** C2, as stated, fails: in the second sync the item whose title changed
    is counted as skipped and its stored title stays; the run ends with
    saved = 1 and skipped = 2, not with saved = 1, updated = 1,
    skipped = 1. *)
Lemma second_sync_skips_changed_item :
  let run := processFeedItems Scenario.quiet Scenario.sourceA
               (Scenario.feedOf Scenario.secondSync) Scenario.afterFirstSync in
  snd run = {| saved := 1; skipped := 2; errors := 0 |}
  /\ ~ (saved (snd run) = 1 /\ skipped (snd run) = 1)%nat
  /\ map Article.title (fst run) = ["one"; "two"; "three"; "four"]%string.
Proof.
  vm_compute. split; [reflexivity|].
  split; [intros [_ H]; discriminate | reflexivity].
Qed.

(** C2, amended: an incoming item that the query resolves to a stored
    article is counted as skipped and the collection is left as it is,
    whether or not its fields differ from the stored ones; there is no
    update and no updated counter.  The first sync of the scenario ends
    with saved = 3, skipped = 0, errors = 0 and the second with saved = 1,
    skipped = 2, errors = 0. *)
Theorem matched_item_skipped_unchanged :
  (forall (env : Env) (feedDoc : Feed.IFeed) (k : nat) (item : ParsedFeedItem)
          (store : Store) (c : Counts) (existing : Article.IArticle),
      findOne (existingQuery feedDoc item) store = Some existing ->
      processItem env feedDoc k (store, c) item
      = (store, {| saved := saved c; skipped := S (skipped c); errors := errors c |}))
  /\ snd (processFeedItems Scenario.quiet Scenario.sourceA
            (Scenario.feedOf Scenario.firstSync) [])
     = {| saved := 3; skipped := 0; errors := 0 |}
  /\ snd (processFeedItems Scenario.quiet Scenario.sourceA
            (Scenario.feedOf Scenario.secondSync) Scenario.afterFirstSync)
     = {| saved := 1; skipped := 2; errors := 0 |}.
Proof.
  split; [|split; vm_compute; reflexivity].
  intros env feedDoc k item store c existing F.
  unfold processItem. rewrite F. reflexivity.
Qed.

Lemma matched_item_skipped_unchanged_witness :
  processItem Scenario.quiet Scenario.sourceA 1 (Scenario.afterFirstSync, zero)
              (Scenario.entry "U2" "two, edited" None)
  = (Scenario.afterFirstSync, {| saved := 0; skipped := 1; errors := 0 |}).
Proof.
  apply (proj1 matched_item_skipped_unchanged Scenario.quiet Scenario.sourceA 1%nat
           (Scenario.entry "U2" "two, edited" None) Scenario.afterFirstSync zero
           (newArticle Scenario.quiet Scenario.sourceA 1
                       (Scenario.entry "U2" "two" None))).
  vm_compute. reflexivity.
Defined.

(** C3, as stated, fails.  With one stored article (from the item by
    alice): an item with the same title from the same feed but another
    URL, guid and author is new under the three ordered rules, yet the
    code finds the stored article; an item with the same guid and kind but
    another URL and title matches under rule (2), yet the code finds
    nothing. *)
Lemma dedup_differs_from_ordered_rules :
  let store := fst (processFeedItems Scenario.quiet Scenario.sourceA
                      (Scenario.feedOf [Scenario.byAlice]) []) in
  let stored := [SpecDeduplicator.identityOf Scenario.sourceA Scenario.byAlice] in
  SpecDeduplicator.resolve
    (SpecDeduplicator.identityOf Scenario.sourceA Scenario.byBob) stored = None
  /\ findOne (existingQuery Scenario.sourceA Scenario.byBob) store
     = Some (newArticle Scenario.quiet Scenario.sourceA 0 Scenario.byAlice)
  /\ SpecDeduplicator.resolve
       (SpecDeduplicator.identityOf Scenario.sourceA Scenario.moved) stored = Some 0%nat
  /\ findOne (existingQuery Scenario.sourceA Scenario.moved) store = None.
Proof. vm_compute. repeat split. Qed.

(** C3, amended: the match/new decision is one disjunction without
    precedence: an item is taken as existing exactly when some stored
    article has url = link, or originalUrl = link, or, as its title, the
    item's title with the white space at both ends removed together with
    this feed's id; the article returned satisfies one of the three.  The
    guid, the author and the content kind of the item play no part, and
    neither does white space around its title. *)
Theorem dedup_is_one_disjunction
        (feedDoc : Feed.IFeed) (item : ParsedFeedItem) (store : Store) :
  (findOne (existingQuery feedDoc item) store = None
   <-> forall a : Article.IArticle,
       In a store ->
       Article.url a <> link item
       /\ Article.originalUrl a <> link item
       /\ ~ (Article.title a = JsString.trim (title item)
             /\ Article.feedId a = Feed._id feedDoc))
  /\ (forall a : Article.IArticle,
      findOne (existingQuery feedDoc item) store = Some a ->
      In a store
      /\ (Article.url a = link item
          \/ Article.originalUrl a = link item
          \/ (Article.title a = JsString.trim (title item)
              /\ Article.feedId a = Feed._id feedDoc)))
  /\ (forall item' : ParsedFeedItem,
      link item' = link item ->
      JsString.trim (title item') = JsString.trim (title item) ->
      findOne (existingQuery feedDoc item') store
      = findOne (existingQuery feedDoc item) store).
Proof.
  split; [|split].
  - split.
    + intros F a Hin.
      pose proof (find_none _ _ F a Hin) as N.
      assert (Q : ~ (Article.url a = link item
                     \/ Article.originalUrl a = link item
                     \/ (Article.title a = JsString.trim (title item)
                         /\ Article.feedId a = Feed._id feedDoc))).
      { intro C. apply existingQuery_true in C. congruence. }
      tauto.
    + intro H. destruct (findOne (existingQuery feedDoc item) store) as [a|] eqn:F;
        [|reflexivity].
      apply find_some in F as [Hin T]. apply existingQuery_true in T.
      destruct (H a Hin) as (A & B & C). tauto.
  - intros a F. apply find_some in F as [Hin T].
    split; [exact Hin | apply existingQuery_true; exact T].
  - intros item' Hl Ht. unfold existingQuery. rewrite Hl, Ht. reflexivity.
Qed.

Lemma dedup_is_one_disjunction_witness :
  findOne (existingQuery Scenario.sourceA
             (Scenario.entry "https://a.example/2" "  Weekly " (Some "carol"%string)))
          Scenario.afterFirstSync
  = findOne (existingQuery Scenario.sourceA Scenario.byBob) Scenario.afterFirstSync.
Proof.
  apply (proj2 (proj2 (dedup_is_one_disjunction Scenario.sourceA Scenario.byBob
                         Scenario.afterFirstSync))); reflexivity.
Defined.




Lemma processFeed_success (env : Env) (feed : Feed.IFeed) (parsedFeed : ParsedFeed)
      (store : Store) (t : Totals) :
  parseFeed env (Feed.url feed) = Some parsedFeed ->
  feedResults (snd (processFeed env (store, t) feed))
  = feedResults t
    ++ [{| feedId := Feed._id feed; feedTitle := Feed.title feed;
           status := success; error := None;
           counts := Some (snd (processFeedItems env feed parsedFeed store)) |}].
Proof.
  intro P. unfold processFeed. rewrite P.
  destruct (processFeedItems env feed parsedFeed store) as [s r]. reflexivity.
Qed.

(** Items whose save never raises are all in the collection after a run,
    and the run counts no error for them. *)
Lemma run_without_raise (env : Env) (feedDoc : Feed.IFeed) (k : nat)
      (l : list ParsedFeedItem) (store : Store) (c : Counts) :
  (forall (j : nat) (item : ParsedFeedItem),
      In item l -> saveRaises env (newArticle env feedDoc j item) = false) ->
  errors (snd (processItems env feedDoc k l (store, c))) = errors c
  /\ forall item : ParsedFeedItem,
      In item l ->
      existsb (existingQuery feedDoc item)
              (fst (processItems env feedDoc k l (store, c))) = true.
Proof.
  revert k store c. induction l as [|x rest IH]; intros k store c H.
  - split; [reflexivity | intros item []].
  - cbn [processItems].
    assert (Hrest : forall (j : nat) (item : ParsedFeedItem),
               In item rest -> saveRaises env (newArticle env feedDoc j item) = false)
      by (intros j item Hin; apply H; right; exact Hin).
    destruct (processItem_cases env feedDoc k store c x)
      as [[K E]|[(K & R & E)|(K & R & E)]]; rewrite E.
    + destruct (IH (S k) store
                  {| saved := saved c; skipped := S (skipped c); errors := errors c |}
                  Hrest) as [I1 I2].
      split; [exact I1|]. intros item [<-|Hin]; [|apply I2; exact Hin].
      apply run_keeps_known. exact K.
    + rewrite (H k x (or_introl eq_refl)) in R. discriminate.
    + destruct (IH (S k) (store ++ [newArticle env feedDoc k x])
                  {| saved := S (saved c); skipped := skipped c; errors := errors c |}
                  Hrest) as [I1 I2].
      split; [exact I1|]. intros item [<-|Hin]; [|apply I2; exact Hin].
      apply run_keeps_known. rewrite existsb_app. cbn [existsb].
      rewrite newArticle_known, orb_true_r. reflexivity.
Qed.

(** C8: when the save of one item of a batch raises, the loop counts one
    error for it, stores nothing at that turn and goes on with the next
    item from the same collection; every item of the batch is counted once,
    and the collection afterwards is the collection before followed by one
    article for each item counted as saved.  If the save of no other item
    raises, the run ends with errors = 1, the other items are all saved or
    skipped, and each of them is in the collection afterwards.  The feed's
    entry in the results of [processAllFeeds] has status success and
    carries these counters: an item error does not make the run a failed
    one. *)
Theorem partial_failure_isolated
        (env : Env) (feedDoc : Feed.IFeed) (parsedFeed : ParsedFeed)
        (pre post : list ParsedFeedItem) (bad : ParsedFeedItem) (store : Store) :
  let before := processFeedItems env feedDoc (withItems parsedFeed pre) store in
  let whole := processFeedItems env feedDoc
                 (withItems parsedFeed (pre ++ bad :: post)) store in
  findOne (existingQuery feedDoc bad) (fst before) = None ->
  saveRaises env (newArticle env feedDoc (List.length pre) bad) = true ->
  whole
  = processItems env feedDoc (S (List.length pre)) post
      (fst before,
       {| saved := saved (snd before); skipped := skipped (snd before);
          errors := S (errors (snd before)) |})
  /\ (saved (snd whole) + skipped (snd whole) + errors (snd whole)
      = List.length (pre ++ bad :: post))%nat
  /\ (exists added : Store,
        fst whole = store ++ added
        /\ List.length added = saved (snd whole))
  /\ ((forall (k : nat) (item : ParsedFeedItem),
          In item (pre ++ post) ->
          saveRaises env (newArticle env feedDoc k item) = false) ->
      errors (snd whole) = 1%nat
      /\ (saved (snd whole) + skipped (snd whole)
          = List.length pre + List.length post)%nat
      /\ forall item : ParsedFeedItem,
          In item (pre ++ post) ->
          exists a : Article.IArticle,
            In a (fst whole) /\ existingQuery feedDoc item a = true)
  /\ (forall t : Totals,
      parseFeed env (Feed.url feedDoc)
      = Some (withItems parsedFeed (pre ++ bad :: post)) ->
      feedResults (snd (processFeed env (store, t) feedDoc))
      = feedResults t
        ++ [{| feedId := Feed._id feedDoc; feedTitle := Feed.title feedDoc;
               status := success; error := None;
               counts := Some (snd whole) |}]).
Proof.
  intros before whole F R.
  assert (E : whole
              = processItems env feedDoc (S (List.length pre)) post
                  (fst before,
                   {| saved := saved (snd before); skipped := skipped (snd before);
                      errors := S (errors (snd before)) |})).
  { subst whole before. unfold processFeedItems in *. cbn [withItems items] in *.
    rewrite processItems_app. cbn [processItems Nat.add].
    destruct (processItems env feedDoc 0 pre (store, zero)) as [s1 c1].
    cbn [fst snd] in *. unfold processItem. rewrite F, R. reflexivity. }
  pose proof (run_accounting env feedDoc 0 (pre ++ bad :: post) store zero) as Acc.
  destruct (run_appends env feedDoc 0 (pre ++ bad :: post) store zero)
    as (added & A & B & _).
  change (processItems env feedDoc 0 (pre ++ bad :: post) (store, zero))
    with whole in Acc, A, B.
  cbn [saved skipped errors zero Nat.add] in Acc, B.
  split; [exact E|]. split; [exact Acc|].
  split; [exists added; split; [exact A | symmetry; exact B]|].
  split; [|intros t P; apply processFeed_success; exact P].
  intro Hothers.
  assert (Hpre : forall (j : nat) (item : ParsedFeedItem),
             In item pre -> saveRaises env (newArticle env feedDoc j item) = false)
    by (intros j item Hin; apply Hothers; apply in_or_app; left; exact Hin).
  assert (Hpost : forall (j : nat) (item : ParsedFeedItem),
             In item post -> saveRaises env (newArticle env feedDoc j item) = false)
    by (intros j item Hin; apply Hothers; apply in_or_app; right; exact Hin).
  destruct (run_without_raise env feedDoc 0 pre store zero Hpre) as [P1 P2].
  change (processItems env feedDoc 0 pre (store, zero)) with before in P1, P2.
  destruct (run_without_raise env feedDoc (S (List.length pre)) post (fst before)
              {| saved := saved (snd before); skipped := skipped (snd before);
                 errors := S (errors (snd before)) |} Hpost) as [Q1 Q2].
  rewrite <- E in Q1, Q2. cbn [errors] in Q1. cbn [errors zero] in P1.
  assert (E1 : errors (snd whole) = 1%nat) by (rewrite Q1, P1; reflexivity).
  split; [exact E1|].
  split; [rewrite length_app in Acc; cbn [List.length] in Acc; lia|].
  intros item Hin.
  assert (K : existsb (existingQuery feedDoc item) (fst whole) = true).
  { apply in_app_or in Hin as [Hin|Hin]; [|apply Q2; exact Hin].
    rewrite E. apply run_keeps_known. apply P2. exact Hin. }
  apply existsb_exists in K. exact K.
Qed.

Lemma partial_failure_isolated_witness :
  let env := Scenario.rejecting "U4" Scenario.tenItems in
  let whole := processFeedItems env Scenario.sourceA
                 (Scenario.feedOf Scenario.tenItems) [] in
  errors (snd whole) = 1%nat
  /\ (saved (snd whole) + skipped (snd whole) = 9)%nat
  /\ (forall item : ParsedFeedItem,
        In item (firstn 3 Scenario.tenItems ++ skipn 4 Scenario.tenItems) ->
        exists a : Article.IArticle,
          In a (fst whole) /\ existingQuery Scenario.sourceA item a = true)
  /\ map status
         (feedResults (snd (processAllFeeds env [Scenario.sourceA] [])))
     = [success].
Proof.
  intros env whole.
  pose proof (partial_failure_isolated env Scenario.sourceA
                (Scenario.feedOf Scenario.tenItems)
                (firstn 3 Scenario.tenItems) (skipn 4 Scenario.tenItems)
                (Scenario.entry "U4" "t4" None) []) as H.
  cbn zeta in H.
  destruct H as (_ & _ & _ & H1 & Hs);
    [vm_compute; reflexivity | vm_compute; reflexivity |].
  destruct H1 as (He & Hn & Hc).
  { intros k item Hin. cbn in Hin.
    repeat (destruct Hin as [<-|Hin]; [reflexivity|]). contradiction. }
  split; [exact He|]. split; [exact Hn|]. split; [exact Hc|].
  unfold processAllFeeds. cbn [filter Scenario.sourceA Feed.isActive fold_left].
  rewrite Hs by reflexivity. reflexivity.
Defined.

End IngestionClaims.

(** * Further properties of the sources *)

(** ** The hub client: rate limit *)

Section RateLimitFacts.

Import HubClient.

Lemma checkRateLimit_in_window (now : Z) (rl : RateLimit) :
  (now <= resetTime rl)%Z ->
  checkRateLimit now rl
  = if (current rl >=? requests)%Z then (false, rl)
    else (true, {| current := (current rl + 1)%Z; resetTime := resetTime rl |}).
Proof.
  intro H. unfold checkRateLimit.
  assert (E : (now >? resetTime rl)%Z = false) by lia.
  rewrite E. reflexivity.
Qed.

(** X1: between two resets of the window the limiter admits calls until the
    counter reaches 100 and refuses every call after that: with all clock
    readings at or before the reset time, the answers are [k] times true and
    then only false, where [k] is what was left of the 100; the counter
    grows by the number of admitted calls and the reset time stays. *)
Theorem rate_limit_admits_up_to_quota (times : list Z) (rl : RateLimit) :
  Forall (fun now => (now <= resetTime rl)%Z) times ->
  let left := Z.to_nat (requests - current rl) in
  let admitted := Nat.min (List.length times) left in
  fst (checkAll times rl)
  = repeat true admitted ++ repeat false (List.length times - left)
  /\ current (snd (checkAll times rl)) = (current rl + Z.of_nat admitted)%Z
  /\ resetTime (snd (checkAll times rl)) = resetTime rl.
Proof.
  revert rl. induction times as [|now rest IH]; intros rl Hall.
  - cbn. repeat split. lia.
  - inversion Hall as [|x l Hnow Hrest]; subst.
    cbn [checkAll]. rewrite (checkRateLimit_in_window now rl Hnow).
    destruct (current rl >=? requests)%Z eqn:E.
    + specialize (IH rl Hrest). cbn zeta in IH.
      destruct (checkAll rest rl) as [oks rl2]. cbn [fst snd] in *.
      destruct IH as (A & B & C).
      assert (L : Z.to_nat (requests - current rl) = 0%nat) by lia.
      rewrite L in *. rewrite Nat.min_0_r in *. cbn [repeat app] in *.
      rewrite Nat.sub_0_r in *. cbn [List.length repeat].
      rewrite A. repeat split; [lia | exact C].
    + set (rl1 := {| current := (current rl + 1)%Z; resetTime := resetTime rl |}).
      assert (Hrest' : Forall (fun t => (t <= resetTime rl1)%Z) rest) by exact Hrest.
      specialize (IH rl1 Hrest'). cbn zeta in IH.
      destruct (checkAll rest rl1) as [oks rl2]. cbn [fst snd] in *.
      destruct IH as (A & B & C). cbn [current resetTime rl1] in *.
      assert (L : Z.to_nat (requests - current rl)
                  = S (Z.to_nat (requests - (current rl + 1)))) by lia.
      rewrite L. cbn [List.length Nat.min repeat app Nat.sub].
      rewrite A. repeat split; [lia | exact C].
Qed.

Lemma rate_limit_admits_up_to_quota_witness :
  fst (checkAll (repeat 5%Z 3) {| current := 98; resetTime := 10 |})
  = [true; true; false].
Proof.
  apply (proj1 (rate_limit_admits_up_to_quota (repeat 5%Z 3)
                  {| current := 98; resetTime := 10 |}
                  ltac:(repeat constructor; cbn; lia))).
Defined.

(** X2: a call later than the reset time is always admitted and opens a
    window of 60 seconds in which it is the first call; a refused call
    changes nothing; and whatever the calls and their times, a counter that
    is at most 100 stays at most 100. *)
Theorem rate_limit_window_restarts (rl : RateLimit) :
  (forall now : Z,
      (resetTime rl < now)%Z ->
      checkRateLimit now rl
      = (true, {| current := 1; resetTime := (now + 60000)%Z |}))
  /\ (forall now : Z,
      (now <= resetTime rl)%Z ->
      fst (checkRateLimit now rl) = false ->
      snd (checkRateLimit now rl) = rl)
  /\ (forall times : list Z,
      (current rl <= 100)%Z ->
      (current (snd (checkAll times rl)) <= 100)%Z).
Proof.
  split; [|split].
  - intros now H. unfold checkRateLimit.
    assert (E : (now >? resetTime rl)%Z = true) by lia.
    rewrite E. reflexivity.
  - intros now H. rewrite (checkRateLimit_in_window now rl H).
    destruct (current rl >=? requests)%Z; [reflexivity | discriminate].
  - intro times. revert rl. induction times as [|now rest IH]; intros rl H.
    + exact H.
    + cbn [checkAll].
      destruct (checkRateLimit now rl) as [ok rl1] eqn:E.
      assert (H1 : (current rl1 <= 100)%Z).
      { unfold checkRateLimit in E.
        destruct (now >? resetTime rl)%Z;
          [cbn [current] in E | ];
          match type of E with
          | (if ?c then _ else _) = _ => destruct c eqn:C
          end; inversion E; subst; cbn [current]; unfold requests in *; lia. }
      specialize (IH rl1 H1).
      destruct (checkAll rest rl1) as [oks rl2]. exact IH.
Qed.

Lemma rate_limit_window_restarts_witness :
  checkRateLimit 61 {| current := 100; resetTime := 60 |}
  = (true, {| current := 1; resetTime := 60061 |})
  /\ (current (snd (checkAll [1; 2; 70; 71]%Z {| current := 100; resetTime := 60 |}))
      <= 100)%Z.
Proof.
  destruct (rate_limit_window_restarts {| current := 100; resetTime := 60 |})
    as (A & _ & C).
  split; [apply A; cbn; lia | apply C; cbn; lia].
Defined.

End RateLimitFacts.

(** ** The hub client: response cache *)

Section CacheFacts.

Import HubClient.

Lemma get_set_same (cache : Cache) (key : string) (c : Cached) :
  get (set cache key c) key = Some c.
Proof.
  induction cache as [|[k old] rest IH]; cbn.
  - rewrite String.eqb_refl. reflexivity.
  - destruct (String.eqb k key) eqn:E; cbn; rewrite E; [reflexivity | exact IH].
Qed.

Lemma get_set_other (cache : Cache) (key other : string) (c : Cached) :
  other <> key -> get (set cache key c) other = get cache other.
Proof.
  intro N. induction cache as [|[k old] rest IH]; cbn.
  - destruct (String.eqb key other) eqn:E; [|reflexivity].
    apply String.eqb_eq in E. congruence.
  - destruct (String.eqb k key) eqn:E; cbn.
    + apply String.eqb_eq in E. subst k.
      destruct (String.eqb key other) eqn:E2; [|reflexivity].
      apply String.eqb_eq in E2. congruence.
    + destruct (String.eqb k other); [reflexivity | exact IH].
Qed.

Lemma get_absent (cache : Cache) (key : string) :
  ~ In key (map fst cache) -> get cache key = None.
Proof.
  induction cache as [|[k c] rest IH]; cbn; intro H; [reflexivity|].
  destruct (String.eqb k key) eqn:E.
  - apply String.eqb_eq in E. tauto.
  - apply IH. tauto.
Qed.

Lemma delete_keys (cache : Cache) (key k : string) :
  In k (map fst (delete cache key)) -> In k (map fst cache).
Proof.
  induction cache as [|[a c] rest IH]; cbn; [tauto|].
  destruct (String.eqb a key); cbn; tauto.
Qed.

Lemma delete_wellFormed (cache : Cache) (key : string) :
  wellFormed cache -> wellFormed (delete cache key).
Proof.
  unfold wellFormed. induction cache as [|[a c] rest IH]; cbn; intro H; [exact H|].
  inversion H as [|x l Hn Hr]; subst.
  destruct (String.eqb a key); cbn; [exact Hr|].
  constructor; [|apply IH; exact Hr].
  intro C. apply Hn. eapply delete_keys. exact C.
Qed.

Lemma get_delete_same (cache : Cache) (key : string) :
  wellFormed cache -> get (delete cache key) key = None.
Proof.
  unfold wellFormed. induction cache as [|[a c] rest IH]; cbn; intro H; [reflexivity|].
  inversion H as [|x l Hn Hr]; subst.
  destruct (String.eqb a key) eqn:E; cbn.
  - apply String.eqb_eq in E. subst a. apply get_absent. exact Hn.
  - rewrite E. apply IH. exact Hr.
Qed.

Lemma get_delete_other (cache : Cache) (key other : string) :
  other <> key -> get (delete cache key) other = get cache other.
Proof.
  intro N. induction cache as [|[a c] rest IH]; cbn; [reflexivity|].
  destruct (String.eqb a key) eqn:E; cbn.
  - apply String.eqb_eq in E. subst a.
    destruct (String.eqb key other) eqn:E2; [|reflexivity].
    apply String.eqb_eq in E2. congruence.
  - destruct (String.eqb a other); [reflexivity | exact IH].
Qed.

Lemma set_keys (cache : Cache) (key k : string) (c : Cached) :
  In k (map fst (set cache key c)) -> k = key \/ In k (map fst cache).
Proof.
  induction cache as [|[a old] rest IH]; cbn.
  - intros [H|[]]. left. symmetry. exact H.
  - destruct (String.eqb a key) eqn:E; cbn.
    + tauto.
    + intros [H|H]; [tauto|]. destruct (IH H); tauto.
Qed.

Lemma set_wellFormed (cache : Cache) (key : string) (c : Cached) :
  wellFormed cache -> wellFormed (set cache key c).
Proof.
  unfold wellFormed. induction cache as [|[a old] rest IH]; cbn; intro H.
  - constructor; [intros [] | constructor].
  - inversion H as [|x l Hn Hr]; subst.
    destruct (String.eqb a key) eqn:E; cbn; [exact H|].
    constructor; [|apply IH; exact Hr].
    intro C. destruct (set_keys _ _ _ _ C) as [C1|C1]; [|tauto].
    subst a. rewrite String.eqb_refl in E. discriminate.
Qed.

Lemma lookup_after_store (t now : Z) (key : string) (d : Serialize.value)
      (cache : Cache) :
  (now < t + 1800000)%Z ->
  getCachedData now key (setCachedData t key d cache)
  = (d, setCachedData t key d cache).
Proof.
  intro H. unfold getCachedData, setCachedData. rewrite get_set_same.
  cbn [expires data].
  assert (E : (t + CACHE_TTL >? now)%Z = true) by (unfold CACHE_TTL; lia).
  rewrite E. reflexivity.
Qed.

Lemma lookup_wellFormed (now : Z) (key : string) (cache : Cache) :
  wellFormed cache -> wellFormed (snd (getCachedData now key cache)).
Proof.
  intro W. unfold getCachedData. destruct (get cache key) as [c|]; [|exact W].
  destruct (expires c >? now)%Z; [exact W | apply delete_wellFormed; exact W].
Qed.

(** X3: what [setCachedData] stores at time [t] is what [getCachedData]
    returns for the same key at any time before [t] plus 30 minutes, leaving
    the cache as it is; from that moment on the lookup returns [null] and
    removes the entry; entries under other keys are not touched by the
    store. *)
Theorem cache_round_trip (t : Z) (key : string) (d : Serialize.value) (cache : Cache) :
  wellFormed cache ->
  let stored := setCachedData t key d cache in
  (forall now : Z,
      (now < t + 1800000)%Z -> getCachedData now key stored = (d, stored))
  /\ (forall now : Z,
      (t + 1800000 <= now)%Z ->
      fst (getCachedData now key stored) = Serialize.VNull
      /\ get (snd (getCachedData now key stored)) key = None)
  /\ (forall other : string, other <> key -> get stored other = get cache other)
  /\ wellFormed stored.
Proof.
  intros W stored.
  assert (G : get stored key = Some {| data := d; expires := (t + CACHE_TTL)%Z |})
    by apply get_set_same.
  assert (W' : wellFormed stored) by (apply set_wellFormed; exact W).
  split; [|split; [|split]].
  - intros now H. apply lookup_after_store. exact H.
  - intros now H. unfold getCachedData. rewrite G. cbn [expires data].
    assert (E : (t + CACHE_TTL >? now)%Z = false) by (unfold CACHE_TTL; lia).
    rewrite E. cbn [fst snd]. split; [reflexivity|].
    apply get_delete_same. exact W'.
  - intros other N. apply get_set_other. exact N.
  - exact W'.
Qed.

Lemma cache_round_trip_witness :
  getCachedData 1799999 "/models/a:{}"
    (setCachedData 0 "/models/a:{}" (Serialize.VString "a") [])
  = (Serialize.VString "a", setCachedData 0 "/models/a:{}" (Serialize.VString "a") []).
Proof.
  apply (proj1 (cache_round_trip 0 "/models/a:{}" (Serialize.VString "a") []
                  ltac:(constructor))).
  lia.
Defined.

(** X4: a lookup never returns an entry that has expired: what it returns
    other than [null] is the data of an entry for that key that expires
    later than now, and the cache stays as it is; an entry that expires now
    or earlier is removed by the lookup; entries under other keys stay. *)
Theorem cache_lookup_never_expired (now : Z) (key : string) (cache : Cache) :
  wellFormed cache ->
  let v := fst (getCachedData now key cache) in
  let cache' := snd (getCachedData now key cache) in
  (v <> Serialize.VNull ->
   exists c : Cached,
     get cache key = Some c /\ data c = v /\ (now < expires c)%Z /\ cache' = cache)
  /\ (forall c : Cached,
      get cache key = Some c -> (expires c <= now)%Z ->
      v = Serialize.VNull /\ get cache' key = None)
  /\ (forall other : string, other <> key -> get cache' other = get cache other)
  /\ wellFormed cache'.
Proof.
  intros W v cache'. subst v cache'. unfold getCachedData.
  destruct (get cache key) as [c|] eqn:G.
  - destruct (expires c >? now)%Z eqn:E; cbn [fst snd].
    + split; [|split; [|split]].
      * intros _. exists c. repeat split. lia.
      * intros c' Hc Hle. inversion Hc; subst. lia.
      * reflexivity.
      * exact W.
    + split; [|split; [|split]].
      * intro N. contradiction.
      * intros c' _ _. split; [reflexivity | apply get_delete_same; exact W].
      * intros other N. apply get_delete_other. exact N.
      * apply delete_wellFormed. exact W.
  - cbn [fst snd]. split; [|split; [|split]].
    + intro N. contradiction.
    + intros c' Hc. discriminate.
    + reflexivity.
    + exact W.
Qed.

Lemma cache_lookup_never_expired_witness :
  fst (getCachedData 5 "k" [("k"%string, {| data := Serialize.VString "old"; expires := 5 |})])
  = Serialize.VNull
  /\ get (snd (getCachedData 5 "k"
                 [("k"%string, {| data := Serialize.VString "old"; expires := 5 |})])) "k"
     = None.
Proof.
  apply (proj1 (proj2 (cache_lookup_never_expired 5 "k"
           [("k"%string, {| data := Serialize.VString "old"; expires := 5 |})]
           ltac:(repeat constructor; cbn; tauto)))
           {| data := Serialize.VString "old"; expires := 5 |}).
  - reflexivity.
  - cbn. lia.
Defined.

End CacheFacts.

(** ** The hub client: requests *)

Section RequestFacts.

Import HubClient.

(** X5: every call of [makeHuggingFaceRequest] goes through the limiter
    first: the limiter afterwards is the one [checkRateLimit] leaves, also
    when the answer comes from the cache or the call fails.  A call the
    limiter refuses throws the rate-limit error and leaves the cache alone,
    whatever the cache holds; an admitted call without an API key throws
    the configuration error and leaves the cache alone. *)
Theorem request_passes_the_limiter_first
        (env : Env) (endpoint optionsJson : string) (rl : RateLimit) (cache : Cache) :
  let result := makeHuggingFaceRequest env endpoint optionsJson (rl, cache) in
  fst (snd result) = snd (checkRateLimit (atCheck env) rl)
  /\ (fst (checkRateLimit (atCheck env) rl) = false ->
      fst result = Thrown RateLimitExceeded /\ snd (snd result) = cache)
  /\ (fst (checkRateLimit (atCheck env) rl) = true ->
      RssParser.truthy (apiKey env) = None ->
      fst result = Thrown KeyNotConfigured /\ snd (snd result) = cache).
Proof.
  cbn zeta. unfold makeHuggingFaceRequest.
  destruct (checkRateLimit (atCheck env) rl) as [ok rl1]. cbn [fst snd].
  destruct ok; cbn [negb].
  - destruct (RssParser.truthy (apiKey env)) as [k|].
    + destruct (getCachedData (atLookup env) (cacheKeyOf endpoint optionsJson) cache)
        as [cached cache1].
      destruct (truthyValue cached); [|destruct (fetch env endpoint optionsJson)];
        cbn [fst snd]; repeat split; intros; discriminate.
    + cbn [fst snd]. repeat split. intros; discriminate.
  - cbn [fst snd]. repeat split. intros; discriminate.
Qed.

Lemma request_passes_the_limiter_first_witness :
  let env := {| apiKey := Some "hf_key"%string; atCheck := 5; atLookup := 5;
                atStore := 6; fetch := fun _ _ => Ok (Serialize.VString "fresh") |} in
  let cache := setCachedData 0 (cacheKeyOf "/models" "{}") (Serialize.VString "kept") [] in
  let result := makeHuggingFaceRequest env "/models" "{}"
                  ({| current := 100; resetTime := 10 |}, cache) in
  fst result = Thrown RateLimitExceeded /\ snd (snd result) = cache.
Proof.
  intros env cache.
  apply (proj1 (proj2 (request_passes_the_limiter_first env "/models" "{}"
                         {| current := 100; resetTime := 10 |} cache))).
  reflexivity.
Defined.

(** X6: an answer fetched with success is stored under the request's cache
    key, and a later call for the same endpoint and options that the limiter
    admits, with a key configured, less than 30 minutes after the store,
    returns that answer whatever the network would say then, when the
    answer is one JavaScript takes for true. *)
Theorem request_replays_cached_answer
        (env1 env2 : Env) (endpoint optionsJson : string)
        (rl : RateLimit) (cache : Cache) (json : Serialize.value) :
  fst (checkRateLimit (atCheck env1) rl) = true ->
  RssParser.truthy (apiKey env1) <> None ->
  truthyValue (fst (getCachedData (atLookup env1)
                      (cacheKeyOf endpoint optionsJson) cache)) = false ->
  fetch env1 endpoint optionsJson = Ok json ->
  truthyValue json = true ->
  let first := makeHuggingFaceRequest env1 endpoint optionsJson (rl, cache) in
  fst (checkRateLimit (atCheck env2) (fst (snd first))) = true ->
  RssParser.truthy (apiKey env2) <> None ->
  (atLookup env2 < atStore env1 + 1800000)%Z ->
  fst first = Returned json
  /\ fst (makeHuggingFaceRequest env2 endpoint optionsJson (snd first)) = Returned json.
Proof.
  intros A1 K1 M1 F1 T first.
  assert (E1 : first
               = (Returned json,
                  (snd (checkRateLimit (atCheck env1) rl),
                   setCachedData (atStore env1) (cacheKeyOf endpoint optionsJson) json
                     (snd (getCachedData (atLookup env1)
                             (cacheKeyOf endpoint optionsJson) cache))))).
  { subst first. unfold makeHuggingFaceRequest.
    destruct (checkRateLimit (atCheck env1) rl) as [ok rl1]. cbn [fst snd] in *.
    subst ok. cbn [negb].
    destruct (RssParser.truthy (apiKey env1)) as [k|]; [|congruence].
    destruct (getCachedData (atLookup env1) (cacheKeyOf endpoint optionsJson) cache)
      as [cached cache1].
    cbn [fst snd] in *. rewrite M1, F1. reflexivity. }
  rewrite E1. cbn [fst snd]. intros A2 K2 L.
  split; [reflexivity|].
  unfold makeHuggingFaceRequest.
  destruct (checkRateLimit (atCheck env2) (snd (checkRateLimit (atCheck env1) rl)))
    as [ok rl2]. cbn [fst] in A2. subst ok. cbn [negb].
  destruct (RssParser.truthy (apiKey env2)) as [k|]; [|congruence].
  rewrite (lookup_after_store (atStore env1) (atLookup env2) _ json _ L).
  rewrite T. reflexivity.
Qed.

Lemma request_replays_cached_answer_witness :
  let env1 := {| apiKey := Some "hf_key"%string; atCheck := 5; atLookup := 5;
                 atStore := 9; fetch := fun _ _ => Ok (Serialize.VArray []) |} in
  let env2 := {| apiKey := Some "hf_key"%string; atCheck := 1000; atLookup := 1000;
                 atStore := 1001; fetch := fun _ _ => Rejected "offline" |} in
  let first := makeHuggingFaceRequest env1 "/models" "{}"
                 ({| current := 0; resetTime := 10 |}, []) in
  fst first = Returned (Serialize.VArray [])
  /\ fst (makeHuggingFaceRequest env2 "/models" "{}" (snd first))
     = Returned (Serialize.VArray []).
Proof.
  intros env1 env2.
  apply (request_replays_cached_answer env1 env2 "/models" "{}"
           {| current := 0; resetTime := 10 |} [] (Serialize.VArray []));
    try reflexivity; try (cbn; discriminate); try (cbn; lia).
Defined.

End RequestFacts.

(** ** The hub client: statistics and model size *)

Section StatsFacts.

Import HubClient.

(** X7: the score of [getModelStats] is the adapter's score of the same
    download and like counts with the trending flag replaced by
    downloads > 100,000: the two scores are equal when the hub's flag agrees
    with that test and 10 apart when it does not; with non-negative counts
    the score is within [0,100]; when the details request fails every
    statistic is 0. *)
Theorem stats_score_follows_adapter
        (hf : HuggingFace.HuggingFaceModel) (details : HuggingFaceModelDetails) :
  d_downloads details = HuggingFace.downloads hf ->
  d_likes details = HuggingFace.likes hf ->
  let stats := getModelStats (Some details) in
  let adapter :=
    HuggingFace.huggingFaceScore (HuggingFace.transformHuggingFaceModel hf) in
  (s_trending stats = true <-> 100000 < HuggingFace.downloads hf)
  /\ (HuggingFace.trending hf = s_trending stats -> score stats == adapter)
  /\ (HuggingFace.trending hf = true -> s_trending stats = false ->
      score stats + 10 == adapter)
  /\ (HuggingFace.trending hf = false -> s_trending stats = true ->
      score stats == adapter + 10)
  /\ (0 <= HuggingFace.downloads hf -> 0 <= HuggingFace.likes hf ->
      0 <= score stats <= 100)
  /\ getModelStats None
     = {| s_downloads := 0; s_likes := 0; s_trending := false; score := 0 |}.
Proof.
  intros Hd Hl stats adapter. subst stats adapter.
  unfold getModelStats. cbn [score s_trending].
  cbn [HuggingFace.transformHuggingFaceModel HuggingFace.huggingFaceScore].
  unfold HuggingFace.downloadScore, HuggingFace.likeScore, HuggingFace.trendingBonus,
    HuggingFace.maxDownloads.
  rewrite Hd, Hl.
  set (ds := Js.Math_min (HuggingFace.downloads hf / 10000000 * 70) 70).
  set (ls := Js.Math_min (HuggingFace.likes hf / 1000 * 20) 20).
  assert (T : Js.gtb (if Js.gtb (HuggingFace.downloads hf) 100000 then 10 else 0) 0
              = Js.gtb (HuggingFace.downloads hf) 100000).
  { destruct (Js.gtb (HuggingFace.downloads hf) 100000); reflexivity. }
  rewrite T.
  split; [apply gtb_gt|].
  split.
  { intro E. rewrite E.
    destruct (Js.gtb (HuggingFace.downloads hf) 100000); reflexivity. }
  split.
  { intros E1 E2. rewrite E1, E2. ring. }
  split.
  { intros E1 E2. rewrite E1, E2. ring. }
  split; [|reflexivity].
  intros H0 H1.
  pose proof (downloadScore_range hf H0) as A.
  pose proof (likeScore_range hf H1) as B.
  unfold HuggingFace.downloadScore, HuggingFace.likeScore,
    HuggingFace.maxDownloads in A, B.
  fold ds in A. fold ls in B.
  destruct (Js.gtb (HuggingFace.downloads hf) 100000); split; qlra.
Qed.

Lemma stats_score_follows_adapter_witness :
  score (getModelStats (Some {| d_id := "org/model"; d_downloads := 1000000;
                                d_likes := 500 |}))
  == HuggingFace.huggingFaceScore
       (HuggingFace.transformHuggingFaceModel HuggingFace.scenarioModel).
Proof.
  apply (proj1 (proj2 (stats_score_follows_adapter HuggingFace.scenarioModel
           {| d_id := "org/model"; d_downloads := 1000000; d_likes := 500 |}
           eq_refl eq_refl))).
  reflexivity.
Defined.

Lemma sum_from (files : list Sibling) (acc : Q) :
  fold_left (fun total file => total + sizeOrZero file) files acc
  == acc + fold_left (fun total file => total + sizeOrZero file) files 0.
Proof.
  revert acc. induction files as [|f rest IH]; intro acc; cbn [fold_left].
  - ring.
  - rewrite (IH (acc + sizeOrZero f)), (IH (0 + sizeOrZero f)). ring.
Qed.

Lemma calculateModelSize_fold (files : list Sibling) :
  calculateModelSize (Some files)
  == fold_left (fun total file => total + sizeOrZero file) files 0.
Proof. destruct files; reflexivity. Qed.

Lemma calculateModelSize_cons (f : Sibling) (files : list Sibling) :
  calculateModelSize (Some (f :: files))
  == sizeOrZero f + calculateModelSize (Some files).
Proof.
  rewrite !calculateModelSize_fold. cbn [fold_left].
  rewrite sum_from. ring.
Qed.

(** X8: the model size is the sum of the sizes that the sibling files
    carry: it is additive over a split of the file list, files without a
    size add nothing (dropping them changes nothing), it is 0 for a missing
    or empty list, and it is not negative when no size is. *)
Theorem model_size_is_sum_of_sizes (a b : list Sibling) :
  calculateModelSize (Some (a ++ b))
  == calculateModelSize (Some a) + calculateModelSize (Some b)
  /\ calculateModelSize
       (Some (filter (fun f => match size f with Some _ => true | None => false end) a))
     == calculateModelSize (Some a)
  /\ calculateModelSize None == 0
  /\ (Forall (fun f => forall n, size f = Some n -> 0 <= n) a ->
      0 <= calculateModelSize (Some a)).
Proof.
  split; [|split; [|split]].
  - induction a as [|f rest IH].
    + cbn [app]. rewrite (calculateModelSize_fold []). cbn. ring.
    + cbn [app]. rewrite !calculateModelSize_cons, IH. ring.
  - induction a as [|f rest IH]; [reflexivity|].
    cbn [filter]. destruct (size f) as [n|] eqn:E.
    + rewrite !calculateModelSize_cons, IH. reflexivity.
    + rewrite calculateModelSize_cons, IH. unfold sizeOrZero. rewrite E. ring.
  - reflexivity.
  - induction 1 as [|f rest Hf _ IH].
    + cbn. qlra.
    + rewrite calculateModelSize_cons.
      assert (S0 : 0 <= sizeOrZero f).
      { unfold sizeOrZero. destruct (size f) as [n|]; [|qlra].
        rewrite or_zero_id. apply Hf. reflexivity. }
      qlra.
Qed.

Lemma model_size_is_sum_of_sizes_witness :
  0 <= calculateModelSize
         (Some [{| filename := "model.safetensors"; size := Some 500 |};
                {| filename := "README.md"; size := None |}]).
Proof.
  apply (proj2 (proj2 (proj2 (model_size_is_sum_of_sizes
           [{| filename := "model.safetensors"; size := Some 500 |};
            {| filename := "README.md"; size := None |}] [])))).
  repeat constructor; intros n E; inversion E; subst; vm_compute; discriminate.
Defined.

End StatsFacts.

(** ** The repository's trending score *)

Section TrendingFacts.

Import GitHubTrending.

Lemma matchingTopics_length (this : IGitHubRepository) :
  (List.length (matchingTopics this) <= List.length (topics this))%nat.
Proof. unfold matchingTopics. apply filter_length_le. Qed.

(** Before rounding the score is at most 24.5 plus a fifth of the number of
    topics, whatever the logarithm returns. *)
Lemma calculateTrendingScore_le (log10 : Q -> Q) (now : Q) (this : IGitHubRepository) :
  0 <= openIssuesCount this ->
  (forall t, pushedAt this = Some t -> t <= now) ->
  calculateTrendingScore log10 now this
  <= 25 + (1 # 5) * inject_Z (Z.of_nat (List.length (topics this))).
Proof.
  intros Hi Hp. unfold calculateTrendingScore.
  eapply Qle_trans; [apply Q.le_min_l|].
  eapply Qle_trans; [apply (proj2 (Math_round_near _))|].
  unfold Js.Math_min, Js.Math_max.
  pose proof (Q.le_min_r (log10 (stargazersCount this + 1) * 10) 40) as A.
  pose proof (Q.le_min_r (log10 (forksCount this + 1) * 5) 20) as B.
  assert (C : Qmax (15 - openIssuesCount this / 10) 0 <= 15).
  { apply Q.max_lub; [|qlra].
    assert (E : openIssuesCount this / 10 == openIssuesCount this * (1 # 10)) by field.
    rewrite E. qlra. }
  assert (D : Qmax (15 - match pushedAt this with
                         | Some t => (now - t) / (1000 * 60 * 60 * 24)
                         | None => 365
                         end / 7) 0 <= 15).
  { apply Q.max_lub; [|qlra].
    destruct (pushedAt this) as [t|] eqn:P.
    - specialize (Hp t eq_refl).
      assert (E : (now - t) / (1000 * 60 * 60 * 24) / 7
                  == (now - t) * (1 # 604800000)) by field.
      rewrite E. qlra.
    - assert (E : 365 / 7 == 365 # 7) by reflexivity. rewrite E. qlra. }
  assert (T : inject_Z (Z.of_nat (List.length (matchingTopics this)))
              <= inject_Z (Z.of_nat (List.length (topics this)))).
  { rewrite <- Zle_Qle. apply inj_le. apply matchingTopics_length. }
  set (a := Qmin (log10 (stargazersCount this + 1) * 10) 40) in *.
  set (b := Qmin (log10 (forksCount this + 1) * 5) 20) in *.
  set (c := Qmax (15 - openIssuesCount this / 10) 0) in *.
  set (d := Qmax _ 0) in D |- *.
  set (m := inject_Z (Z.of_nat (List.length (matchingTopics this)))) in *.
  set (n := inject_Z (Z.of_nat (List.length (topics this)))) in *.
  qlra.
Qed.

(** X9: the trending score of a repository with a non-negative count of
    open issues and a last push that is not in the future is at most
    25 + topics/5, whatever its stars and forks; with fewer than 225 topics
    it is below 70, so the pre-save hook marks the repository as trending
    exactly when its daily stars are 10 or more. *)
Theorem trending_score_stays_low
        (log10 : Q -> Q) (now1 now2 : Q) (this : IGitHubRepository) :
  0 <= openIssuesCount this ->
  (forall t, pushedAt this = Some t -> t <= now1) ->
  (List.length (topics this) < 225)%nat ->
  calculateTrendingScore log10 now1 this
  <= 25 + (1 # 5) * inject_Z (Z.of_nat (List.length (topics this)))
  /\ calculateTrendingScore log10 now1 this < 70
  /\ trending (pre_save log10 now1 now2 this) = Js.geb (dailyStars this) 10.
Proof.
  intros Hi Hp Hn.
  pose proof (calculateTrendingScore_le log10 now1 this Hi Hp) as B.
  assert (N : inject_Z (Z.of_nat (List.length (topics this))) <= 224).
  { change 224 with (inject_Z 224). rewrite <- Zle_Qle. lia. }
  assert (L : calculateTrendingScore log10 now1 this < 70) by qlra.
  split; [exact B|]. split; [exact L|].
  cbn [pre_save trending].
  assert (G : Js.geb (calculateTrendingScore log10 now1 this) 70 = false).
  { unfold Js.geb. destruct (Qle_bool 70 _) eqn:E; [|reflexivity].
    apply Qle_bool_iff in E. exfalso. exact (Qlt_not_le _ _ L E). }
  rewrite G. reflexivity.
Qed.

Lemma trending_score_stays_low_witness :
  calculateTrendingScore log10Floor 1700000000000 sampleRepository < 70
  /\ trending (pre_save log10Floor 1700000000000 1700000000001 sampleRepository)
     = Js.geb (dailyStars sampleRepository) 10.
Proof.
  apply (proj2 (trending_score_stays_low log10Floor 1700000000000 1700000000001
                  sampleRepository
                  ltac:(vm_compute; discriminate)
                  ltac:(intros t E; inversion E; subst; vm_compute; discriminate)
                  ltac:(cbn; lia))).
Defined.

(** X10: with at most 20 topics (and the same two preconditions) the
    trending score is at most 29, and the final score, which blends it with
    a user score of at most 100, is at most 40 of the 100 that the schema
    allows. *)
Theorem repository_final_score_at_most_40
        (log10 : Q -> Q) (now : Q) (this : IGitHubRepository) :
  0 <= openIssuesCount this ->
  (forall t, pushedAt this = Some t -> t <= now) ->
  (List.length (topics this) <= 20)%nat ->
  userScore this <= 100 ->
  calculateTrendingScore log10 now this <= 29
  /\ calculateFinalScore log10 now this <= 40.
Proof.
  intros Hi Hp Hn Hu.
  pose proof (calculateTrendingScore_le log10 now this Hi Hp) as B.
  assert (N : inject_Z (Z.of_nat (List.length (topics this))) <= 20).
  { change 20 with (inject_Z 20). rewrite <- Zle_Qle. lia. }
  assert (L : calculateTrendingScore log10 now this <= 29) by qlra.
  split; [exact L|].
  unfold calculateFinalScore.
  assert (R : GitHubRepository.calculateFinalScore 29 100 == 40)
    by (vm_compute; reflexivity).
  rewrite <- R. apply calculateFinalScore_mono; assumption.
Qed.

Lemma repository_final_score_at_most_40_witness :
  calculateFinalScore log10Floor 1700000000000 sampleRepository <= 40.
Proof.
  apply (proj2 (repository_final_score_at_most_40 log10Floor 1700000000000
                  sampleRepository
                  ltac:(vm_compute; discriminate)
                  ltac:(intros t E; inversion E; subst; vm_compute; discriminate)
                  ltac:(cbn; lia)
                  ltac:(vm_compute; discriminate))).
Defined.

End TrendingFacts.

(** ** Sync health and the sync schedule of an account *)

Section SyncSchedule.

Import XAccount.

Lemma markSyncError_lastSyncAt (e : string) (a : IXAccount) :
  lastSyncAt (markSyncError e a) = lastSyncAt a.
Proof.
  unfold markSyncError.
  rewrite (proj2 (proj2 (proj2 (save_keeps_health _)))). reflexivity.
Qed.

Lemma markSyncSuccess_enabled (now : Z) (a : IXAccount) :
  isEnabled (markSyncSuccess now a) = isEnabled a.
Proof.
  unfold markSyncSuccess. rewrite (proj1 (save_keeps_health _)). reflexivity.
Qed.

Lemma markSyncSuccess_lastSyncAt (now : Z) (a : IXAccount) :
  lastSyncAt (markSyncSuccess now a) = Some now.
Proof.
  unfold markSyncSuccess.
  rewrite (proj2 (proj2 (proj2 (save_keeps_health _)))). reflexivity.
Qed.

(** X11: no recorded run enables an account: once the enabled flag is
    false (after the fifth failure, or set by an administrator) it stays
    false through every sequence of succeeded and failed runs, and
    [needsSync] answers false at every time. *)
Theorem disabled_account_stays_disabled (a : IXAccount) (rs : list SyncRun) :
  isEnabled a = false ->
  isEnabled (recordRuns a rs) = false
  /\ forall now : Z, needsSync now (recordRuns a rs) = false.
Proof.
  intro H.
  assert (E : isEnabled (recordRuns a rs) = false).
  { revert a H. induction rs as [|r rest IH]; intros a H; [exact H|].
    unfold recordRuns in *. cbn [fold_left]. apply IH.
    destruct r as [now|e]; cbn [recordRun].
    - rewrite markSyncSuccess_enabled. exact H.
    - rewrite markSyncError_enabled, H.
      destruct (syncErrorCount a + 1 >=? 5)%Z; reflexivity. }
  split; [exact E|].
  intro now. unfold needsSync. rewrite E. reflexivity.
Qed.

Lemma disabled_account_stays_disabled_witness :
  isEnabled
    (recordRuns
       {| handle := "lab"; isEnabled := false; lastSyncAt := None;
          syncErrorCount := 5; lastSyncError := Some "timeout"%string |}
       [Succeeded 1700000000000; Succeeded 1700003600001])
  = false.
Proof.
  apply (proj1 (disabled_account_stays_disabled
                  {| handle := "lab"; isEnabled := false; lastSyncAt := None;
                     syncErrorCount := 5; lastSyncError := Some "timeout"%string |}
                  [Succeeded 1700000000000; Succeeded 1700003600001] eq_refl)).
Defined.

Lemma failures_keep_lastSyncAt (fails : list SyncRun) (a : IXAccount) :
  forallb isFailed fails = true ->
  lastSyncAt (recordRuns a fails) = lastSyncAt a.
Proof.
  revert a. induction fails as [|r rest IH]; intros a H; [reflexivity|].
  cbn [forallb] in H. apply andb_true_iff in H as [Hr Hrest].
  destruct r as [now|e]; [discriminate|].
  unfold recordRuns in *. cbn [fold_left recordRun].
  rewrite (IH _ Hrest). apply markSyncError_lastSyncAt.
Qed.

Lemma failures_enabled (fails : list SyncRun) (a : IXAccount) :
  forallb isFailed fails = true ->
  (0 <= syncErrorCount a)%Z ->
  isEnabled (recordRuns a fails)
  = match fails with
    | [] => isEnabled a
    | _ => isEnabled a
           && (syncErrorCount a + Z.of_nat (List.length fails) <? 5)%Z
    end.
Proof.
  revert a. induction fails as [|r rest IH]; intros a H H0; [reflexivity|].
  cbn [forallb] in H. apply andb_true_iff in H as [Hr Hrest].
  destruct r as [now|e]; [discriminate|].
  unfold recordRuns in *. cbn [fold_left recordRun].
  rewrite (IH (markSyncError e a) Hrest)
    by (rewrite markSyncError_count; lia).
  rewrite markSyncError_enabled, markSyncError_count.
  rewrite Z.geb_leb.
  destruct rest as [|r' rest']; cbn [List.length];
    repeat match goal with
           | |- context [(?x <=? ?y)%Z] => destruct (Z.leb_spec x y)
           | |- context [(?x <? ?y)%Z] => destruct (Z.ltb_spec x y)
           end;
    destruct (isEnabled a); cbn [andb]; try reflexivity; lia.
Qed.

(** X12: failed runs do not move the time of the last sync, so an enabled
    account that is due stays due after each failure and is tried again,
    until the failure that brings the counter to 5: from a counter of 0,
    after [n] consecutive failures [needsSync] answers as before when
    [n < 5] and false when [n >= 5]. *)
Theorem failing_account_due_until_fifth_failure
        (a : IXAccount) (fails : list SyncRun) (now : Z) :
  isEnabled a = true ->
  syncErrorCount a = 0%Z ->
  forallb isFailed fails = true ->
  needsSync now (recordRuns a fails)
  = if (List.length fails <? 5)%nat then needsSync now a else false.
Proof.
  intros He Hc Hf. unfold needsSync.
  rewrite (failures_keep_lastSyncAt fails a Hf).
  rewrite (failures_enabled fails a Hf) by lia.
  rewrite He, Hc. destruct fails as [|r rest].
  - reflexivity.
  - cbn [andb]. cbn [List.length].
    destruct (S (List.length rest) <? 5)%nat eqn:E.
    + apply Nat.ltb_lt in E.
      destruct (Z.ltb_spec (0 + Z.of_nat (S (List.length rest))) 5);
        [reflexivity | lia].
    + apply Nat.ltb_ge in E.
      destruct (Z.ltb_spec (0 + Z.of_nat (S (List.length rest))) 5);
        [lia | reflexivity].
Qed.

Lemma failing_account_due_until_fifth_failure_witness :
  needsSync 1700000000000
    (recordRuns (createXAccount "lab") [Failed "e1"; Failed "e2"; Failed "e3"; Failed "e4"])
  = true
  /\ needsSync 1700000000000
       (recordRuns (createXAccount "lab")
          [Failed "e1"; Failed "e2"; Failed "e3"; Failed "e4"; Failed "e5"])
     = false.
Proof.
  split.
  - apply (failing_account_due_until_fifth_failure (createXAccount "lab")
             [Failed "e1"; Failed "e2"; Failed "e3"; Failed "e4"] 1700000000000);
      reflexivity.
  - apply (failing_account_due_until_fifth_failure (createXAccount "lab")
             [Failed "e1"; Failed "e2"; Failed "e3"; Failed "e4"; Failed "e5"]
             1700000000000); reflexivity.
Defined.

(** X13: after a succeeded run recorded at time [t] an enabled account is
    due again exactly when more than one hour has passed: [needsSync] at
    [now] is true if and only if the account is enabled and
    [now - t > 3,600,000]; a failure recorded after the success does not
    change this as long as the account stays enabled. *)
Theorem synced_account_due_after_one_hour (a : IXAccount) (t now : Z) :
  (needsSync now (markSyncSuccess t a) = true
   <-> isEnabled a = true /\ (now - t > 3600000)%Z)
  /\ (forall e : string,
      needsSync now (markSyncError e (markSyncSuccess t a))
      = needsSync now (markSyncSuccess t a)).
Proof.
  split.
  - unfold needsSync.
    rewrite markSyncSuccess_enabled, markSyncSuccess_lastSyncAt.
    destruct (isEnabled a); cbn [negb].
    + split.
      * intro H. split; [reflexivity | lia].
      * intros [_ H]. lia.
    + split; [discriminate | intros [C _]; discriminate].
  - intro e. unfold needsSync.
    rewrite markSyncError_enabled, markSyncError_lastSyncAt, markSyncSuccess_count.
    reflexivity.
Qed.

End SyncSchedule.

(** ** What the serializer returns *)

Section SerializedShape.

Import Serialize SerializeShape.

Lemma setProp_forall (Q : string * value -> Prop) (obj : list (string * value))
      (k : string) (v : value) :
  Forall Q obj -> Q (k, v) -> Forall Q (setProp obj k v).
Proof.
  intros H Hv. unfold setProp. destruct (String.eqb k "__proto__"); [exact H|].
  induction H as [|[a w] rest Ha Hrest IH]; cbn [assign].
  - constructor; [exact Hv | constructor].
  - destruct (String.eqb a k) eqn:E.
    + apply String.eqb_eq in E. subst a. constructor; assumption.
    + constructor; assumption.
Qed.

Lemma eachItem_forall (Q : value -> Prop) (f : value -> value) (items : list value) :
  Forall (fun x => isUndefined (f x) = false -> Q (f x)) items ->
  Forall Q (eachItem f items).
Proof.
  induction 1 as [|x rest Hx _ IH]; cbn [eachItem]; [constructor|].
  fold (eachItem f). destruct (isUndefined (f x)) eqn:E; [exact IH|].
  constructor; [apply Hx; reflexivity | exact IH].
Qed.

Lemma eachEntry_forall (Q : string * value -> Prop) (options : SerializeOptions)
      (f : value -> value) (l obj : list (string * value)) :
  Forall (fun kv : string * value =>
            includes (omitKeys options) (fst kv) = false ->
            negb (isUndefined (f (snd kv))) || negb (stripUndefined options) = true ->
            Q (fst kv, f (snd kv))) l ->
  Forall Q obj ->
  Forall Q (eachEntry options f l obj).
Proof.
  intro H. revert obj. induction H as [|[k v] rest Hkv _ IH]; intros obj Ho.
  - exact Ho.
  - cbn [eachEntry]. fold (eachEntry options f). cbn [fst snd] in Hkv.
    destruct (includes (omitKeys options) k) eqn:O; [apply IH; exact Ho|].
    destruct (negb (isUndefined (f v)) || negb (stripUndefined options)) eqn:U;
      [|apply IH; exact Ho].
    apply IH. apply setProp_forall; [exact Ho|]. apply Hkv; reflexivity.
Qed.

Lemma forallb_Forall_pairs (p : value -> bool) (l : list (string * value)) :
  Forall (fun kv : string * value => p (snd kv) = true) l ->
  forallb (fun kv : string * value => let '(_, val) := kv in p val) l = true.
Proof.
  induction 1 as [|[k v] rest H _ IH]; [reflexivity|].
  cbn [forallb]. cbn [snd] in H. rewrite H, IH. reflexivity.
Qed.

Lemma serializeValue_json (options : SerializeOptions) (v : value) :
  stripUndefined options = true ->
  serializeValue options v = VUndefined \/ isJson (serializeValue options v) = true.
Proof.
  intro S.
  induction v as [| |s|n|b|r|iso|n|items IH|entries IH] using value_rect_nested;
    try (right; reflexivity); try (left; reflexivity).
  - destruct iso; right; reflexivity.
  - right. rewrite serializeValue_ObjectId. reflexivity.
  - right. cbn [serializeValue].
    destruct (coerceObjectIdString (VArray items)); [reflexivity|].
    cbn [isJson]. apply forallb_forall. apply Forall_forall.
    apply eachItem_forall.
    eapply Forall_impl; [|exact IH].
    intros x [Hx|Hx] U; [rewrite Hx in U; discriminate | exact Hx].
  - right. cbn [serializeValue].
    destruct (coerceObjectIdString (VObject entries)); [reflexivity|].
    cbn [isJson]. apply forallb_Forall_pairs.
    apply (eachEntry_forall (fun kv => isJson (snd kv) = true)); [|constructor].
    eapply Forall_impl; [|exact IH].
    intros [k x] Hx _ U. cbn [fst snd] in *.
    rewrite S in U. cbn in U. rewrite orb_false_r in U.
    destruct Hx as [Hx|Hx]; [rewrite Hx in U; discriminate | exact Hx].
Qed.

(** X14: whatever the document, and whatever keys are omitted, what
    [serializeDoc] returns with [stripUndefined] on (the default) is plain
    JSON data at every depth: it holds no [undefined], no function, no
    [Date] and no [ObjectId], and it is never [undefined] itself. *)
Theorem serializeDoc_returns_json (options : SerializeOptions) (doc : value) :
  stripUndefined options = true ->
  isJson (serializeDocWith options doc) = true.
Proof.
  intro S. unfold serializeDocWith.
  destruct (serializeValue_json options doc S) as [E|E].
  - rewrite E. reflexivity.
  - destruct (serializeValue options doc); try discriminate; exact E.
Qed.

Lemma serializeDoc_returns_json_witness :
  isJson (serializeDoc sampleDoc) = true.
Proof.
  apply (serializeDoc_returns_json DEFAULT_OPTIONS sampleDoc). reflexivity.
Defined.

Lemma existsb_false_Forall {A : Type} (p : A -> bool) (l : list A) :
  Forall (fun x => p x = false) l -> existsb p l = false.
Proof.
  induction 1 as [|x rest H _ IH]; [reflexivity|].
  cbn [existsb]. rewrite H, IH. reflexivity.
Qed.

(** X15: no object in what the serializer returns has an omitted key, at
    any depth: with the default options [__v] and [$__] are gone from the
    document and from every nested document and array element. *)
Theorem serializeDoc_omits_keys_at_every_depth (options : SerializeOptions) (doc : value) :
  hasKey (omitKeys options) (serializeDocWith options doc) = false.
Proof.
  assert (H : forall v, hasKey (omitKeys options) (serializeValue options v) = false).
  { intro v.
    induction v as [| |s|n|b|r|iso|n|items IH|entries IH] using value_rect_nested;
      try reflexivity.
    - destruct iso; reflexivity.
    - rewrite serializeValue_ObjectId. reflexivity.
    - cbn [serializeValue].
      destruct (coerceObjectIdString (VArray items)); [reflexivity|].
      cbn [hasKey]. apply existsb_false_Forall. apply eachItem_forall.
      eapply Forall_impl; [|exact IH]. intros x Hx _. exact Hx.
    - cbn [serializeValue].
      destruct (coerceObjectIdString (VObject entries)); [reflexivity|].
      cbn [hasKey].
      apply (existsb_false_Forall
               (fun kv : string * value =>
                  let '(key, val) := kv in
                  includes (omitKeys options) key || hasKey (omitKeys options) val)).
      assert (G : Forall (fun kv : string * value =>
                            includes (omitKeys options) (fst kv) = false
                            /\ hasKey (omitKeys options) (snd kv) = false)
                         (eachEntry options (serializeValue options) entries [])).
      { apply eachEntry_forall; [|constructor].
        eapply Forall_impl; [|exact IH].
        intros [k x] Hx O _. cbn [fst snd] in *. split; assumption. }
      eapply Forall_impl; [|exact G].
      intros [k x] [A B]. cbn [fst snd] in *. rewrite A, B. reflexivity. }
  unfold serializeDocWith. specialize (H doc).
  destruct (serializeValue options doc); try reflexivity; exact H.
Qed.

(** X16: a second pass is the identity on settled data: a value made of
    [null], strings, numbers, booleans, arrays and objects, in which no
    array or object is taken for an identifier and no object has an omitted
    key, the key [__proto__] or a repeated key, is returned by
    [serializeDoc] as it is.  An own key [__proto__] is not kept: the
    assignment [obj[key] = ...] does not make an own property of it. *)
Theorem serializeDoc_keeps_settled_data :
  (forall v : value, settled v = true -> serializeDoc v = v)
  /\ serializeDoc (VObject [("__proto__"%string, VNumber 1); ("a"%string, VNumber 2)])
     = VObject [("a"%string, VNumber 2)].
Proof.
  split; [|vm_compute; reflexivity].
  intros v S. unfold serializeDoc, serializeDocWith.
  rewrite (serializeValue_settled v S).
  destruct v; try reflexivity; discriminate.
Qed.

Lemma serializeDoc_keeps_settled_data_witness :
  serializeDoc (serializeDoc sampleDoc) = serializeDoc sampleDoc.
Proof.
  apply (proj1 serializeDoc_keeps_settled_data (serializeDoc sampleDoc)).
  vm_compute. reflexivity.
Defined.

End SerializedShape.

(** ** Content extraction and the parsed feed *)

Section ContentFacts.

Import JsString FeedParsing.

Local Open Scope string_scope.

Lemma hasClose_app (a b : string) : hasClose (a ++ b) = hasClose a || hasClose b.
Proof.
  induction a as [|c r IH]; [reflexivity|].
  cbn. rewrite IH. apply orb_assoc.
Qed.

Lemma stripFrom_no_close (s : string) : hasClose s = false -> stripFrom false s = s.
Proof.
  induction s as [|c r IH]; [reflexivity|].
  cbn. intro H. apply orb_false_iff in H as [_ H].
  rewrite H, andb_false_r, (IH H). reflexivity.
Qed.

Lemma stripFrom_tagFree (s : string) (inTag : bool) :
  tagFree (stripFrom inTag s) = true.
Proof.
  revert inTag. induction s as [|c r IH]; intro inTag; [reflexivity|].
  cbn [stripFrom]. destruct inTag.
  - destruct (Ascii.eqb c ">"); apply IH.
  - destruct (Ascii.eqb c "<") eqn:E; cbn [andb].
    + destruct (hasClose r) eqn:H; [apply IH|].
      cbn [tagFree]. rewrite E, (stripFrom_no_close r H), H. cbn.
      rewrite <- (stripFrom_no_close r H). apply IH.
    + cbn [tagFree]. rewrite E. cbn. apply IH.
Qed.

Lemma tagFree_app (a b : string) :
  tagFree (a ++ b) = true -> tagFree a = true /\ tagFree b = true.
Proof.
  induction a as [|c r IH]; [intro H; split; [reflexivity | exact H]|].
  cbn. intro H. apply andb_true_iff in H as [H1 H2].
  destruct (IH H2) as [Ha Hb]. split; [|exact Hb].
  rewrite Ha, andb_true_r.
  destruct (Ascii.eqb c "<"); [|reflexivity].
  rewrite hasClose_app in H1. destruct (hasClose r); [discriminate | reflexivity].
Qed.

Lemma tagFree_NoTag (s : string) : tagFree s = true -> NoTag s.
Proof.
  intros H a b c E. subst s.
  apply tagFree_app in H as [_ H]. cbn in H.
  apply andb_true_iff in H as [H _].
  rewrite hasClose_app in H. cbn in H. rewrite orb_true_r in H. discriminate.
Qed.

(** What [trimStart] returns is an end of its argument. *)
Lemma trimStart_suffix_bounded (n : nat) (s : string) :
  (String.length s <= n)%nat -> exists p, s = p ++ trimStart s.
Proof.
  revert s. induction n as [|n IH]; intros s L.
  - destruct s; [exists EmptyString; reflexivity | cbn in L; lia].
  - destruct s as [|c1 r1]; [exists EmptyString; reflexivity|].
    cbn [String.length] in L. cbn [trimStart].
    destruct (white1 c1).
    { destruct (IH r1 ltac:(lia)) as [p E]. exists (String c1 p).
      cbn. rewrite <- E. reflexivity. }
    destruct r1 as [|c2 r2]; [exists EmptyString; reflexivity|].
    cbn [String.length] in L.
    destruct (white2 c1 c2).
    { destruct (IH r2 ltac:(lia)) as [p E]. exists (String c1 (String c2 p)).
      cbn. rewrite <- E. reflexivity. }
    destruct r2 as [|c3 r3]; [exists EmptyString; reflexivity|].
    cbn [String.length] in L.
    destruct (white3 c1 c2 c3); [|exists EmptyString; reflexivity].
    destruct (IH r3 ltac:(lia)) as [p E].
    exists (String c1 (String c2 (String c3 p))). cbn. rewrite <- E. reflexivity.
Qed.

Lemma trimStart_suffix (s : string) : exists p, s = p ++ trimStart s.
Proof. apply (trimStart_suffix_bounded (String.length s)). lia. Qed.

Lemma trimReversed_suffix_bounded (n : nat) (s : string) :
  (String.length s <= n)%nat -> exists p, s = p ++ trimReversed s.
Proof.
  revert s. induction n as [|n IH]; intros s L.
  - destruct s; [exists EmptyString; reflexivity | cbn in L; lia].
  - destruct s as [|c1 r1]; [exists EmptyString; reflexivity|].
    cbn [String.length] in L. cbn [trimReversed].
    destruct (white1 c1).
    { destruct (IH r1 ltac:(lia)) as [p E]. exists (String c1 p).
      cbn. rewrite <- E. reflexivity. }
    destruct r1 as [|c2 r2]; [exists EmptyString; reflexivity|].
    cbn [String.length] in L.
    destruct (white2 c2 c1).
    { destruct (IH r2 ltac:(lia)) as [p E]. exists (String c1 (String c2 p)).
      cbn. rewrite <- E. reflexivity. }
    destruct r2 as [|c3 r3]; [exists EmptyString; reflexivity|].
    cbn [String.length] in L.
    destruct (white3 c3 c2 c1); [|exists EmptyString; reflexivity].
    destruct (IH r3 ltac:(lia)) as [p E].
    exists (String c1 (String c2 (String c3 p))). cbn. rewrite <- E. reflexivity.
Qed.

Lemma append_assoc (a b c : string) : (a ++ b) ++ c = a ++ (b ++ c).
Proof. induction a as [|x r IH]; [reflexivity|]. cbn. rewrite IH. reflexivity. Qed.

Lemma append_empty_r (a : string) : a ++ EmptyString = a.
Proof. induction a as [|x r IH]; [reflexivity|]. cbn. rewrite IH. reflexivity. Qed.

Lemma reverseOnto_spec (s acc : string) : reverseOnto s acc = reverse s ++ acc.
Proof.
  unfold reverse. revert acc. induction s as [|c r IH]; intro acc; [reflexivity|].
  cbn [reverseOnto]. rewrite (IH (String c acc)), (IH (String c EmptyString)).
  rewrite append_assoc. reflexivity.
Qed.

Lemma reverse_app (a b : string) : reverse (a ++ b) = reverse b ++ reverse a.
Proof.
  induction a as [|c r IH].
  - cbn. rewrite append_empty_r. reflexivity.
  - unfold reverse in *. cbn [append reverseOnto].
    rewrite (reverseOnto_spec (r ++ b)), (reverseOnto_spec r).
    unfold reverse. rewrite IH, append_assoc. reflexivity.
Qed.

Lemma reverse_involutive (s : string) : reverse (reverse s) = s.
Proof.
  induction s as [|c r IH]; [reflexivity|].
  unfold reverse at 2. cbn [reverseOnto]. rewrite reverseOnto_spec, reverse_app, IH.
  reflexivity.
Qed.

(** What [trim] returns is a piece of its argument. *)
Lemma trim_piece (s : string) : exists p q, s = p ++ trim s ++ q.
Proof.
  unfold trim, trimEnd.
  destruct (trimStart_suffix s) as [p Ep].
  destruct (trimReversed_suffix_bounded _ (reverse (trimStart s)) (Nat.le_refl _))
    as [q Eq].
  exists p, (reverse q).
  rewrite <- reverse_app, <- Eq, reverse_involutive. exact Ep.
Qed.

Lemma trim_tagFree (s : string) : tagFree s = true -> tagFree (trim s) = true.
Proof.
  intro H. destruct (trim_piece s) as (p & q & E). rewrite E in H.
  apply tagFree_app in H as [_ H]. apply tagFree_app in H as [H _]. exact H.
Qed.

Lemma stripTags_plain (s : string) : hasOpen s = false -> stripTags s = s.
Proof.
  unfold stripTags. induction s as [|c r IH]; intro H; [reflexivity|].
  cbn in H. apply orb_false_iff in H as [E H].
  cbn [stripFrom]. rewrite E, (IH H). reflexivity.
Qed.

Lemma extracted_tagFree (item : RawItem) : NoTag (extractContent item).
Proof.
  apply tagFree_NoTag. unfold extractContent.
  destruct (find _ _) as [[source|]|]; try reflexivity.
  apply trim_tagFree. apply stripFrom_tagFree.
Qed.

Lemma truthy_Some (o : option string) (s : string) :
  RssParser.truthy o = Some s -> o = Some s.
Proof. destruct o as [[|c r]|]; cbn; intro H; congruence. Qed.

(** X17: the content that [extractContent] returns holds no markup tag: it
    cannot be cut as [a ++ "<" ++ b ++ ">" ++ c].  It is the trimmed text,
    with every tag taken out, of the first non-empty string in the order
    content, content:encoded, contentSnippet, description, summary; a
    source without any [<] is only trimmed; without such a source the
    content is the empty string. *)
Theorem extracted_content_has_no_tag (item : RawItem) :
  NoTag (extractContent item)
  /\ (forall source : string,
      RssParser.truthy (content item) = Some source
      \/ (RssParser.truthy (content item) = None
          /\ RssParser.truthy (contentEncoded item) = Some source)
      \/ (RssParser.truthy (content item) = None
          /\ RssParser.truthy (contentEncoded item) = None
          /\ RssParser.truthy (contentSnippet item) = Some source)
      \/ (RssParser.truthy (content item) = None
          /\ RssParser.truthy (contentEncoded item) = None
          /\ RssParser.truthy (contentSnippet item) = None
          /\ RssParser.truthy (description item) = Some source)
      \/ (RssParser.truthy (content item) = None
          /\ RssParser.truthy (contentEncoded item) = None
          /\ RssParser.truthy (contentSnippet item) = None
          /\ RssParser.truthy (description item) = None
          /\ RssParser.truthy (summary item) = Some source) ->
      extractContent item = trim (stripTags source)
      /\ (hasOpen source = false -> extractContent item = trim source))
  /\ (RssParser.truthy (content item) = None ->
      RssParser.truthy (contentEncoded item) = None ->
      RssParser.truthy (contentSnippet item) = None ->
      RssParser.truthy (description item) = None ->
      RssParser.truthy (summary item) = None ->
      extractContent item = EmptyString).
Proof.
  split; [|split].
  - apply extracted_tagFree.
  - intros source H.
    assert (E : extractContent item = trim (stripTags source)).
    { unfold extractContent. cbn [find].
      destruct H as [A|[(A & B)|[(A & B & C)|[(A & B & C & D)|(A & B & C & D & F)]]]];
        repeat match goal with
               | H : RssParser.truthy _ = None |- _ => rewrite H; clear H
               end;
        match goal with
        | H : RssParser.truthy _ = Some source |- _ =>
            rewrite H; rewrite (truthy_Some _ _ H)
        end; reflexivity. }
    split; [exact E|].
    intro P. rewrite E, (stripTags_plain source P). reflexivity.
  - intros A B C D F. unfold extractContent. cbn [find].
    rewrite A, B, C, D, F. reflexivity.
Qed.

Lemma extracted_content_has_no_tag_witness :
  extractContent sampleRawItem
  = trim (stripTags "  <p>Hello <b>world</b></p> a < b ").
Proof.
  refine (proj1 (proj1 (proj2 (extracted_content_has_no_tag sampleRawItem))
                   "  <p>Hello <b>world</b></p> a < b " _)).
  right. right. right. left. repeat split; reflexivity.
Defined.

End ContentFacts.

(** ** From the raw feed to the collection *)

Section ParsedFeedFacts.

Import JsString FeedParsing.

Lemma orDefault_not_empty (a : option string) (b : string) :
  b <> EmptyString -> orDefault a b <> EmptyString.
Proof.
  intro H. unfold orDefault.
  destruct a as [[|c r]|]; cbn; try exact H. discriminate.
Qed.

Lemma parseItem_shape (item : RawItem) :
  RssParser.title (parseItem item) <> EmptyString
  /\ (exists text, RssParser.content (parseItem item) = Some text /\ NoTag text)
  /\ (RssParser.link (parseItem item) <> EmptyString ->
      RssParser.guid (parseItem item) <> None).
Proof.
  split; [|split].
  - apply orDefault_not_empty. discriminate.
  - exists (extractContent item). split; [reflexivity|].
    apply extracted_tagFree.
  - cbn [parseItem RssParser.link RssParser.guid]. unfold orDefault, orElse.
    destruct (RssParser.truthy (link item)) as [l|] eqn:L.
    + intros _. destruct (RssParser.truthy (guid item)); [discriminate|].
      destruct (link item) as [[|c r]|]; cbn in L; discriminate.
    + intro C. contradiction.
Qed.

(** X18: [parseFeed] keeps the number and the order of the items and gives
    every item a title that is not empty (Untitled when the feed has none),
    a content without tags and, when it has a link, a guid; a feed that
    could not be fetched yields [null].  Processing the parsed feed counts
    every item of the raw feed exactly once as saved, skipped or error. *)
Theorem parsed_feed_is_well_formed
        (feed : RawFeed) (env : RssParser.Env) (feedDoc : Feed.IFeed)
        (store : RssParser.Store) :
  parseFeed None = None
  /\ exists parsed : RssParser.ParsedFeed,
      parseFeed (Some feed) = Some parsed
      /\ RssParser.items parsed = map parseItem (f_items feed)
      /\ List.length (RssParser.items parsed) = List.length (f_items feed)
      /\ Forall (fun item =>
                   RssParser.title item <> EmptyString
                   /\ (exists text, RssParser.content item = Some text /\ NoTag text)
                   /\ (RssParser.link item <> EmptyString ->
                       RssParser.guid item <> None))
                (RssParser.items parsed)
      /\ (let r := snd (RssParser.processFeedItems env feedDoc parsed store) in
          RssParser.saved r + RssParser.skipped r + RssParser.errors r
          = List.length (f_items feed))%nat.
Proof.
  split; [reflexivity|].
  eexists. split; [reflexivity|]. cbn [RssParser.items].
  split; [reflexivity|]. split; [apply length_map|]. split.
  - apply Forall_forall. intros x Hx. apply in_map_iff in Hx as (raw & <- & _).
    apply parseItem_shape.
  - cbn zeta. unfold RssParser.processFeedItems. cbn [RssParser.items].
    rewrite run_accounting. cbn. apply length_map.
Qed.

End ParsedFeedFacts.

Section CollectionFacts.

Import RssParser.

Variable env : Env.
Variable feedDoc : Feed.IFeed.

Lemma NoDup_snoc {A : Type} (l : list A) (x : A) :
  NoDup l -> ~ In x l -> NoDup (l ++ [x]).
Proof.
  intros H N. induction H as [|a l Ha _ IH]; cbn.
  - constructor; [intros [] | constructor].
  - constructor.
    + intro C. apply in_app_or in C as [C|[C|[]]]; [tauto|].
      subst. apply N. left. reflexivity.
    + apply IH. intro C. apply N. right. exact C.
Qed.

Lemma unknown_item_is_new (item : ParsedFeedItem) (store : Store) :
  existsb (existingQuery feedDoc item) store = false ->
  ~ In (link item) (map Article.url store)
  /\ ~ In (JsString.trim (title item), Feed._id feedDoc)
          (map (fun a => (Article.title a, Article.feedId a)) store).
Proof.
  intro H. split; intro C; apply in_map_iff in C as (a & E & Hin).
  - assert (T : existingQuery feedDoc item a = true)
      by (apply existingQuery_true; left; exact E).
    assert (X : existsb (existingQuery feedDoc item) store = true)
      by (apply existsb_exists; exists a; split; assumption).
    congruence.
  - inversion E as [[E1 E2]].
    assert (T : existingQuery feedDoc item a = true)
      by (apply existingQuery_true; right; right; split; assumption).
    assert (X : existsb (existingQuery feedDoc item) store = true)
      by (apply existsb_exists; exists a; split; assumption).
    congruence.
Qed.

Lemma run_keeps_unique (k : nat) (l : list ParsedFeedItem) (store : Store) (c : Counts) :
  NoDup (map Article.url store) ->
  NoDup (map (fun a => (Article.title a, Article.feedId a)) store) ->
  NoDup (map Article.url (fst (processItems env feedDoc k l (store, c))))
  /\ NoDup (map (fun a => (Article.title a, Article.feedId a))
                (fst (processItems env feedDoc k l (store, c)))).
Proof.
  revert k store c. induction l as [|item rest IH]; intros k store c U T.
  - split; assumption.
  - cbn [processItems].
    destruct (processItem_cases env feedDoc k store c item)
      as [[_ E]|[(_ & _ & E)|(K & _ & E)]]; rewrite E.
    + apply IH; assumption.
    + apply IH; assumption.
    + destruct (unknown_item_is_new item store K) as [N1 N2].
      apply IH; rewrite map_app; cbn [map]; apply NoDup_snoc; assumption.
Qed.

End CollectionFacts.

Section CollectionClaims.

Import RssParser.

(** X19: ingestion never stores a second article with a URL that is
    already in the collection, nor a second one with the same title from
    the same feed: a collection in which the URLs are pairwise different,
    and the (title, feed) pairs too, is still such a collection after
    [processFeedItems], also when the feed itself repeats an item. *)
Theorem ingestion_keeps_articles_unique
        (env : Env) (feedDoc : Feed.IFeed) (parsedFeed : ParsedFeed) (store : Store) :
  NoDup (map Article.url store) ->
  NoDup (map (fun a => (Article.title a, Article.feedId a)) store) ->
  NoDup (map Article.url (fst (processFeedItems env feedDoc parsedFeed store)))
  /\ NoDup (map (fun a => (Article.title a, Article.feedId a))
                (fst (processFeedItems env feedDoc parsedFeed store))).
Proof. intros U T. apply run_keeps_unique; assumption. Qed.

Lemma ingestion_keeps_articles_unique_witness :
  NoDup (map Article.url
           (fst (processFeedItems Scenario.quiet Scenario.sourceA
                   (Scenario.feedOf (Scenario.firstSync ++ Scenario.secondSync)) []))).
Proof.
  apply (proj1 (ingestion_keeps_articles_unique Scenario.quiet Scenario.sourceA
                  (Scenario.feedOf (Scenario.firstSync ++ Scenario.secondSync)) []
                  (NoDup_nil _) (NoDup_nil _))).
Defined.

(** X20: [processFeedItems] only appends: the articles stored before are
    all still there, unchanged and in the same order, and after them come
    exactly [saved] new ones, each the article built at the turn of an item
    of the feed (with the title and the other texts trimmed, and the clock
    of that turn when the item has no date) whose save did not raise. *)
Theorem ingestion_only_appends
        (env : Env) (feedDoc : Feed.IFeed) (parsedFeed : ParsedFeed) (store : Store) :
  exists added : Store,
    fst (processFeedItems env feedDoc parsedFeed store) = store ++ added
    /\ List.length added = saved (snd (processFeedItems env feedDoc parsedFeed store))
    /\ Forall (fun a => exists (k : nat) (item : ParsedFeedItem),
                   nth_error (items parsedFeed) k = Some item
                   /\ a = newArticle env feedDoc k item
                   /\ Article.title a = JsString.trim (title item)
                   /\ Article.url a = link item
                   /\ saveRaises env a = false) added.
Proof.
  destruct (run_appends env feedDoc 0 (items parsedFeed) store zero)
    as (added & A & B & C).
  exists added. split; [exact A|]. split; [symmetry; exact B|].
  eapply Forall_impl; [|exact C].
  intros a (j & item & N & E & R). exists j, item.
  split; [exact N|]. split; [exact E|].
  rewrite E. repeat split. rewrite <- E. exact R.
Qed.

End CollectionClaims.

(** ** All feeds *)

Section AllFeedsFacts.

Import RssParser FeedTotals.

Variable env : Env.

Lemma processFeed_step (store : Store) (t : Totals) (feed : Feed.IFeed) :
  exists (r : FeedResult) (added : Store),
    feedResults (snd (processFeed env (store, t) feed)) = feedResults t ++ [r]
    /\ feedId r = Feed._id feed
    /\ fst (processFeed env (store, t) feed) = store ++ added
    /\ List.length added = saved (countsOf r)
    /\ totalProcessed (snd (processFeed env (store, t) feed)) = totalProcessed t
    /\ (totalSaved (snd (processFeed env (store, t) feed))
        = totalSaved t + saved (countsOf r))%nat
    /\ (totalSkipped (snd (processFeed env (store, t) feed))
        = totalSkipped t + skipped (countsOf r))%nat
    /\ (totalErrors (snd (processFeed env (store, t) feed))
        = totalErrors t + errors (countsOf r))%nat.
Proof.
  unfold processFeed. destruct (parseFeed env (Feed.url feed)) as [parsed|].
  - destruct (run_appends env feed 0 (items parsed) store zero) as (added & A & B & _).
    change (processItems env feed 0 (items parsed) (store, zero))
      with (processFeedItems env feed parsed store) in A, B.
    destruct (processFeedItems env feed parsed store) as [s r]. cbn [fst snd] in *.
    eexists. exists added. cbn [fst snd feedResults totalProcessed totalSaved
                                  totalSkipped totalErrors].
    split; [reflexivity|]. cbn [feedId countsOf counts].
    repeat split; try reflexivity; try exact A.
    symmetry. exact B.
  - eexists. exists []. cbn [fst snd feedResults totalProcessed totalSaved
                               totalSkipped totalErrors].
    split; [reflexivity|]. cbn [feedId countsOf counts zero saved skipped errors].
    repeat split; try reflexivity; try lia.
    symmetry. apply app_nil_r.
Qed.

Lemma total_app (field : Counts -> nat) (a b : list FeedResult) :
  total field (a ++ b) = (total field a + total field b)%nat.
Proof. unfold total. rewrite map_app, list_sum_app. reflexivity. Qed.

Lemma processFeeds_fold (feeds : list Feed.IFeed) (store : Store) (t : Totals) :
  exists (rs : list FeedResult) (added : Store),
    feedResults (snd (fold_left (processFeed env) feeds (store, t)))
    = feedResults t ++ rs
    /\ map feedId rs = map Feed._id feeds
    /\ fst (fold_left (processFeed env) feeds (store, t)) = store ++ added
    /\ List.length added = total saved rs
    /\ totalProcessed (snd (fold_left (processFeed env) feeds (store, t)))
       = totalProcessed t
    /\ (totalSaved (snd (fold_left (processFeed env) feeds (store, t)))
        = totalSaved t + total saved rs)%nat
    /\ (totalSkipped (snd (fold_left (processFeed env) feeds (store, t)))
        = totalSkipped t + total skipped rs)%nat
    /\ (totalErrors (snd (fold_left (processFeed env) feeds (store, t)))
        = totalErrors t + total errors rs)%nat.
Proof.
  revert store t. induction feeds as [|feed rest IH]; intros store t.
  - exists [], []. cbn. rewrite !app_nil_r. repeat split; lia.
  - cbn [fold_left].
    destruct (processFeed_step store t feed)
      as (r & added1 & R1 & I1 & S1 & L1 & P1 & A1 & B1 & C1).
    destruct (processFeed env (store, t) feed) as [s1 t1]. cbn [fst snd] in *.
    destruct (IH s1 t1) as (rs & added2 & R2 & I2 & S2 & L2 & P2 & A2 & B2 & C2).
    exists (r :: rs), (added1 ++ added2).
    split; [rewrite R2, R1, <- app_assoc; reflexivity|].
    split; [cbn [map]; rewrite I1, I2; reflexivity|].
    split; [rewrite S2, S1, <- app_assoc; reflexivity|].
    change (r :: rs) with ([r] ++ rs). rewrite !total_app.
    assert (T : forall field, total field [r] = field (countsOf r))
      by (intro field; unfold total; cbn; lia).
    rewrite !T, length_app.
    repeat split; lia.
Qed.

End AllFeedsFacts.

Section AllFeedsClaims.

Import RssParser FeedTotals.

(** X21: [processAllFeeds] reports one entry per active feed, in the order
    of the feeds and under the feed's id, and none for an inactive feed;
    [totalProcessed] is the number of entries; the three totals are the sums
    of the counters of the entries, a feed that could not be parsed adding
    nothing; and the collection afterwards is the collection before followed
    by exactly [totalSaved] new articles. *)
Theorem all_feeds_totals_add_up (env : Env) (allFeeds : list Feed.IFeed) (store : Store) :
  let t := snd (processAllFeeds env allFeeds store) in
  map feedId (feedResults t) = map Feed._id (filter Feed.isActive allFeeds)
  /\ totalProcessed t = List.length (feedResults t)
  /\ totalSaved t = total saved (feedResults t)
  /\ totalSkipped t = total skipped (feedResults t)
  /\ totalErrors t = total errors (feedResults t)
  /\ exists added : Store,
      fst (processAllFeeds env allFeeds store) = store ++ added
      /\ List.length added = totalSaved t.
Proof.
  cbn zeta. unfold processAllFeeds.
  set (feeds := filter Feed.isActive allFeeds).
  set (t0 := {| totalProcessed := List.length feeds; totalSaved := 0;
                totalSkipped := 0; totalErrors := 0; feedResults := [] |}).
  destruct (processFeeds_fold env feeds store t0)
    as (rs & added & R & I & S & L & P & A & B & C).
  cbn [feedResults totalProcessed totalSaved totalSkipped totalErrors t0 app] in *.
  rewrite R, P, A, B, C.
  split; [exact I|].
  split; [rewrite <- (length_map feedId rs), I; apply eq_sym, length_map|].
  repeat split.
  exists added. split; [exact S | exact L].
Qed.

End AllFeedsClaims.

(** ** The articles route *)

Section RouteFacts.

Import Pagination ArticlesRoute.

Lemma lt_ceiling (z : Z) (x : Q) : (z < Qceiling x)%Z <-> inject_Z z < x.
Proof.
  split; intro H.
  - eapply Qle_lt_trans; [|apply Qceiling_lt].
    rewrite <- Zle_Qle. lia.
  - rewrite Zlt_Qlt. eapply Qlt_le_trans; [exact H | apply Qle_ceiling].
Qed.

Lemma lt_quotient (z t l : Z) :
  (0 < l)%Z -> inject_Z z < inject_Z t / inject_Z l <-> (z * l < t)%Z.
Proof.
  intro Hl.
  assert (L : 0 < inject_Z l) by (change 0 with (inject_Z 0); rewrite <- Zlt_Qlt; exact Hl).
  assert (N : ~ inject_Z l == 0) by (intro C; rewrite C in L; exact (Qlt_irrefl _ L)).
  rewrite Zlt_Qlt, inject_Z_mult. split; intro H.
  - assert (E : inject_Z t == inject_Z t / inject_Z l * inject_Z l) by (field; exact N).
    rewrite E. apply Qmult_lt_r; assumption.
  - apply Qlt_shift_div_l; assumption.
Qed.

Lemma hasNext_more (page limit totalCount : Z) :
  (0 < limit)%Z ->
  hasNext (pagination page limit totalCount) = true
  <-> (page * limit < totalCount)%Z.
Proof.
  intro Hl. cbn [pagination hasNext]. rewrite ltb_lt. unfold Js.Math_ceil.
  rewrite <- Zlt_Qlt, lt_ceiling. apply lt_quotient. exact Hl.
Qed.

Lemma skip_nat (p : nat) (limit : Z) :
  (0 < limit)%Z ->
  Z.to_nat (skip (Z.of_nat (S p)) limit) = (p * Z.to_nat limit)%nat.
Proof.
  intro Hl. unfold skip.
  replace (Z.of_nat (S p) - 1)%Z with (Z.of_nat p) by lia.
  rewrite Z2Nat.inj_mul by lia. rewrite Nat2Z.id. reflexivity.
Qed.

Lemma firstn_add {A : Type} (a b : nat) (xs : list A) :
  firstn (a + b) xs = firstn a xs ++ firstn b (skipn a xs).
Proof.
  revert xs. induction a as [|a IH]; intro xs; [reflexivity|].
  destruct xs as [|x xs]; cbn; [destruct b; reflexivity|].
  rewrite IH. reflexivity.
Qed.

Lemma pages_concat {A : Type} (limit : Z) (matching : list A) (n : nat) :
  (0 < limit)%Z ->
  List.concat (map (fun p => pageOf (Z.of_nat p) limit matching) (seq 1 n))
  = firstn (n * Z.to_nat limit) matching.
Proof.
  intro Hl. induction n as [|n IH]; [reflexivity|].
  rewrite seq_S, map_app, concat_app, IH. cbn [map List.concat Nat.add].
  rewrite app_nil_r. unfold pageOf. rewrite (skip_nat n limit Hl).
  rewrite <- firstn_add. f_equal. lia.
Qed.

End RouteFacts.

Section RouteClaims.

Import Pagination ArticlesRoute.

(** X22: for a page of at least 1 and a positive limit the articles route
    returns [min limit (count - skip)] documents, none when the page lies
    beyond the last document; [hasNext] is true exactly when documents
    remain after this page, that is when the next page is not empty; and
    [hasPrev] is true exactly on a page after the first. *)
Theorem articles_hasNext_iff_next_page {A : Type} (page limit : Z) (matching : list A) :
  (1 <= page)%Z -> (0 < limit)%Z ->
  let reply := GET page limit matching in
  List.length (fst reply)
  = Nat.min (Z.to_nat limit) (List.length matching - Z.to_nat (skip page limit))
  /\ (hasNext (snd reply) = true
      <-> (page * limit < Z.of_nat (List.length matching))%Z)
  /\ (hasNext (snd reply) = true <-> pageOf (page + 1) limit matching <> [])
  /\ (hasPrev (snd reply) = true <-> (1 < page)%Z).
Proof.
  intros Hp Hl. cbn zeta. unfold GET. cbn [fst snd].
  assert (L : forall q, List.length (pageOf q limit matching)
              = Nat.min (Z.to_nat limit)
                  (List.length matching - Z.to_nat (skip q limit))).
  { intro q. unfold pageOf. rewrite length_firstn, length_skipn. reflexivity. }
  split; [apply L|].
  split; [apply hasNext_more; exact Hl|].
  split.
  - rewrite hasNext_more by exact Hl.
    assert (E : Z.to_nat (skip (page + 1) limit) = Z.to_nat (page * limit))
      by (unfold skip; f_equal; lia).
    specialize (L (page + 1)%Z). rewrite E in L.
    split; intro H.
    + intro C. rewrite C in L. cbn [List.length] in L. nia.
    + destruct (Z_lt_le_dec (page * limit) (Z.of_nat (List.length matching)))
        as [Y|N]; [exact Y|].
      exfalso. apply H. apply length_zero_iff_nil. rewrite L. nia.
  - cbn [pagination hasPrev]. rewrite gtb_gt.
    change 1 with (inject_Z 1). rewrite <- Zlt_Qlt. reflexivity.
Qed.

Lemma articles_hasNext_iff_next_page_witness :
  List.length (fst (GET 2 2 [1; 2; 3; 4; 5]%nat)) = 2%nat
  /\ hasNext (snd (GET 2 2 [1; 2; 3; 4; 5]%nat)) = true.
Proof.
  destruct (articles_hasNext_iff_next_page 2 2 [1; 2; 3; 4; 5]%nat)
    as (L & N & _); [lia | lia |].
  split; [exact L|]. apply N. cbn. lia.
Defined.

(** X23: with a positive limit the pages 1, 2, ..., [totalPages] of the
    articles route, one after the other, are the matching documents, each
    exactly once and in the order of the sort. *)
Theorem articles_pages_partition {A : Type} (limit : Z) (matching : list A) (n : nat) :
  (0 < limit)%Z ->
  totalPages (pagination 1 limit (Z.of_nat (List.length matching)))
  == inject_Z (Z.of_nat n) ->
  List.concat (map (fun p => fst (GET (Z.of_nat p) limit matching)) (seq 1 n))
  = matching.
Proof.
  intros Hl Hn. unfold GET. cbn [fst].
  rewrite (pages_concat limit matching n Hl).
  apply firstn_all2.
  cbn [pagination totalPages] in Hn. unfold Js.Math_ceil in Hn.
  apply (proj1 (inject_Z_injective _ _)) in Hn.
  destruct (Z_lt_le_dec (Z.of_nat n * limit) (Z.of_nat (List.length matching)))
    as [Y|N]; [|nia].
  apply lt_quotient in Y; [|exact Hl]. apply lt_ceiling in Y. lia.
Qed.

Lemma articles_pages_partition_witness :
  List.concat (map (fun p => fst (GET (Z.of_nat p) 2 [1; 2; 3; 4; 5]%nat)) (seq 1 3))
  = [1; 2; 3; 4; 5]%nat.
Proof.
  apply (articles_pages_partition 2 [1; 2; 3; 4; 5]%nat 3); [lia | reflexivity].
Defined.

(** X24: for a page between 1 and the number of pages the route's
    pagination object has the fields [buildPagination] computes; on an
    empty result the two differ, the route reporting 0 pages where
    [buildPagination] reports 1. *)
Theorem articles_pagination_matches_buildPagination (limit totalCount : Z) :
  (0 < limit)%Z ->
  (forall page : Z,
      (1 <= page)%Z ->
      inject_Z page <= totalPages (pagination page limit totalCount) ->
      let route := pagination page limit totalCount in
      let built :=
        buildPagination (inject_Z page) (inject_Z limit) (inject_Z totalCount) in
      currentPage route == currentPage built
      /\ totalPages route == totalPages built
      /\ Pagination.totalCount route == Pagination.totalCount built
      /\ Pagination.limit route == Pagination.limit built
      /\ hasNext route = hasNext built
      /\ hasPrev route = hasPrev built)
  /\ (forall page : Z,
      totalPages (pagination page limit 0) == 0
      /\ totalPages (buildPagination (inject_Z page) (inject_Z limit) 0) == 1).
Proof.
  intro Hl. split.
  2:{ intro page. cbn [pagination buildPagination totalPages].
      assert (E : inject_Z 0 / inject_Z limit == 0) by (unfold Qdiv; apply Qmult_0_l).
      assert (F : 0 / inject_Z limit == 0) by (unfold Qdiv; apply Qmult_0_l).
      unfold Js.Math_ceil. rewrite (Qceiling_comp _ _ E), (Qceiling_comp _ _ F).
      split; reflexivity. }
  intros page Hp Ht. cbn zeta.
  cbn [pagination buildPagination currentPage totalPages Pagination.totalCount
       Pagination.limit hasNext hasPrev] in *.
  set (c := Js.Math_ceil (inject_Z totalCount / inject_Z limit)) in *.
  assert (P1 : 1 <= inject_Z page)
    by (change 1 with (inject_Z 1); rewrite <- Zle_Qle; exact Hp).
  assert (C1 : 1 <= c) by (eapply Qle_trans; eassumption).
  unfold Js.Math_max, Js.Math_min.
  assert (Ec : Qmax 1 c == c) by (apply Q.max_r; exact C1).
  assert (Ep : Qmax 1 (inject_Z page) == inject_Z page) by (apply Q.max_r; exact P1).
  assert (Em : Qmin (Qmax 1 (inject_Z page)) (Qmax 1 c) == inject_Z page).
  { rewrite Ec, Ep. apply Q.min_l. exact Ht. }
  split; [symmetry; exact Em|].
  split; [symmetry; exact Ec|].
  split; [reflexivity|]. split; [reflexivity|].
  assert (B : forall a b a' b', a == a' -> b == b' -> Qle_bool a b = Qle_bool a' b').
  { intros a b a' b' Ea Eb.
    destruct (Qle_bool a b) eqn:E1; destruct (Qle_bool a' b') eqn:E2; try reflexivity.
    - apply Qle_bool_iff in E1. rewrite Ea, Eb in E1.
      apply Qle_bool_iff in E1. congruence.
    - apply Qle_bool_iff in E2. rewrite <- Ea, <- Eb in E2.
      apply Qle_bool_iff in E2. congruence. }
  split.
  - unfold Js.ltb. f_equal. apply B; symmetry; assumption.
  - unfold Js.gtb, Js.ltb. f_equal. apply B; [symmetry; exact Em | reflexivity].
Qed.

Lemma articles_pagination_matches_buildPagination_witness :
  totalPages (pagination 2 10 25) == totalPages (buildPagination 2 10 25).
Proof.
  destruct (articles_pagination_matches_buildPagination 10 25) as [H _]; [lia|].
  destruct (H 2%Z) as (_ & T & _); [lia | vm_compute; discriminate |].
  exact T.
Defined.

End RouteClaims.

(** ** Engagement of an article *)

Section EngagementFacts.

Import Article ArticleMethods.

Lemma incrementViews_score (a : IArticle) :
  engagementScore (incrementViews a) == engagementScore a + 0.1.
Proof.
  unfold engagementScore, incrementViews, withEngagement. cbn [likes dislikes views].
  ring.
Qed.

Lemma viewed_ranking (n : nat) (a : IArticle) :
  ranking (viewed n a) = ranking a
  /\ likes (viewed n a) = likes a
  /\ dislikes (viewed n a) = dislikes a
  /\ engagementScore (viewed n a)
     == engagementScore a + inject_Z (Z.of_nat n) * 0.1.
Proof.
  revert a. induction n as [|n IH]; intro a.
  - repeat split. cbn [viewed Z.of_nat]. change (inject_Z 0) with 0. ring.
  - cbn [viewed]. destruct (IH (incrementViews a)) as (R & L & D & E).
    rewrite R, L, D, E, incrementViews_score.
    repeat split. rewrite Nat2Z.inj_succ. unfold Z.succ. rewrite inject_Z_plus.
    change (inject_Z 1) with 1. ring.
Qed.

(** X25: a vote brings [ranking] up to date with [engagementScore], a like
    moving the score up by 2 and a dislike down by 1; a view leaves
    [ranking] as it is, so after [n] views that follow the vote the stored
    ranking is the score of the moment of the vote and lies [n * 0.1] below
    the current score. *)
Theorem ranking_follows_votes_not_views (type : EngagementType) (n : nat) (a : IArticle) :
  let voted := addEngagement type a in
  ranking voted == engagementScore voted
  /\ engagementScore voted
     == engagementScore a + match type with like => 2 | dislike => -1 end
  /\ ranking (viewed n voted) == engagementScore voted
  /\ engagementScore (viewed n voted)
     == ranking (viewed n voted) + inject_Z (Z.of_nat n) * 0.1.
Proof.
  cbn zeta.
  assert (R : ranking (addEngagement type a)
              == engagementScore (addEngagement type a)).
  { destruct type; unfold addEngagement, engagementScore, withEngagement;
      cbn [likes dislikes views ranking]; reflexivity. }
  destruct (viewed_ranking n (addEngagement type a)) as (V & _ & _ & E).
  split; [exact R|].
  split.
  { destruct type; unfold addEngagement, engagementScore, withEngagement;
      cbn [likes dislikes views ranking]; ring. }
  split; [rewrite V; exact R|].
  rewrite E, V, R. reflexivity.
Qed.

(** X26: with counters that are not negative the like ratio is a
    percentage; it is 0 for an article without votes, and it is 100 exactly
    when a voted article has no dislike. *)
Theorem likeRatio_is_percentage (a : IArticle) :
  0 <= likes a -> 0 <= dislikes a ->
  0 <= likeRatio a <= 100
  /\ (likes a + dislikes a == 0 -> likeRatio a == 0)
  /\ (0 < likes a + dislikes a -> (likeRatio a == 100 <-> dislikes a == 0)).
Proof.
  intros Hl Hd. unfold likeRatio.
  destruct (Js.gtb (likes a + dislikes a) 0) eqn:G.
  - apply gtb_gt in G.
    assert (N : ~ likes a + dislikes a == 0)
      by (intro C; rewrite C in G; exact (Qlt_irrefl _ G)).
    assert (L : 0 <= likes a / (likes a + dislikes a))
      by (apply Qle_shift_div_l; [exact G | qlra]).
    assert (U : likes a / (likes a + dislikes a) <= 1)
      by (apply Qle_shift_div_r; [exact G | qlra]).
    split; [split; qlra|].
    split; [intro C; contradiction|].
    intros _. split; intro H.
    + assert (E : likes a / (likes a + dislikes a) == 1) by qlra.
      assert (F : likes a == likes a / (likes a + dislikes a) * (likes a + dislikes a))
        by (field; exact N).
      rewrite E in F. qlra.
    + assert (E : likes a / (likes a + dislikes a) == 1).
      { rewrite H, Qplus_0_r. field. intro C. rewrite H, C in G.
        exact (Qlt_irrefl _ G). }
      rewrite E. reflexivity.
  - assert (Z0 : ~ 0 < likes a + dislikes a).
    { intro C. apply gtb_gt in C. congruence. }
    split; [split; qlra|].
    split; [reflexivity|]. intro C. contradiction.
Qed.

Lemma likeRatio_is_percentage_witness :
  0 <= likeRatio
         (withEngagement 3 1 0 0
            (RssParser.newArticle Scenario.quiet Scenario.sourceA 0 Scenario.byAlice))
       <= 100.
Proof.
  apply (likeRatio_is_percentage
           (withEngagement 3 1 0 0
              (RssParser.newArticle Scenario.quiet Scenario.sourceA 0 Scenario.byAlice)));
    vm_compute; discriminate.
Defined.

End EngagementFacts.

(** ** The AI model's scores along the synchronisation *)

Section ModelPipeline.

Import AIModel.

Lemma between_true (lo hi x : Q) : between lo hi x = true <-> lo <= x <= hi.
Proof.
  unfold between. rewrite andb_true_iff, !Qle_bool_iff. reflexivity.
Qed.

(** What a document that passes validation satisfies. *)
Lemma validate_true (m : IAIModel) :
  validate m = true
  <-> huggingFaceId m <> EmptyString
      /\ 0 <= downloads m
      /\ 0 <= likes m
      /\ 0 <= huggingFaceScore m <= 100
      /\ 0 <= userVotes m
      /\ 0 <= userRating m <= 5
      /\ 0 <= userScore m <= 100
      /\ 0 <= finalScore m <= 100.
Proof.
  unfold validate.
  rewrite !andb_true_iff, !between_true, !Qle_bool_iff, negb_true_iff,
    String.eqb_neq.
  tauto.
Qed.

Lemma save_Some (m m' : IAIModel) :
  save m = Some m' -> validate m = true /\ m' = pre_save m.
Proof.
  unfold save. destruct (validate m); [|discriminate].
  intro E. inversion E. split; reflexivity.
Qed.

(** What the hook stores for a document that passed validation. *)
Lemma saved_scores (m m' : IAIModel) :
  save m = Some m' ->
  0 <= userScore m' <= 100
  /\ finalScore m' == huggingFaceScore m * 0.85 + userScore m' * 0.15
  /\ 0 <= finalScore m' <= 100
  /\ (userVotes m == 0 -> userScore m' == 0)
  /\ (100 <= userVotes m -> userScore m' == 16 * userRating m + 20).
Proof.
  intro S. apply save_Some in S as [V ->].
  apply validate_true in V as (_ & _ & _ & Hs & Hv & Hr & _ & _).
  pose proof (pre_save_userScore_range m Hr) as U.
  pose proof (pre_save_finalScore m) as F.
  change (huggingFaceScore (pre_save m)) with (huggingFaceScore m) in F.
  split; [exact U|]. split; [exact F|].
  split; [rewrite F; split; qlra|].
  split.
  - intro Z0. cbn [pre_save userScore].
    destruct (Js.gtb (userVotes m) 0) eqn:G; [|reflexivity].
    apply gtb_gt in G. exfalso. qlra.
  - intro H100. cbn [pre_save userScore].
    destruct (Js.gtb (userVotes m) 0) eqn:G.
    + unfold Js.Math_min. rewrite rating_scaled, votes_scaled.
      rewrite Q.min_r by qlra. ring.
    + assert (C : 0 < userVotes m) by qlra. apply gtb_gt in C. congruence.
Qed.

(** X27: when [syncFromHuggingFace] is applied to the adapter's output of a
    hub model and its save passes validation, the stored final score is in
    [0,100], lies between 85 percent of the hub score and 15 points above
    it, and is at most 85 for a model without votes; the votes and the
    rating stay as they were.  The save passes exactly when the document
    with the new hub values passes the validators; with a vote count below
    0 it is rejected and nothing is written. *)
Theorem synced_model_score_in_range (hf : HuggingFace.HuggingFaceModel) (m : IAIModel) :
  let hfData := HuggingFace.transformHuggingFaceModel hf in
  (forall m' : IAIModel,
      syncFromHuggingFace hfData m = Some m' ->
      0 <= finalScore m' <= 100
      /\ HuggingFace.huggingFaceScore hfData * 0.85 <= finalScore m'
      /\ finalScore m' <= HuggingFace.huggingFaceScore hfData * 0.85 + 15
      /\ (userVotes m == 0 -> finalScore m' <= 85)
      /\ userVotes m' = userVotes m
      /\ userRating m' = userRating m)
  /\ (syncFromHuggingFace hfData m = None
      <-> validate (withHuggingFace hfData m) = false)
  /\ (userVotes m < 0 -> syncFromHuggingFace hfData m = None).
Proof.
  cbn zeta. set (hfData := HuggingFace.transformHuggingFaceModel hf).
  split; [|split].
  - intros m' S. unfold syncFromHuggingFace in S.
    destruct (saved_scores _ _ S) as (U & F & R & Z0 & _).
    pose proof (save_Some _ _ S) as [V E].
    apply validate_true in V as (_ & _ & _ & Hs & _).
    assert (H : huggingFaceScore (withHuggingFace hfData m)
                == HuggingFace.huggingFaceScore hfData) by apply or_zero_id.
    rewrite H in F, Hs.
    split; [exact R|].
    split; [rewrite F; qlra|]. split; [rewrite F; qlra|].
    split; [|rewrite E; split; reflexivity].
    intro Hv. rewrite F. rewrite (Z0 Hv). qlra.
  - unfold syncFromHuggingFace, save.
    destruct (validate (withHuggingFace hfData m)); split; intro H;
      try reflexivity; discriminate.
  - intro Hv. unfold syncFromHuggingFace, save.
    destruct (validate (withHuggingFace hfData m)) eqn:V; [|reflexivity].
    apply validate_true in V as (_ & _ & _ & _ & C & _).
    cbn [withHuggingFace userVotes] in C. exfalso. qlra.
Qed.

Lemma synced_model_score_in_range_witness :
  0 <= finalScore
         (pre_save (withHuggingFace
                      (HuggingFace.transformHuggingFaceModel HuggingFace.scenarioModel)
                      (Scenario.sampleModel 27 50 4 0))) <= 100.
Proof.
  apply (proj1 (synced_model_score_in_range HuggingFace.scenarioModel
                  (Scenario.sampleModel 27 50 4 0))).
  vm_compute. reflexivity.
Defined.

(** X28: when the save of [updateUserRating] passes validation, the new
    vote count is at least 0, the new rating is on the five-star scale and
    the stored final score lies between 85 percent of the hub score and 15
    points above it; the bonus for the number of votes stops growing at 100
    votes, from where the user score is [16 * rating + 20]; with no vote the
    final score is 85 percent of the hub score whatever the rating.  With
    a vote count below 0 or a rating outside the scale the save is rejected
    and nothing is written. *)
Theorem user_rating_moves_score_by_at_most_15 (votes avg : Q) (m : IAIModel) :
  (forall m' : IAIModel,
      updateUserRating votes avg m = Some m' ->
      0 <= votes /\ 0 <= avg <= 5
      /\ huggingFaceScore m * 0.85 <= finalScore m'
      /\ finalScore m' <= huggingFaceScore m * 0.85 + 15
      /\ (100 <= votes -> userScore m' == 16 * avg + 20)
      /\ (votes == 0 -> finalScore m' == huggingFaceScore m * 0.85))
  /\ (votes < 0 \/ avg < 0 \/ 5 < avg -> updateUserRating votes avg m = None).
Proof.
  split.
  - intros m' S. unfold updateUserRating in S.
    destruct (saved_scores _ _ S) as (U & F & R & Z0 & H100).
    pose proof (save_Some _ _ S) as [V E].
    apply validate_true in V as (_ & _ & _ & _ & Hv & Hr & _).
    cbn [withUserRating userVotes userRating huggingFaceScore] in *.
    split; [exact Hv|]. split; [exact Hr|].
    split; [rewrite F; qlra|]. split; [rewrite F; qlra|].
    split; [exact H100|].
    intro Hz. rewrite F, (Z0 Hz). ring.
  - intro H. unfold updateUserRating, save.
    destruct (validate (withUserRating votes avg m)) eqn:V; [|reflexivity].
    apply validate_true in V as (_ & _ & _ & _ & Hv & Hr & _).
    cbn [withUserRating userVotes userRating] in *. exfalso.
    destruct H as [H|[H|H]]; qlra.
Qed.

Lemma user_rating_moves_score_by_at_most_15_witness :
  userScore (pre_save (withUserRating 250 4 (Scenario.sampleModel 27 50 4 0)))
  == 16 * 4 + 20.
Proof.
  destruct (proj1 (user_rating_moves_score_by_at_most_15 250 4
                     (Scenario.sampleModel 27 50 4 0))
              (pre_save (withUserRating 250 4 (Scenario.sampleModel 27 50 4 0))))
    as (_ & _ & _ & _ & H & _).
  - vm_compute. reflexivity.
  - apply H. vm_compute. discriminate.
Defined.

End ModelPipeline.
